(** * neat/genes.py: node and connection genes

    A shallow embedding of [BaseGene], [DefaultNodeGene] and
    [DefaultConnectionGene].  Python values are dynamically typed, so the
    embedding carries a small universe of Python values with the operators
    the module applies to them; Python floats are IEEE 754 binary64 numbers
    and are modelled by [spec_float] at precision 53.  Gene instances are
    mutable objects: they live in a heap and the methods are written in a
    state-and-exception monad.  The objects of the function registry are
    values like any other there; [copy] and [mutate] are embedded a second
    time over a heap of such objects, where two genes can hold the same
    object. *)

From Stdlib Require Import ZArith Bool String Ascii.
From Stdlib Require Import Floats.SpecFloat.
From stdpp Require Import gmap strings list fin_maps.

Local Open Scope Z_scope.

(** ** Exceptions *)

Inductive exn :=
| AssertionError
| AttributeError
| TypeError
| OverflowError.

Inductive result (A : Type) :=
| Ok (a : A)
| Raise (e : exn).
Arguments Ok {A} a.
Arguments Raise {A} e.

Definition rbind {A B} (r : result A) (k : A -> result B) : result B :=
  match r with
  | Ok a => k a
  | Raise e => Raise e
  end.

Declare Scope result_scope.
Delimit Scope result_scope with res.
Notation "x <- r ;; k" := (rbind r (fun x => k))
  (at level 100, r at next level, right associativity) : result_scope.

(** ** Python floats *)

Module Float.

Definition prec : Z := 53.
Definition emax : Z := 1024.

Definition add := SFadd prec emax.
Definition sub := SFsub prec emax.
Definition mul := SFmul prec emax.
Definition abs := SFabs.
Definition eqb := SFeqb.
Definition ltb := SFltb.

(** [dyadic m e] is the float nearest to [m * 2^e]. *)
Definition dyadic (m e : Z) : spec_float := binary_normalize prec emax m e false.

Definition zero : spec_float := S754_zero false.
Definition one : spec_float := Eval vm_compute in dyadic 1 0.
Definition half : spec_float := Eval vm_compute in dyadic 1 (-1).
Definition inf : spec_float := S754_infinity false.
Definition nan : spec_float := S754_nan.

Definition is_finite (f : spec_float) : bool :=
  match f with
  | S754_zero _ | S754_finite _ _ _ => true
  | S754_infinity _ | S754_nan => false
  end.

Definition is_nan (f : spec_float) : bool :=
  match f with
  | S754_nan => true
  | _ => false
  end.

(** [float(z)] for a Python int: the nearest float, ties to even;
    an int beyond the float range raises [OverflowError]. *)
Definition of_int (z : Z) : result spec_float :=
  match dyadic z 0 with
  | S754_infinity _ => Raise OverflowError
  | f => Ok f
  end.

(** Exact comparison of the int [z] with the float [f], as Python's
    mixed [int]/[float] comparisons do; [None] when [f] is a NaN. *)
Definition compare_int (z : Z) (f : spec_float) : option comparison :=
  match f with
  | S754_nan => None
  | S754_infinity s => Some (if s then Gt else Lt)
  | S754_zero _ => Some (z ?= 0)
  | S754_finite s m e =>
      let sm := if s then Z.neg m else Z.pos m in
      Some (if 0 <=? e then z ?= sm * 2 ^ e else z * 2 ^ (- e) ?= sm)
  end.

(** A float that is its own absolute value: not negative, and not [-0.0]. *)
Definition unsigned (f : spec_float) : Prop := abs f = f.

(** The two zeros. *)
Definition is_zero (f : spec_float) : bool :=
  match f with
  | S754_zero _ => true
  | _ => false
  end.

End Float.

(** ** Python values *)

(** Hashable scalars other than floats; tuples are tuples of these. *)
Inductive atom :=
| ANone
| ABool (b : bool)
| AInt (z : Z)
| AStr (s : string).

(** Built-in immutable data: the values a caller may offer as a key. *)
Inductive data :=
| DAtom (a : atom)
| DFloat (f : spec_float)
| DTuple (l : list atom).

Inductive pytype := NoneType | Bool | Int | Float | Str | Tuple.

Definition pytype_eqb (t u : pytype) : bool :=
  match t, u with
  | NoneType, NoneType | Bool, Bool | Int, Int
  | Float, Float | Str, Str | Tuple, Tuple => true
  | _, _ => false
  end.

Definition atom_type (a : atom) : pytype :=
  match a with
  | ANone => NoneType
  | ABool _ => Bool
  | AInt _ => Int
  | AStr _ => Str
  end.

Definition type_of (d : data) : pytype :=
  match d with
  | DAtom a => atom_type a
  | DFloat _ => Float
  | DTuple _ => Tuple
  end.

(** [bool] is the one built-in subclass among these types: [issubclass(bool, int)]. *)
Definition issubclass (t u : pytype) : bool :=
  match t, u with
  | Bool, Int => true
  | _, _ => pytype_eqb t u
  end.

Definition isinstance (d : data) (t : pytype) : bool :=
  issubclass (type_of d) t.

(** The integer value of an [int] or [bool]. *)
Definition atom_int (a : atom) : option Z :=
  match a with
  | AInt z => Some z
  | ABool b => Some (if b then 1 else 0)
  | _ => None
  end.

(** [==] on atoms: numbers by value ([True == 1]), strings by content. *)
Definition atom_eq (a b : atom) : bool :=
  match atom_int a, atom_int b with
  | Some x, Some y => x =? y
  | _, _ =>
      match a, b with
      | ANone, ANone => true
      | AStr s, AStr t => String.eqb s t
      | _, _ => false
      end
  end.

(** [<] on atoms; ordering [None] or values of unrelated types raises. *)
Definition atom_lt (a b : atom) : result bool :=
  match atom_int a, atom_int b with
  | Some x, Some y => Ok (x <? y)
  | _, _ =>
      match a, b with
      | AStr s, AStr t => Ok (String.ltb s t)
      | _, _ => Raise TypeError
      end
  end.

(** Tuples compare element by element. *)
Fixpoint tuple_eq (l1 l2 : list atom) : bool :=
  match l1, l2 with
  | [], [] => true
  | a :: l1', b :: l2' => atom_eq a b && tuple_eq l1' l2'
  | _, _ => false
  end.

(** Tuple ordering: the first pair of unequal elements decides, else the
    shorter tuple is the smaller. *)
Fixpoint tuple_lt (l1 l2 : list atom) : result bool :=
  match l1, l2 with
  | [], [] => Ok false
  | [], _ :: _ => Ok true
  | _ :: _, [] => Ok false
  | a :: l1', b :: l2' => if atom_eq a b then tuple_lt l1' l2' else atom_lt a b
  end.

(** Numbers: the numeric reading of a value, [int] (with [bool]) or [float]. *)
Inductive num :=
| NInt (z : Z)
| NFloat (f : spec_float).

Definition as_num (d : data) : option num :=
  match d with
  | DAtom a => NInt <$> atom_int a
  | DFloat f => Some (NFloat f)
  | DTuple _ => None
  end.

Definition of_num (n : num) : data :=
  match n with
  | NInt z => DAtom (AInt z)
  | NFloat f => DFloat f
  end.

Definition to_float (n : num) : result spec_float :=
  match n with
  | NInt z => Float.of_int z
  | NFloat f => Ok f
  end.

Definition num_compare (a b : num) : option comparison :=
  match a, b with
  | NInt x, NInt y => Some (x ?= y)
  | NFloat f, NFloat g => SFcompare f g
  | NInt x, NFloat g => Float.compare_int x g
  | NFloat f, NInt y => CompOpp <$> Float.compare_int y f
  end.

Definition num_eq (a b : num) : bool :=
  match num_compare a b with
  | Some Eq => true
  | _ => false
  end.

Definition num_lt (a b : num) : bool :=
  match num_compare a b with
  | Some Lt => true
  | _ => false
  end.

(** [a == b] on built-in data. *)
Definition data_eq (a b : data) : bool :=
  match as_num a, as_num b with
  | Some x, Some y => num_eq x y
  | _, _ =>
      match a, b with
      | DAtom x, DAtom y => atom_eq x y
      | DTuple l1, DTuple l2 => tuple_eq l1 l2
      | _, _ => false
      end
  end.

(** [a < b] on built-in data. *)
Definition data_lt (a b : data) : result bool :=
  match as_num a, as_num b with
  | Some x, Some y => Ok (num_lt x y)
  | _, _ =>
      match a, b with
      | DAtom x, DAtom y => atom_lt x y
      | DTuple l1, DTuple l2 => tuple_lt l1 l2
      | _, _ => Raise TypeError
      end
  end.

(** Arithmetic on numbers: two ints stay exact, anything else is
    carried out on floats after converting the int operand. *)
Definition num_binop (fz : Z -> Z -> Z) (ff : spec_float -> spec_float -> spec_float)
    (a b : num) : result num :=
  match a, b with
  | NInt x, NInt y => Ok (NInt (fz x y))
  | _, _ =>
      (x <- to_float a;;
       y <- to_float b;;
       Ok (NFloat (ff x y)))%res
  end.

Definition num_sub := num_binop Z.sub Float.sub.
Definition num_add := num_binop Z.add Float.add.
Definition num_mul := num_binop Z.mul Float.mul.

Definition num_abs (a : num) : num :=
  match a with
  | NInt x => NInt (Z.abs x)
  | NFloat f => NFloat (Float.abs f)
  end.

(** ** Attribute values

    An attribute value is built-in data or an object handed out by the
    function registry (an activation or aggregation function).  The
    registry is outside this module: the object type and the methods its
    objects define are parameters.  A registry object is assumed to define
    no arithmetic and to compare unequal to built-in data. *)

Inductive value (obj : Type) :=
| VData (d : data)
| VObj (o : obj).
Arguments VData {obj} d.
Arguments VObj {obj} o.

Definition VFloat {obj} (f : spec_float) : value obj := VData (DFloat f).
Definition VBool {obj} (b : bool) : value obj := VData (DAtom (ABool b)).
Definition VInt {obj} (z : Z) : value obj := VData (DAtom (AInt z)).
Definition VStr {obj} (s : string) : value obj := VData (DAtom (AStr s)).

(** The methods of registry objects the module probes with [hasattr]:
    [None] when the object does not define the method. *)
Record registry (obj : Type) := {
  obj_eq : obj -> obj -> bool;
  obj_copy : obj -> option (result (value obj));
  obj_distance : obj -> option (value obj -> result (value obj));
}.
Arguments obj_eq {obj} r.
Arguments obj_copy {obj} r.
Arguments obj_distance {obj} r.

(** [s * n] and [l * n] for a string and a tuple. *)
Fixpoint repeat_string (n : nat) (s : string) : string :=
  match n with
  | O => EmptyString
  | S n' => String.append s (repeat_string n' s)
  end.

Definition repeat_tuple (n : nat) (l : list atom) : list atom :=
  List.concat (List.repeat l n).

Section Values.
Context {obj : Type} (reg : registry obj).

(** The number a value is, if it is one. *)
Definition value_num (v : value obj) : option num :=
  match v with
  | VData d => as_num d
  | VObj _ => None
  end.

(** [v == w] and [v != w]. *)
Definition py_eq (v w : value obj) : bool :=
  match v, w with
  | VData a, VData b => data_eq a b
  | VObj o, VObj p => obj_eq reg o p
  | _, _ => false
  end.

Definition py_ne (v w : value obj) : bool := negb (py_eq v w).

Definition py_arith (op : num -> num -> result num) (v w : value obj)
    : option (result (value obj)) :=
  match value_num v, value_num w with
  | Some a, Some b => Some (n <- op a b;; Ok (VData (of_num n)))%res
  | _, _ => None
  end.

(** [v - w] *)
Definition py_sub (v w : value obj) : result (value obj) :=
  match py_arith num_sub v w with
  | Some r => r
  | None => Raise TypeError
  end.

(** [v + w]: addition of numbers, concatenation of strings and of tuples. *)
Definition py_add (v w : value obj) : result (value obj) :=
  match py_arith num_add v w with
  | Some r => r
  | None =>
      match v, w with
      | VData (DAtom (AStr s)), VData (DAtom (AStr t)) => Ok (VStr (String.append s t))
      | VData (DTuple l1), VData (DTuple l2) => Ok (VData (DTuple (l1 ++ l2)))
      | _, _ => Raise TypeError
      end
  end.

(** [v * w]: product of numbers, repetition of a string or tuple by an int. *)
Definition py_mul (v w : value obj) : result (value obj) :=
  match py_arith num_mul v w with
  | Some r => r
  | None =>
      match v, w with
      | VData (DAtom (AStr s)), VData (DAtom a)
      | VData (DAtom a), VData (DAtom (AStr s)) =>
          match atom_int a with
          | Some n => Ok (VStr (repeat_string (Z.to_nat n) s))
          | None => Raise TypeError
          end
      | VData (DTuple l), VData (DAtom a)
      | VData (DAtom a), VData (DTuple l) =>
          match atom_int a with
          | Some n => Ok (VData (DTuple (repeat_tuple (Z.to_nat n) l)))
          | None => Raise TypeError
          end
      | _, _ => Raise TypeError
      end
  end.

(** [abs(v)] *)
Definition py_abs (v : value obj) : result (value obj) :=
  match value_num v with
  | Some a => Ok (VData (of_num (num_abs a)))
  | None => Raise TypeError
  end.

(** [hasattr(v, 'copy')] with the bound method: no built-in scalar or
    tuple has a [copy] method. *)
Definition copy_method (v : value obj) : option (result (value obj)) :=
  match v with
  | VData _ => None
  | VObj o => obj_copy reg o
  end.

(** [hasattr(v, 'distance')] with the bound method. *)
Definition distance_method (v : value obj) : option (value obj -> result (value obj)) :=
  match v with
  | VData _ => None
  | VObj o => obj_distance reg o
  end.

End Values.

(** ** Gene classes and their declared attributes *)

Inductive attribute :=
| FloatAttribute (name : string)
| BoolAttribute (name : string)
| FuncAttribute (name : string) (options : string).

Definition name (a : attribute) : string :=
  match a with
  | FloatAttribute n | BoolAttribute n | FuncAttribute n _ => n
  end.

Inductive gene_class := DefaultNodeGene | DefaultConnectionGene.

Definition _gene_attributes (cls : gene_class) : list attribute :=
  match cls with
  | DefaultNodeGene =>
      [FloatAttribute "bias";
       FloatAttribute "response";
       FuncAttribute "activation" "sigmoid";
       FuncAttribute "aggregation" "sum"]
  | DefaultConnectionGene =>
      [FloatAttribute "weight";
       BoolAttribute "enabled"]
  end.

(** ** Gene instances, the heap and the random source *)

(** A gene instance: its class, its [key] and the attribute values set so
    far (the rest of the instance dictionary). *)
Record gene (obj : Type) := Gene {
  __class__ : gene_class;
  key : data;
  attrs : gmap string (value obj);
}.
Arguments Gene {obj}.
Arguments __class__ {obj}.
Arguments key {obj}.
Arguments attrs {obj}.

(** References to gene instances. *)
Definition ref := nat.

(** [random()] reads the next draw of a stream. *)
Definition rng := nat -> spec_float.

Record state (obj : Type) := State {
  heap : gmap ref (gene obj);
  draws : rng;
}.
Arguments State {obj}.
Arguments heap {obj}.
Arguments draws {obj}.

(** Computations that read and update the state and may raise; what
    was written before an exception stays written. *)
Definition M (obj A : Type) : Type := state obj -> result A * state obj.

Section Monad.
Context {obj : Type}.

Definition ret {A} (a : A) : M obj A := fun st => (Ok a, st).

Definition raise {A} (e : exn) : M obj A := fun st => (Raise e, st).

Definition bind {A B} (m : M obj A) (k : A -> M obj B) : M obj B :=
  fun st =>
    match m st with
    | (Ok a, st') => k a st'
    | (Raise e, st') => (Raise e, st')
    end.

Definition lift {A} (r : result A) : M obj A := fun st => (r, st).

End Monad.

Declare Scope monad_scope.
Delimit Scope monad_scope with M.
Notation "x <- m ;; k" := (bind m (fun x => k))
  (at level 100, m at next level, right associativity) : monad_scope.
Notation "m ;;; k" := (bind m (fun _ => k))
  (at level 100, right associativity) : monad_scope.

Section Heap.
Context {obj : Type}.

(** [for a in l: body] *)
Definition for_each {A} (body : A -> M obj unit) : list A -> M obj unit :=
  fix go l :=
    match l with
    | [] => ret tt
    | a :: l' => (body a;;; go l')%M
    end.

(** The object a reference names.  Every reference a Python program
    holds names a live object, so the exception of the last case is
    never seen from Python. *)
Definition deref (r : ref) : M obj (gene obj) :=
  fun st =>
    match heap st !! r with
    | Some g => (Ok g, st)
    | None => (Raise AttributeError, st)
    end.

Definition store (r : ref) (g : gene obj) : M obj unit :=
  fun st => (Ok tt, State (<[r := g]> (heap st)) (draws st)).

(** A new instance at an unused address. *)
Definition alloc (g : gene obj) : M obj ref :=
  fun st =>
    let r := fresh (dom (heap st)) in
    (Ok r, State (<[r := g]> (heap st)) (draws st)).

(** [getattr(r, n)] for a declared attribute name. *)
Definition getattr (r : ref) (n : string) : M obj (value obj) :=
  (g <- deref r;;
   match attrs g !! n with
   | Some v => ret v
   | None => raise AttributeError
   end)%M.

(** [setattr(r, n, v)] *)
Definition setattr (r : ref) (n : string) (v : value obj) : M obj unit :=
  (g <- deref r;;
   store r (Gene (__class__ g) (key g) (<[n := v]> (attrs g))))%M.

(** [r.key] *)
Definition get_key (r : ref) : M obj data :=
  (g <- deref r;; ret (key g))%M.

(** [random()] *)
Definition random : M obj spec_float :=
  fun st => (Ok (draws st 0%nat), State (heap st) (fun n => draws st (S n))).

End Heap.

(** ** The methods of genes.py *)

Section Genes.
Context {obj : Type} (reg : registry obj).

(** The configuration object: this module reads one field of it. *)
Context {config : Type} (compatibility_weight_coefficient : config -> spec_float).

(** [a.init_value(config)] and [a.mutate_value(v, config)] belong to
    neat/attributes.py.  They are handed a value and the configuration,
    never a gene, and may draw random numbers. *)
Context (init_value : attribute -> config -> rng -> result (value obj) * rng).
Context (mutate_value : attribute -> value obj -> config -> rng -> result (value obj) * rng).

Definition with_rng {A} (f : rng -> result A * rng) : M obj A :=
  fun st => let (r, d) := f (draws st) in (r, State (heap st) d).

(** [BaseGene.__init__]: a new instance holding only its key. *)
Definition BaseGene_init (cls : gene_class) (k : data) : M obj ref :=
  alloc (Gene cls k ∅).

Definition DefaultNodeGene_init (k : data) : M obj ref :=
  if isinstance k Int then BaseGene_init DefaultNodeGene k
  else raise AssertionError.

Definition DefaultConnectionGene_init (k : data) : M obj ref :=
  if isinstance k Tuple then BaseGene_init DefaultConnectionGene k
  else raise AssertionError.

(** [cls(k)] *)
Definition construct (cls : gene_class) (k : data) : M obj ref :=
  match cls with
  | DefaultNodeGene => DefaultNodeGene_init k
  | DefaultConnectionGene => DefaultConnectionGene_init k
  end.

(** [BaseGene.__lt__] *)
Definition BaseGene_lt (self other : ref) : M obj bool :=
  (k1 <- get_key self;;
   k2 <- get_key other;;
   if isinstance k1 (type_of k2) then lift (data_lt k1 k2)
   else raise AssertionError)%M.

(** [BaseGene.init_attributes] *)
Definition init_attributes (self : ref) (cfg : config) : M obj unit :=
  (g <- deref self;;
   for_each (fun a =>
     v <- with_rng (init_value a cfg);;
     setattr self (name a) v) (_gene_attributes (__class__ g)))%M.

(** [BaseGene.mutate] *)
Definition mutate (self : ref) (cfg : config) : M obj unit :=
  (g <- deref self;;
   for_each (fun a =>
     v <- getattr self (name a);;
     v' <- with_rng (mutate_value a v cfg);;
     setattr self (name a) v') (_gene_attributes (__class__ g)))%M.

(** The value stored by [copy] and [crossover]: [value.copy()] when the
    value has a [copy] method, the value itself otherwise. *)
Definition clone (v : value obj) : M obj (value obj) :=
  match copy_method reg v with
  | Some r => lift r
  | None => ret v
  end.

(** The body of the loop of [copy]. *)
Definition copy_attribute (self new_gene : ref) (a : attribute) : M obj unit :=
  (v <- getattr self (name a);;
   v' <- clone v;;
   setattr new_gene (name a) v')%M.

(** [BaseGene.copy] *)
Definition copy (self : ref) : M obj ref :=
  (g <- deref self;;
   new_gene <- construct (__class__ g) (key g);;
   for_each (copy_attribute self new_gene) (_gene_attributes (__class__ g));;;
   ret new_gene)%M.

(** The body of the loop of [crossover]: one draw per attribute. *)
Definition inherit (self gene2 new_gene : ref) (a : attribute) : M obj unit :=
  (r <- random;;
   if Float.ltb Float.half r then
     v <- getattr self (name a);;
     v' <- clone v;;
     setattr new_gene (name a) v'
   else
     gene2_attr <- getattr gene2 (name a);;
     v' <- clone gene2_attr;;
     setattr new_gene (name a) v')%M.

(** [BaseGene.crossover] *)
Definition crossover (self gene2 : ref) : M obj ref :=
  (k1 <- get_key self;;
   k2 <- get_key gene2;;
   if data_eq k1 k2 then
     g <- deref self;;
     new_gene <- construct (__class__ g) (key g);;
     for_each (inherit self gene2 new_gene) (_gene_attributes (__class__ g));;;
     ret new_gene
   else raise AssertionError)%M.

(** One of the two function penalties of [DefaultNodeGene.distance]:
    [d] plus the value's own distance when it defines one, else [d]
    plus 1.0 when the two values differ. *)
Definition func_penalty (self other : ref) (n : string) (d : value obj)
    : M obj (value obj) :=
  (f <- getattr self n;;
   match distance_method reg f with
   | Some dist =>
       f' <- getattr other n;;
       p <- lift (dist f');;
       lift (py_add d p)
   | None =>
       f' <- getattr other n;;
       if py_ne reg f f' then lift (py_add d (VFloat Float.one))
       else ret d
   end)%M.

(** [DefaultNodeGene.distance] *)
Definition DefaultNodeGene_distance (self other : ref) (cfg : config)
    : M obj (value obj) :=
  (b <- getattr self "bias";;
   b' <- getattr other "bias";;
   db <- lift (x <- py_sub b b';; py_abs x)%res;;
   r <- getattr self "response";;
   r' <- getattr other "response";;
   dr <- lift (x <- py_sub r r';; py_abs x)%res;;
   d <- lift (py_add db dr);;
   d <- func_penalty self other "activation" d;;
   d <- func_penalty self other "aggregation" d;;
   lift (py_mul d (VFloat (compatibility_weight_coefficient cfg))))%M.

(** [DefaultConnectionGene.distance] *)
Definition DefaultConnectionGene_distance (self other : ref) (cfg : config)
    : M obj (value obj) :=
  (w <- getattr self "weight";;
   w' <- getattr other "weight";;
   d <- lift (x <- py_sub w w';; py_abs x)%res;;
   e <- getattr self "enabled";;
   e' <- getattr other "enabled";;
   d <- (if py_ne reg e e' then lift (py_add d (VFloat Float.one)) else ret d);;
   lift (py_mul d (VFloat (compatibility_weight_coefficient cfg))))%M.

(** [self.distance(other, config)], dispatched on the class of [self]. *)
Definition distance (self other : ref) (cfg : config) : M obj (value obj) :=
  (g <- deref self;;
   match __class__ g with
   | DefaultNodeGene => DefaultNodeGene_distance self other cfg
   | DefaultConnectionGene => DefaultConnectionGene_distance self other cfg
   end)%M.

End Genes.

(** ** The remaining methods of [BaseGene] *)

(** [cls.__name__] *)
Definition __name__ (cls : gene_class) : string :=
  match cls with
  | DefaultNodeGene => "DefaultNodeGene"
  | DefaultConnectionGene => "DefaultConnectionGene"
  end.

(** [sep.join(l)] *)
Fixpoint join (sep : string) (l : list string) : string :=
  match l with
  | [] => EmptyString
  | [s] => s
  | s :: l' => String.append s (String.append sep (join sep l'))
  end.

Section Reporting.
Context {obj : Type}.

(** Python's built-in [repr], taken to return a text for every value. *)
Context (repr : value obj -> string).

(** The list comprehension [[f(a) for a in l]]. *)
Definition collect {A B} (f : A -> M obj B) : list A -> M obj (list B) :=
  fix go l :=
    match l with
    | [] => ret []
    | a :: l' => (b <- f a;; bs <- go l';; ret (b :: bs))%M
    end.

(** [getattr(r, n)] when [n] may also be ['key']. *)
Definition getattr_or_key (r : ref) (n : string) : M obj (value obj) :=
  if String.eqb n "key" then (k <- get_key r;; ret (VData k))%M
  else getattr r n.

(** [BaseGene.__str__] *)
Definition BaseGene_str (self : ref) : M obj string :=
  (g <- deref self;;
   let attrib := "key" :: (name <$> _gene_attributes (__class__ g)) in
   attrib <- collect (fun a =>
               v <- getattr_or_key self a;;
               ret (String.append a (String.append "=" (repr v)))) attrib;;
   ret (String.append (__name__ (__class__ g))
          (String.append "(" (String.append (join ", " attrib) ")"))))%M.

(** [BaseGene.__copy__] *)
Definition BaseGene_copy__ (reg : registry obj) (self : ref) : M obj ref :=
  copy reg self.

End Reporting.

(** A gene class as [get_config_params] sees it: its name and the two
    class attributes the method looks for, [_gene_attributes] and the
    older [__gene_attributes__], each present or not. *)
Record class_object := Class {
  class_name : string;
  class_gene_attributes : option (list attribute);
  class_legacy_gene_attributes : option (list attribute);
}.

(** The [DeprecationWarning] issued for a class. *)
Inductive warning := DeprecationWarning (cls : string).

(** The two classes of the module. *)
Definition class_of (cls : gene_class) : class_object :=
  Class (__name__ cls) (Some (_gene_attributes cls)) None.

Section ClassMethods.

(** [a.get_config_params()] belongs to neat/attributes.py. *)
Context {param : Type} (attribute_params : attribute -> list param).

(** [BaseGene.get_config_params]: the result, the class, which the call
    may have given a [_gene_attributes], and the calls of [warnings.warn]
    so far (the warnings filter is taken not to turn a warning into an
    exception). *)
Definition get_config_params (cls : class_object) (issued : list warning)
    : result (list param) * class_object * list warning :=
  match class_gene_attributes cls with
  | Some l => (Ok (flat_map attribute_params l), cls, issued)
  | None =>
      match class_legacy_gene_attributes cls with
      | None => (Raise AttributeError, cls, issued)
      | Some l =>
          (Ok (flat_map attribute_params l),
           Class (class_name cls) (Some l) (class_legacy_gene_attributes cls),
           issued ++ [DeprecationWarning (class_name cls)])
      end
  end.

End ClassMethods.

(** ** Registry objects with identity

    In the methods above a registry object is a value like any other: a
    gene that stores [value] and a gene that stores [value.copy()] hold
    equal terms, and nothing changes an object in place.  What a copy
    shares with its source depends on exactly that difference, so [copy]
    and [mutate] are embedded once more, over a heap of objects: an
    attribute value is built-in data or the address of an object; whether
    an object defines [copy], what its [copy] does and what
    [a.mutate_value] does to the objects it is handed belong to the
    registry and to neat/attributes.py, and are parameters. *)

(** The address of a registry object. *)
Definition oref := nat.

(** The genes with the random source, and the objects. *)
Record world (object : Type) := World {
  genes : state oref;
  objects : gmap oref object;
}.
Arguments World {object}.
Arguments genes {object}.
Arguments objects {object}.

(** Computations on the two heaps that may raise. *)
Definition W (object A : Type) : Type := world object -> result A * world object.

Section WorldMonad.
Context {object : Type}.

Definition wret {A} (a : A) : W object A := fun w => (Ok a, w).

Definition wraise {A} (e : exn) : W object A := fun w => (Raise e, w).

Definition wbind {A B} (m : W object A) (k : A -> W object B) : W object B :=
  fun w =>
    match m w with
    | (Ok a, w') => k a w'
    | (Raise e, w') => (Raise e, w')
    end.

(** A computation on genes: it leaves the objects as they are. *)
Definition on_genes {A} (m : M oref A) : W object A :=
  fun w => let (r, st) := m (genes w) in (r, World st (objects w)).

(** [for a in l: body] *)
Definition wfor_each {A} (body : A -> W object unit) : list A -> W object unit :=
  fix go l :=
    match l with
    | [] => wret tt
    | a :: l' => wbind (body a) (fun _ => go l')
    end.

End WorldMonad.

Declare Scope world_scope.
Delimit Scope world_scope with W.
Notation "x <- m ;; k" := (wbind m (fun x => k))
  (at level 100, m at next level, right associativity) : world_scope.
Notation "m ;;; k" := (wbind m (fun _ => k))
  (at level 100, right associativity) : world_scope.

Module Shared.

Section Genes.
Context {object config : Type}.

(** Whether the class of an object defines a [copy] method. *)
Context (defines_copy : object -> bool).

(** [o.copy()], code of the registry: it is handed the objects, never a
    gene. *)
Context (value_copy : oref -> gmap oref object -> result (value oref) * gmap oref object).

(** [a.mutate_value(v, config)], code of neat/attributes.py: it may draw
    random numbers and may change objects in place; it is never handed
    a gene. *)
Context (mutate_value : attribute -> value oref -> config -> rng -> gmap oref object
                        -> result (value oref) * rng * gmap oref object).

(** [hasattr(v, 'copy')]: no built-in scalar or tuple has a [copy]
    method.  A reference a Python program holds names a live object, so
    the exception of the last case is never seen from Python. *)
Definition hasattr_copy (v : value oref) : W object bool :=
  match v with
  | VData _ => wret false
  | VObj o =>
      fun w =>
        match objects w !! o with
        | Some ob => (Ok (defines_copy ob), w)
        | None => (Raise AttributeError, w)
        end
  end.

(** [v.copy()] *)
Definition call_copy (v : value oref) : W object (value oref) :=
  match v with
  | VObj o =>
      fun w => let (r, os) := value_copy o (objects w) in (r, World (genes w) os)
  | VData _ => wraise AttributeError
  end.

(** The body of the loop of [copy]. *)
Definition copy_attribute (self new_gene : ref) (a : attribute) : W object unit :=
  (value <- on_genes (getattr self (name a));;
   has_copy <- hasattr_copy value;;
   if has_copy then
     v' <- call_copy value;;
     on_genes (setattr new_gene (name a) v')
   else
     on_genes (setattr new_gene (name a) value))%W.

(** [BaseGene.copy] *)
Definition copy (self : ref) : W object ref :=
  (g <- on_genes (deref self);;
   new_gene <- on_genes (construct (__class__ g) (key g));;
   wfor_each (copy_attribute self new_gene) (_gene_attributes (__class__ g));;;
   wret new_gene)%W.

(** [a.mutate_value(v, config)] on the random source and the objects. *)
Definition call_mutate_value (a : attribute) (v : value oref) (cfg : config)
    : W object (value oref) :=
  fun w =>
    let '(r, d, os) := mutate_value a v cfg (draws (genes w)) (objects w) in
    (r, World (State (heap (genes w)) d) os).

(** [BaseGene.mutate] *)
Definition mutate (self : ref) (cfg : config) : W object unit :=
  (g <- on_genes (deref self);;
   wfor_each (fun a =>
     v <- on_genes (getattr self (name a));;
     v' <- call_mutate_value a v cfg;;
     on_genes (setattr self (name a) v')) (_gene_attributes (__class__ g)))%W.

End Genes.

End Shared.

(** * The vocabulary of the properties *)

(** ** Keys and attribute sets *)

(** The type each class requires of its key. *)
Definition key_type (cls : gene_class) : pytype :=
  match cls with
  | DefaultNodeGene => Int
  | DefaultConnectionGene => Tuple
  end.

(** A tuple of exactly two ints. *)
Definition is_int_pair (k : data) : bool :=
  match k with
  | DTuple [a; b] => isinstance (DAtom a) Int && isinstance (DAtom b) Int
  | _ => false
  end.

(** Whether the value set for the attribute named [n] satisfies [P]. *)
Definition attr_is {obj} (P : value obj -> bool) (g : gene obj) (n : string) : bool :=
  match attrs g !! n with
  | Some v => P v
  | None => false
  end.

(** Every declared attribute of the gene has a value. *)
Definition attributes_set {obj} (g : gene obj) : bool :=
  forallb (fun a => attr_is (fun _ => true) g (name a)) (_gene_attributes (__class__ g)).

(** A value of the kind an attribute declares: a number for a
    [FloatAttribute], a [bool] for a [BoolAttribute], a name or a registry
    object for a [FuncAttribute]. *)
Definition has_kind {obj} (a : attribute) (v : value obj) : bool :=
  match a, v with
  | FloatAttribute _, VData (DFloat _) => true
  | FloatAttribute _, VData (DAtom (AInt _)) => true
  | BoolAttribute _, VData (DAtom (ABool _)) => true
  | FuncAttribute _ _, VData (DAtom (AStr _)) => true
  | FuncAttribute _ _, VObj _ => true
  | _, _ => false
  end.

(** Every declared attribute has a value of its declared kind. *)
Definition attributes_well_set {obj} (g : gene obj) : bool :=
  forallb (fun a => attr_is (has_kind a) g (name a)) (_gene_attributes (__class__ g)).

Section Vocabulary.
Context {obj : Type} (reg : registry obj).
Implicit Types (st : state obj) (g : gene obj) (v w d : value obj).

(** ** Distances

    With every attribute read from the heap, the two [distance] methods
    are computations on the values alone: [node_distance_on] and
    [connection_distance_on] follow the code, [node_distance_formula] and
    [connection_distance_formula] follow the specification. *)

(** A non-negative number that is not [-0.0]: what [abs] returns, and
    what sums of such numbers are. *)
Definition nonneg v : Prop :=
  match value_num v with
  | Some (NInt z) => 0 <= z
  | Some (NFloat f) => Float.unsigned f
  | None => False
  end.

(** [abs(v - w)] *)
Definition abs_diff v w : result (value obj) :=
  (x <- py_sub v w;; py_abs x)%res.

(** [d += 1.0] under a condition. *)
Definition add_one_if (b : bool) d : result (value obj) :=
  if b then py_add d (VFloat Float.one) else Ok d.

(** [func_penalty] on the two values [f] and [f'] of the attribute. *)
Definition func_penalty_on f f' d : result (value obj) :=
  match distance_method reg f with
  | Some dist => (p <- dist f';; py_add d p)%res
  | None => add_one_if (py_ne reg f f') d
  end.

(** [DefaultNodeGene.distance] on biases [b], [b'], responses [r], [r'],
    activations [f], [f'], aggregations [a], [a'] and coefficient [c]. *)
Definition node_distance_on b b' r r' f f' a a' (c : spec_float) : result (value obj) :=
  (db <- abs_diff b b';;
   dr <- abs_diff r r';;
   d <- py_add db dr;;
   d <- func_penalty_on f f' d;;
   d <- func_penalty_on a a' d;;
   py_mul d (VFloat c))%res.

(** [DefaultConnectionGene.distance] on weights [w], [w'], enabled flags
    [e], [e'] and coefficient [c]. *)
Definition connection_distance_on w w' e e' (c : spec_float) : result (value obj) :=
  (d <- abs_diff w w';;
   d <- add_one_if (py_ne reg e e') d;;
   py_mul d (VFloat c))%res.

(** [1.0 if b else 0.0] *)
Definition indicator (b : bool) : value obj :=
  VFloat (if b then Float.one else Float.zero).

(** The penalty of a function attribute: the value's own distance, or
    1.0-if-different when it defines none. *)
Definition penalty f f' : result (value obj) :=
  match distance_method reg f with
  | Some dist => dist f'
  | None => Ok (indicator (py_ne reg f f'))
  end.

(** [(|w - w'| + (1.0 if e != e' else 0.0)) * c] *)
Definition connection_distance_formula w w' e e' (c : spec_float) : result (value obj) :=
  (d <- abs_diff w w';;
   s <- py_add d (indicator (py_ne reg e e'));;
   py_mul s (VFloat c))%res.

(** [(|b - b'| + |r - r'| + penalty(f, f') + penalty(a, a')) * c] *)
Definition node_distance_formula b b' r r' f f' a a' (c : spec_float) : result (value obj) :=
  (db <- abs_diff b b';;
   dr <- abs_diff r r';;
   d <- py_add db dr;;
   p <- penalty f f';;
   d <- py_add d p;;
   q <- penalty a a';;
   d <- py_add d q;;
   py_mul d (VFloat c))%res.

(** What the module expects of a [distance] method of a registry object:
    it returns a float that is not negative (and not [-0.0]). *)
Definition distances_are_floats : Prop :=
  forall o dist v,
    obj_distance reg o = Some dist ->
    exists p, dist v = Ok (VFloat p) /\ Float.unsigned p.

(** A continuation that cannot tell a number from its sum with [0.0]. *)
Definition absorbs_zero (k : value obj -> result (value obj)) : Prop :=
  forall v, nonneg v -> rbind (py_add v (VFloat Float.zero)) k = k v.

(** An int, or a float that is neither infinite nor a NaN. *)
Definition finite_number v : bool :=
  match value_num v with
  | Some (NInt _) => true
  | Some (NFloat f) => Float.is_finite f
  | None => false
  end.

(** The int 0 or a float zero. *)
Definition zero_number v : bool :=
  match value_num v with
  | Some (NInt z) => z =? 0
  | Some (NFloat f) => Float.is_zero f
  | None => false
  end.

(** A function value at penalty zero from itself: its own distance to
    itself is zero or, when it defines none, it equals itself. *)
Definition zero_from_itself v : bool :=
  match distance_method reg v with
  | Some dist =>
      match dist v with
      | Ok p => zero_number p
      | Raise _ => false
      end
  | None => py_eq reg v v
  end.

(** A gene whose numbers are finite and whose other values are at
    penalty zero from themselves. *)
Definition finite_valued g : bool :=
  match __class__ g with
  | DefaultNodeGene =>
      attr_is finite_number g "bias" && attr_is finite_number g "response"
      && attr_is zero_from_itself g "activation"
      && attr_is zero_from_itself g "aggregation"
  | DefaultConnectionGene =>
      attr_is finite_number g "weight" && attr_is (fun e => py_eq reg e e) g "enabled"
  end.

(** Two function values that settle their penalty the same way in both
    orders: neither defines a [distance] method, so that [!=] decides in
    both orders, or both define one and the two methods give the same
    answer on the pair.  With a method on one side only, one order asks
    the method and the other asks [!=]. *)
Definition penalised_alike v w : Prop :=
  match distance_method reg v, distance_method reg w with
  | Some dist, Some dist' => dist w = dist' v
  | None, None => True
  | _, _ => False
  end.

(** The values two genes hold for the attribute [n] are penalised alike. *)
Definition alike_at g g' (n : string) : Prop :=
  match attrs g !! n, attrs g' !! n with
  | Some f, Some f' => penalised_alike f f'
  | _, _ => True
  end.

(** Two genes whose function values are penalised alike; a connection
    gene has no function value. *)
Definition functions_penalised_alike g g' : Prop :=
  match __class__ g with
  | DefaultNodeGene => alike_at g g' "activation" /\ alike_at g g' "aggregation"
  | DefaultConnectionGene => True
  end.

(** ** Heap effects *)

(** A computation that writes to the object at [n] and to nothing else. *)
Definition writes_only {A} (n : ref) (m : M obj A) : Prop :=
  forall st res st' gn,
    heap st !! n = Some gn -> m st = (res, st') ->
    exists gn', heap st' = <[n := gn']> (heap st).

(** What the module expects of a [copy] method of a registry object: it
    returns a clone, a value equal to its receiver. *)
Definition copies_are_clones : Prop :=
  forall o c, obj_copy reg o = Some c -> c = Ok (VObj o).

(** The key passes the check of the constructor of the gene's class. *)
Definition well_keyed g : bool := isinstance (key g) (key_type (__class__ g)).

(** The names of a list of attributes. *)
Definition names (l : list attribute) : list string := name <$> l.

End Vocabulary.

(** ** Attribute sets, keys and external methods that return *)

(** The set of the names a class declares. *)
Definition declared_names (cls : gene_class) : gset string :=
  list_to_set (name <$> _gene_attributes cls).

(** A gene holding a value for each declared attribute and for nothing
    else. *)
Definition exactly_declared {obj} (g : gene obj) : Prop :=
  dom (attrs g) = declared_names (__class__ g).

(** A key that is an int, or a tuple of ints. *)
Definition plain_key (k : data) : bool :=
  match k with
  | DAtom (AInt _) => true
  | DTuple l => forallb (fun a => match a with AInt _ => true | _ => false end) l
  | _ => false
  end.

(** [init_value] and [mutate_value] that return a value, whatever they
    are given. *)
Definition init_returns {obj config : Type}
    (init_value : attribute -> config -> rng -> result (value obj) * rng) : Prop :=
  forall a cfg d, exists v d', init_value a cfg d = (Ok v, d').

Definition mutate_returns {obj config : Type}
    (mutate_value : attribute -> value obj -> config -> rng -> result (value obj) * rng)
    : Prop :=
  forall a v cfg d, exists v' d', mutate_value a v cfg d = (Ok v', d').

(** A [mutate_value] that hands back the value it was given. *)
Definition mutate_keeps {obj config : Type}
    (mutate_value : attribute -> value obj -> config -> rng -> result (value obj) * rng)
    : Prop :=
  forall a v cfg d, exists d', mutate_value a v cfg d = (Ok v, d').

(** A computation that leaves the state as it found it. *)
Definition read_only {obj A} (m : M obj A) : Prop :=
  forall st, snd (m st) = st.

(** A float that is not below zero: [x < 0.0] is false. *)
Definition not_negative (x : spec_float) : bool := negb (Float.ltb x Float.zero).

(** What [getattr(r, n)] finds in a state: the value, or the
    [AttributeError] of a name that is not set. *)
Definition attribute_value {obj} (st : state obj) (r : ref) (n : string)
    : result (value obj) :=
  match heap st !! r with
  | Some g =>
      match attrs g !! n with
      | Some v => Ok v
      | None => Raise AttributeError
      end
  | None => Raise AttributeError
  end.

(** ** Objects shared between genes *)

Section Sharing.
Context {object config : Type}.
Context (defines_copy : object -> bool).
Context (value_copy : oref -> gmap oref object -> result (value oref) * gmap oref object).
Context (mutate_value : attribute -> value oref -> config -> rng -> gmap oref object
                        -> result (value oref) * rng * gmap oref object).

(** What [copy] expects of a [copy] method: it returns a new object, at
    an address not in use, with the state of the receiver, and leaves
    every other object as it is. *)
Definition copies_are_new_objects : Prop :=
  forall o ob os,
    os !! o = Some ob -> defines_copy ob = true ->
    exists o', value_copy o os = (Ok (VObj o'), <[o' := ob]> os) /\ os !! o' = None.

(** What is expected of [mutate_value]: of the objects there are it
    changes none but the one it is handed, and it returns built-in data,
    the object it was handed or a new object. *)
Definition mutates_its_value_only : Prop :=
  forall a v cfg d os r d' os',
    mutate_value a v cfg d os = (r, d', os') ->
    (forall o ob, os !! o = Some ob -> v <> VObj o -> os' !! o = Some ob)
    /\ forall o', r = Ok (VObj o') -> v = VObj o' \/ os !! o' = None.

(** A value [copy] does not share: built-in data, which nothing changes
    in place, or a live object that defines [copy]. *)
Definition copyable (os : gmap oref object) (v : value oref) : bool :=
  match v with
  | VData _ => true
  | VObj o =>
      match os !! o with
      | Some ob => defines_copy ob
      | None => false
      end
  end.

(** Every declared attribute of the gene has such a value. *)
Definition attributes_copyable (g : gene oref) (os : gmap oref object) : bool :=
  forallb (fun a => attr_is (copyable os) g (name a)) (_gene_attributes (__class__ g)).

(** Every declared attribute has a value of its kind, and the objects
    among the values are live. *)
Definition attributes_live (g : gene oref) (os : gmap oref object) : bool :=
  attributes_well_set g
  && forallb (fun a => attr_is (fun v => match v with
                                         | VData _ => true
                                         | VObj o => bool_decide (is_Some (os !! o))
                                         end) g (name a))
       (_gene_attributes (__class__ g)).

(** [v'] is an equal value that shares nothing with [v]: the same
    built-in data, or an object that was not among the objects [os] and
    now has the state the object [v] had. *)
Definition clone_of (os os' : gmap oref object) (v v' : value oref) : Prop :=
  match v with
  | VData _ => v' = v
  | VObj o =>
      exists o' ob,
        v' = VObj o' /\ os !! o = Some ob /\ os !! o' = None /\ os' !! o' = Some ob
  end.

(** What a gene shows of an attribute: the value and, for an object, the
    state of the object. *)
Definition attribute_state (w : world object) (r : ref) (n : string)
    : option (value oref * option object) :=
  match heap (genes w) !! r with
  | Some g =>
      match attrs g !! n with
      | Some (VObj o) => Some (VObj o, objects w !! o)
      | Some v => Some (v, None)
      | None => None
      end
  | None => None
  end.

End Sharing.

(** ** Example registries and genes *)

(** A registry without objects: every attribute value is built-in data. *)
Definition no_objects : registry Empty_set :=
  {| obj_eq := fun _ _ => true;
     obj_copy := fun _ => None;
     obj_distance := fun _ => None |}.

(** No gene allocated yet. *)
Definition empty_state : state Empty_set := State ∅ (fun _ => Float.zero).

(** An initialised node gene. *)
Definition node_gene {obj} (k : data) (bias response : spec_float)
    (activation aggregation : value obj) : gene obj :=
  Gene DefaultNodeGene k
    (<["bias" := VFloat bias]> (<["response" := VFloat response]>
      (<["activation" := activation]> (<["aggregation" := aggregation]> ∅)))).

(** An initialised connection gene. *)
Definition connection_gene {obj} (k : data) (weight : spec_float) (enabled : bool)
    : gene obj :=
  Gene DefaultConnectionGene k
    (<["weight" := VFloat weight]> (<["enabled" := VBool enabled]> ∅)).

(** A heap holding [g] at address 0 and [g'] at address 1. *)
Definition two_genes {obj} (g g' : gene obj) (d : rng) : state obj :=
  State (<[0%nat := g]> (<[1%nat := g']> ∅)) d.

(** The keys [(a, b)] and [a]. *)
Definition pair_key (a b : Z) : data := DTuple [AInt a; AInt b].
Definition int_key (a : Z) : data := DAtom (AInt a).

(** Functions with one tunable parameter.  Such an object copies itself,
    is at distance [|p - q|] from the same function with another parameter
    and at distance 1.0 from anything else. *)
Record tuned := Tuned {
  tuned_name : string;
  tuned_param : spec_float;
}.

Definition tuned_distance (o : tuned) (v : value tuned) : result (value tuned) :=
  match v with
  | VObj p =>
      if String.eqb (tuned_name o) (tuned_name p)
      then Ok (VFloat (Float.abs (Float.sub (tuned_param o) (tuned_param p))))
      else Ok (VFloat Float.one)
  | VData _ => Ok (VFloat Float.one)
  end.

Definition tuned_functions : registry tuned :=
  {| obj_eq := fun o p =>
       String.eqb (tuned_name o) (tuned_name p)
       && Float.eqb (tuned_param o) (tuned_param p);
     obj_copy := fun o => Some (Ok (VObj o));
     obj_distance := fun o => Some (tuned_distance o) |}.

(** The functions above when each also knows its plain name: such an
    object is at distance 0.5 from the name of its function. *)
Definition named_distance (o : tuned) (v : value tuned) : result (value tuned) :=
  match v with
  | VData (DAtom (AStr s)) =>
      if String.eqb s (tuned_name o) then Ok (VFloat Float.half) else Ok (VFloat Float.one)
  | _ => tuned_distance o v
  end.

Definition named_functions : registry tuned :=
  {| obj_eq := obj_eq tuned_functions;
     obj_copy := obj_copy tuned_functions;
     obj_distance := fun o => Some (named_distance o) |}.

(** Objects without methods of their own, under an [==] that answers by
    its left operand alone. *)
Definition one_sided_eq : registry bool :=
  {| obj_eq := fun o _ => o;
     obj_copy := fun _ => None;
     obj_distance := fun _ => None |}.

(** A heap holding [g] at address 0. *)
Definition one_gene {obj} (g : gene obj) (d : rng) : state obj :=
  State (<[0%nat := g]> ∅) d.

(** A gene as its constructor leaves it. *)
Definition uninitialised {obj} (cls : gene_class) (k : data) : gene obj :=
  Gene cls k ∅.

(** An [init_value] that draws the value of a [FloatAttribute] and
    takes [True] and the declared option for the other two kinds. *)
Definition sample_init (a : attribute) (cfg : unit) (d : rng)
    : result (value Empty_set) * rng :=
  match a with
  | FloatAttribute _ => (Ok (VFloat (d 0%nat)), fun i => d (S i))
  | BoolAttribute _ => (Ok (VBool true), d)
  | FuncAttribute _ o => (Ok (VStr o), d)
  end.

(** A [mutate_value] that adds a draw to a float and keeps any other
    value. *)
Definition sample_mutate (a : attribute) (v : value Empty_set) (cfg : unit) (d : rng)
    : result (value Empty_set) * rng :=
  match v with
  | VData (DFloat x) => (Ok (VFloat (Float.add x (d 0%nat))), fun i => d (S i))
  | _ => (Ok v, d)
  end.

(** A [mutate_value] with every rate at zero. *)
Definition no_mutation (a : attribute) (v : value Empty_set) (cfg : unit) (d : rng)
    : result (value Empty_set) * rng :=
  (Ok v, d).

(** A [repr] that tells the kinds of values apart and no more. *)
Definition sample_repr (v : value Empty_set) : string :=
  match v with
  | VData (DAtom _) => "atom"
  | VData (DFloat _) => "float"
  | VData (DTuple _) => "tuple"
  | VObj _ => "object"
  end.

(** An [init_value] that fails on the attribute [response]. *)
Definition failing_init (a : attribute) (cfg : unit) (d : rng)
    : result (value Empty_set) * rng :=
  if String.eqb (name a) "response" then (Raise TypeError, d)
  else sample_init a cfg d.

(** The coefficient 0.5, whatever the configuration. *)
Definition half_coefficient (cfg : unit) : spec_float := Float.half.

(** Function objects with one parameter that is tuned in place.  The
    class of some of them defines [copy]. *)
Record cell := Cell {
  cell_copies : bool;
  cell_param : Z;
}.

(** The [copy] of a cell: a new cell with the same state. *)
Definition cell_copy (o : oref) (os : gmap oref cell) : result (value oref) * gmap oref cell :=
  match os !! o with
  | Some ob => let o' := fresh (dom os) in (Ok (VObj o'), <[o' := ob]> os)
  | None => (Raise AttributeError, os)
  end.

(** A [mutate_value] that adds a draw to a float, adds one to the
    parameter of a cell, in place, and keeps any other value. *)
Definition tune_in_place (a : attribute) (v : value oref) (cfg : unit) (d : rng)
    (os : gmap oref cell) : result (value oref) * rng * gmap oref cell :=
  match v with
  | VData (DFloat x) => (Ok (VFloat (Float.add x (d 0%nat))), fun i => d (S i), os)
  | VData _ => (Ok v, d, os)
  | VObj o =>
      match os !! o with
      | Some ob => (Ok v, d, <[o := Cell (cell_copies ob) (cell_param ob + 1)]> os)
      | None => (Raise AttributeError, d, os)
      end
  end.

(** A node gene whose activation is the object at address 0. *)
Definition cell_gene : gene oref :=
  node_gene (int_key 7) Float.one Float.half (VObj 0%nat) (VStr "sum").

(** That gene at address 0, and the cell its activation is. *)
Definition cell_world (activation : cell) : world cell :=
  World (one_gene cell_gene (fun _ => Float.zero)) (<[0%nat := activation]> ∅).

(** * Properties *)

(** ** Float arithmetic *)

Module FloatFacts.

Lemma round_aux_abs s s' m e l :
  SFabs (binary_round_aux Float.prec Float.emax s m e l)
  = SFabs (binary_round_aux Float.prec Float.emax s' m e l).
Proof.
  unfold binary_round_aux.
  destruct (shr_fexp _ _ m e l) as [mrs e'].
  destruct (shr_fexp _ _ _ e' loc_Exact) as [mrs' e''].
  destruct (shr_m mrs') as [|p|p]; simpl; try reflexivity.
  destruct (e'' <=? _); reflexivity.
Qed.

Lemma round_abs s s' m e :
  SFabs (binary_round Float.prec Float.emax s m e)
  = SFabs (binary_round Float.prec Float.emax s' m e).
Proof.
  unfold binary_round.
  destruct (shl_align m e _) as [mz ez].
  apply round_aux_abs.
Qed.

Lemma normalize_abs_opp m e :
  SFabs (binary_normalize Float.prec Float.emax (- m) e false)
  = SFabs (binary_normalize Float.prec Float.emax m e false).
Proof. destruct m; simpl; auto using round_abs. Qed.

(** [|x - y| = |y - x|], on every pair of floats. *)
Lemma abs_sub_comm x y :
  Float.abs (Float.sub x y) = Float.abs (Float.sub y x).
Proof.
  unfold Float.abs, Float.sub.
  destruct x as [sx|sx| |sx mx ex], y as [sy|sy| |sy my ey];
    try (destruct sx, sy; reflexivity); try reflexivity.
  unfold SFsub. rewrite (Z.min_comm ey ex).
  rewrite <- normalize_abs_opp. f_equal. f_equal. lia.
Qed.

(** [x - x] is [+0.0] for a finite [x]. *)
Lemma sub_diag x :
  Float.is_finite x = true -> Float.sub x x = Float.zero.
Proof.
  destruct x as [[]|s| |s m e]; try discriminate; try reflexivity.
  intros _. unfold Float.sub, SFsub. now rewrite Z.sub_diag.
Qed.

Lemma abs_unsigned f : Float.unsigned (Float.abs f).
Proof. now destruct f. Qed.

Lemma round_aux_unsigned m e l :
  Float.unsigned (binary_round_aux Float.prec Float.emax false m e l).
Proof.
  unfold Float.unsigned, binary_round_aux.
  destruct (shr_fexp _ _ m e l) as [mrs e'].
  destruct (shr_fexp _ _ _ e' loc_Exact) as [mrs' e''].
  destruct (shr_m mrs') as [|p|p]; simpl; try reflexivity.
  destruct (e'' <=? _); reflexivity.
Qed.

Lemma dyadic_unsigned m e : 0 <= m -> Float.unsigned (Float.dyadic m e).
Proof.
  intros Hm. unfold Float.dyadic, binary_normalize.
  destruct m as [|p|p]; [reflexivity| |lia].
  unfold binary_round. destruct (shl_align p e _) as [mz ez].
  apply round_aux_unsigned.
Qed.

Lemma add_unsigned x y : Float.unsigned x -> Float.unsigned y -> Float.unsigned (Float.add x y).
Proof.
  unfold Float.unsigned, Float.abs, Float.add.
  destruct x as [sx|sx| |sx mx ex], y as [sy|sy| |sy my ey];
    simpl; intros Hx Hy; try congruence;
    try (injection Hx as <-); try (injection Hy as <-); try reflexivity.
  apply (dyadic_unsigned _ (Z.min ex ey)). simpl. lia.
Qed.

(** Adding [0.0] changes nothing but the sign of [-0.0]. *)
Lemma add_zero_r x : Float.unsigned x -> Float.add x Float.zero = x.
Proof.
  unfold Float.unsigned. destruct x as [[]|s| |s m e]; simpl; intros H;
    try discriminate; reflexivity.
Qed.

Lemma one_unsigned : Float.unsigned Float.one.
Proof. reflexivity. Qed.

Lemma add_is_zero x y :
  Float.is_zero x = true -> Float.is_zero y = true -> Float.is_zero (Float.add x y) = true.
Proof. destruct x as [[]| | |], y as [[]| | |]; try discriminate; reflexivity. Qed.

Lemma mul_is_zero x c :
  Float.is_zero x = true -> Float.is_finite c = true -> Float.is_zero (Float.mul x c) = true.
Proof. destruct x as [[]| | |], c as [[]| | |]; try discriminate; reflexivity. Qed.

Lemma is_zero_eqb x : Float.is_zero x = true -> Float.eqb x Float.zero = true.
Proof. destruct x; try discriminate; reflexivity. Qed.

End FloatFacts.

(** ** Running the heap operations *)

Section Run.
Context {obj : Type}.
Implicit Types (st : state obj) (g : gene obj) (r : ref).

Lemma bind_ok {A B} (m : M obj A) (k : A -> M obj B) st a st' :
  m st = (Ok a, st') -> bind m k st = k a st'.
Proof. unfold bind. now intros ->. Qed.

Lemma bind_raise {A B} (m : M obj A) (k : A -> M obj B) st e st' :
  m st = (Raise e, st') -> bind m k st = (Raise e, st').
Proof. unfold bind. now intros ->. Qed.

Lemma deref_ok r g st :
  heap st !! r = Some g -> deref r st = (Ok g, st).
Proof. unfold deref. now intros ->. Qed.

Lemma get_key_ok r g st :
  heap st !! r = Some g -> get_key r st = (Ok (key g), st).
Proof. intros H. unfold get_key. now rewrite (bind_ok _ _ _ _ _ (deref_ok _ _ _ H)). Qed.

Lemma getattr_ok r g n v st :
  heap st !! r = Some g -> attrs g !! n = Some v -> getattr r n st = (Ok v, st).
Proof.
  intros H Hv. unfold getattr.
  rewrite (bind_ok _ _ _ _ _ (deref_ok _ _ _ H)). now rewrite Hv.
Qed.

Lemma setattr_ok r g n v st :
  heap st !! r = Some g ->
  setattr r n v st
  = (Ok tt, State (<[r := Gene (__class__ g) (key g) (<[n := v]> (attrs g))]> (heap st))
                  (draws st)).
Proof.
  intros H. unfold setattr.
  now rewrite (bind_ok _ _ _ _ _ (deref_ok _ _ _ H)).
Qed.

(** The address [alloc] picks is not in use. *)
Lemma fresh_ref_unused st : heap st !! fresh (dom (heap st)) = None.
Proof. apply not_elem_of_dom, is_fresh. Qed.

End Run.

(** ** Construction *)

Section Construction.
Context {obj : Type}.

(** [cls(k)] checks the type of the key and allocates. *)
Lemma construct_run (cls : gene_class) (k : data) (st : state obj) :
  construct cls k st
  = if isinstance k (key_type cls)
    then let r := fresh (dom (heap st)) in
         (Ok r, State (<[r := Gene cls k ∅]> (heap st)) (draws st))
    else (Raise AssertionError, st).
Proof.
  destruct cls; simpl; unfold DefaultNodeGene_init, DefaultConnectionGene_init;
    destruct (isinstance k _); reflexivity.
Qed.

(** C1, amended.  Construction checks the key eagerly, and only its type:
    a node gene requires an instance of [int], a connection gene requires a
    tuple (of any length and content).  A key of another type raises
    [AssertionError] and leaves the state as it was; otherwise the call
    returns a new gene holding the key and no attribute value.  An int, and
    a pair of ints, are accepted. *)
Theorem construct_checks_key_type :
  (forall (cls : gene_class) (k : data) (st : state obj),
     construct cls k st
     = if isinstance k (key_type cls)
       then let r := fresh (dom (heap st)) in
            (Ok r, State (<[r := Gene cls k ∅]> (heap st)) (draws st))
       else (Raise AssertionError, st))
  /\ (forall z, isinstance (DAtom (AInt z)) (key_type DefaultNodeGene) = true)
  /\ (forall k, is_int_pair k = true -> isinstance k (key_type DefaultConnectionGene) = true).
Proof.
  split; [|split].
  - apply construct_run.
  - reflexivity.
  - intros [| |[|a [|b [|]]]]; simpl; try discriminate; reflexivity.
Qed.

End Construction.

(** C1 as stated fails: the triple [(1, 2, 3)] is not a pair of integers,
    yet constructing a connection gene with it succeeds. *)
Lemma construct_connection_gene_with_triple :
  ~ (forall (k : data) (st : state Empty_set),
       is_int_pair k = false ->
       fst (construct DefaultConnectionGene k st) = Raise AssertionError).
Proof.
  intros H.
  specialize (H (DTuple [AInt 1; AInt 2; AInt 3]) empty_state eq_refl).
  discriminate H.
Qed.

(** ** The key checks of [crossover] and [__lt__] *)

Section KeyChecks.
Context {obj : Type} (reg : registry obj).
Implicit Types (st : state obj) (g : gene obj).

(** [crossover] up to its assertion. *)
Lemma crossover_run (self gene2 : ref) g1 g2 st :
  heap st !! self = Some g1 ->
  heap st !! gene2 = Some g2 ->
  crossover reg self gene2 st
  = if data_eq (key g1) (key g2)
    then (new_gene <- construct (__class__ g1) (key g1);;
          for_each (inherit reg self gene2 new_gene) (_gene_attributes (__class__ g1));;;
          ret new_gene)%M st
    else (Raise AssertionError, st).
Proof.
  intros H1 H2. unfold crossover.
  rewrite (bind_ok _ _ _ _ _ (get_key_ok _ _ _ H1)).
  rewrite (bind_ok _ _ _ _ _ (get_key_ok _ _ _ H2)).
  destruct (data_eq (key g1) (key g2)); [|reflexivity].
  now rewrite (bind_ok _ _ _ _ _ (deref_ok _ _ _ H1)).
Qed.

(** C2.  [crossover] first compares the two keys with [==].  When they
    differ it raises [AssertionError] and changes nothing; when they are
    equal the assertion passes and the call goes on to build the child:
    it constructs a gene of the class and key of [self] and runs the
    inheritance loop over the declared attributes. *)
Theorem crossover_key_check (self gene2 : ref) g1 g2 st :
  heap st !! self = Some g1 ->
  heap st !! gene2 = Some g2 ->
  crossover reg self gene2 st
  = if data_eq (key g1) (key g2)
    then (new_gene <- construct (__class__ g1) (key g1);;
          for_each (inherit reg self gene2 new_gene) (_gene_attributes (__class__ g1));;;
          ret new_gene)%M st
    else (Raise AssertionError, st).
Proof.
  apply crossover_run.
Qed.

(** C8, amended.  [__lt__] looks at the keys alone.  It raises
    [AssertionError] exactly when the key of [self] is not an instance of
    the type of the other key, and otherwise returns [self.key < other.key].
    Keys of one type are therefore compared, and an int key against a
    tuple key fails in either order; a [bool] key is an instance of [int]
    and is compared with an int key without error. *)
Theorem lt_compares_keys (self other : ref) g1 g2 st :
  heap st !! self = Some g1 ->
  heap st !! other = Some g2 ->
  BaseGene_lt self other st
  = (if isinstance (key g1) (type_of (key g2)) then data_lt (key g1) (key g2)
     else Raise AssertionError, st)
  /\ (type_of (key g1) = type_of (key g2) ->
      BaseGene_lt self other st = (data_lt (key g1) (key g2), st))
  /\ (type_of (key g1) = Int /\ type_of (key g2) = Tuple
      \/ type_of (key g1) = Tuple /\ type_of (key g2) = Int ->
      BaseGene_lt self other st = (Raise AssertionError, st)).
Proof.
  intros H1 H2.
  assert (E : BaseGene_lt self other st
              = (if isinstance (key g1) (type_of (key g2)) then data_lt (key g1) (key g2)
                 else Raise AssertionError, st)).
  { unfold BaseGene_lt.
    rewrite (bind_ok _ _ _ _ _ (get_key_ok _ _ _ H1)).
    rewrite (bind_ok _ _ _ _ _ (get_key_ok _ _ _ H2)).
    destruct (isinstance _ _); reflexivity. }
  split; [exact E|]. rewrite E. unfold isinstance. split.
  - intros ->. now destruct (type_of (key g2)).
  - intros [[-> ->]|[-> ->]]; reflexivity.
Qed.

End KeyChecks.

(** Keys (1, 2) and (1, 3): the crossover is refused. *)
Lemma crossover_key_check_witness :
  let st := two_genes (connection_gene (pair_key 1 2) Float.one true)
                      (connection_gene (pair_key 1 3) Float.one true)
                      (fun _ => Float.zero) in
  crossover no_objects 0%nat 1%nat st = (Raise AssertionError, st).
Proof.
  intros st.
  apply (crossover_key_check no_objects 0%nat 1%nat
           (connection_gene (pair_key 1 2) Float.one true)
           (connection_gene (pair_key 1 3) Float.one true) st);
    vm_compute; reflexivity.
Defined.

(** The node gene with key 3 is less than the one with key 5. *)
Lemma lt_compares_keys_witness :
  let st := two_genes (obj := Empty_set) (node_gene (int_key 3) Float.zero Float.zero (VStr "sigmoid") (VStr "sum"))
                      (node_gene (int_key 5) Float.zero Float.zero (VStr "sigmoid") (VStr "sum"))
                      (fun _ => Float.zero) in
  BaseGene_lt 0%nat 1%nat st = (Ok true, st).
Proof.
  intros st.
  apply (lt_compares_keys 0%nat 1%nat
           (node_gene (int_key 3) Float.zero Float.zero (VStr "sigmoid") (VStr "sum"))
           (node_gene (int_key 5) Float.zero Float.zero (VStr "sigmoid") (VStr "sum")) st);
    vm_compute; reflexivity.
Defined.

(** C8 as stated fails: the keys [True] and [1] have different types
    ([bool] and [int]), yet the comparison returns [False] without error. *)
Lemma lt_bool_key_against_int_key :
  ~ (forall (st : state Empty_set) (self other : ref) (g1 g2 : gene Empty_set),
       heap st !! self = Some g1 ->
       heap st !! other = Some g2 ->
       type_of (key g1) <> type_of (key g2) ->
       fst (BaseGene_lt self other st) = Raise AssertionError).
Proof.
  intros H.
  specialize (H (two_genes (obj := Empty_set) (node_gene (DAtom (ABool true)) Float.zero Float.zero (VStr "sigmoid") (VStr "sum"))
                           (node_gene (int_key 1) Float.zero Float.zero (VStr "sigmoid") (VStr "sum"))
                           (fun _ => Float.zero))
                0%nat 1%nat _ _ eq_refl eq_refl).
  assert (E : type_of (DAtom (ABool true)) <> type_of (int_key 1)) by discriminate.
  specialize (H E). vm_compute in H. discriminate H.
Qed.

(** ** Arithmetic on values *)

Lemma rbind_assoc {A B C} (r : result A) (f : A -> result B) (g : B -> result C) :
  rbind (rbind r f) g = rbind r (fun a => rbind (f a) g).
Proof. now destruct r. Qed.

Section ValueFacts.
Context {obj : Type}.
Implicit Types (v w d : value obj).

Lemma of_int_unsigned z f :
  0 <= z -> Float.of_int z = Ok f -> Float.unsigned f.
Proof.
  intros Hz. unfold Float.of_int.
  pose proof (FloatFacts.dyadic_unsigned z 0 Hz) as H.
  destruct (Float.dyadic z 0); intros [= <-]; exact H.
Qed.

Lemma to_float_unsigned v a f :
  nonneg v -> value_num v = Some a -> to_float a = Ok f -> Float.unsigned f.
Proof.
  unfold nonneg. intros H E. rewrite E in H. destruct a as [z|g]; simpl.
  - now apply of_int_unsigned.
  - now intros [= <-].
Qed.

Lemma py_abs_nonneg v d : py_abs v = Ok d -> nonneg d.
Proof.
  unfold py_abs, nonneg. destruct (value_num v) as [[z|f]|]; intros [= <-]; simpl.
  - lia.
  - apply FloatFacts.abs_unsigned.
Qed.

Lemma py_add_nonneg v w s : nonneg v -> nonneg w -> py_add v w = Ok s -> nonneg s.
Proof.
  intros Hv Hw. unfold py_add, py_arith.
  pose proof (to_float_unsigned v) as Fv. pose proof (to_float_unsigned w) as Fw.
  specialize (fun a f => Fv a f Hv). specialize (fun a f => Fw a f Hw).
  unfold nonneg in Hv, Hw.
  destruct (value_num v) as [a|]; [|contradiction].
  destruct (value_num w) as [b|]; [|contradiction].
  specialize (fun f => Fv a f eq_refl). specialize (fun f => Fw b f eq_refl).
  unfold num_add, num_binop.
  destruct a as [x|x], b as [y|y].
  - intros [= <-]. unfold nonneg. simpl. lia.
  - destruct (to_float (NInt x)) as [x'|] eqn:Ex; simpl; [|intros; discriminate].
    intros [= <-]. unfold nonneg; simpl. apply FloatFacts.add_unsigned; auto.
  - simpl. destruct (Float.of_int y) as [y'|] eqn:Ey; simpl; [|intros; discriminate].
    intros [= <-]. unfold nonneg; simpl. apply FloatFacts.add_unsigned; auto.
  - simpl. intros [= <-]. unfold nonneg; simpl. apply FloatFacts.add_unsigned; auto.
Qed.

Lemma py_add_float v x :
  py_add v (VFloat x)
  = match py_arith num_add v (VFloat x) with Some r => r | None => Raise TypeError end.
Proof.
  unfold py_add. destruct (py_arith _ _ _); [reflexivity|].
  destruct v as [[[]| |]|]; reflexivity.
Qed.

Lemma py_mul_float v x :
  py_mul v (VFloat x)
  = match py_arith num_mul v (VFloat x) with Some r => r | None => Raise TypeError end.
Proof.
  unfold py_mul. destruct (py_arith _ _ _); [reflexivity|].
  destruct v as [[[]| |]|]; reflexivity.
Qed.

(** An operation with a float on the right is carried out on floats. *)
Lemma py_arith_float fz ff v a x :
  value_num v = Some a ->
  py_arith (num_binop fz ff) v (VFloat x)
  = Some (f <- to_float a;; Ok (VFloat (ff f x)))%res.
Proof.
  intros E. unfold py_arith. rewrite E. simpl. f_equal.
  destruct a as [z|f]; simpl; [|reflexivity].
  now destruct (Float.of_int z).
Qed.

(** Adding [0.0] to a non-negative number turns an int into the float of
    the same value and leaves a float as it is, so the float operation
    that follows computes the same result. *)
Lemma add_zero_then_add v x :
  nonneg v ->
  rbind (py_add v (VFloat Float.zero)) (fun s => py_add s (VFloat x)) = py_add v (VFloat x).
Proof.
  intros Hv. pose proof (to_float_unsigned v) as Fv.
  specialize (fun a f => Fv a f Hv). unfold nonneg in Hv.
  destruct (value_num v) as [a|] eqn:Ea; [|contradiction].
  rewrite !py_add_float. unfold num_add. rewrite !(py_arith_float _ _ v a) by assumption.
  destruct (to_float a) as [f|e] eqn:Ef; simpl; [|reflexivity].
  rewrite py_add_float. unfold num_add. rewrite (py_arith_float _ _ _ (NFloat (Float.add f Float.zero))) by reflexivity.
  simpl. now rewrite FloatFacts.add_zero_r by eauto.
Qed.

Lemma add_zero_then_mul v x :
  nonneg v ->
  rbind (py_add v (VFloat Float.zero)) (fun s => py_mul s (VFloat x)) = py_mul v (VFloat x).
Proof.
  intros Hv. pose proof (to_float_unsigned v) as Fv.
  specialize (fun a f => Fv a f Hv). unfold nonneg in Hv.
  destruct (value_num v) as [a|] eqn:Ea; [|contradiction].
  rewrite py_add_float, py_mul_float. unfold num_add, num_mul.
  rewrite !(py_arith_float _ _ v a) by assumption.
  destruct (to_float a) as [f|e] eqn:Ef; simpl; [|reflexivity].
  rewrite py_mul_float. unfold num_mul. rewrite (py_arith_float _ _ _ (NFloat (Float.add f Float.zero))) by reflexivity.
  simpl. now rewrite FloatFacts.add_zero_r by eauto.
Qed.

End ValueFacts.

(** ** Genetic distance *)

Section Distance.
Context {obj : Type} (reg : registry obj).
Context {config : Type} (compatibility_weight_coefficient : config -> spec_float).
Implicit Types (st : state obj) (g : gene obj) (v w d : value obj).
Local Abbreviation func_penalty_on := (func_penalty_on reg).
Local Abbreviation node_distance_on := (node_distance_on reg).
Local Abbreviation connection_distance_on := (connection_distance_on reg).
Local Abbreviation penalty := (penalty reg).
Local Abbreviation connection_distance_formula := (connection_distance_formula reg).
Local Abbreviation node_distance_formula := (node_distance_formula reg).
Local Abbreviation distances_are_floats := (distances_are_floats reg).

Lemma bind_lift {A B} (r : result A) (k : A -> M obj B) st :
  bind (lift r) k st = match r with Ok a => k a st | Raise e => (Raise e, st) end.
Proof. unfold bind, lift. now destruct r. Qed.

Lemma bind_run {A B} (m : M obj A) (k : A -> M obj B) st r st' :
  m st = (r, st') ->
  bind m k st = match r with Ok a => k a st' | Raise e => (Raise e, st') end.
Proof. unfold bind. now intros ->. Qed.

(** *** The methods compute the distances on the attribute values *)

Lemma func_penalty_run self other g g' n f f' d st :
  heap st !! self = Some g -> heap st !! other = Some g' ->
  attrs g !! n = Some f -> attrs g' !! n = Some f' ->
  func_penalty reg self other n d st = (func_penalty_on f f' d, st).
Proof.
  intros H H' Hf Hf'. unfold func_penalty, func_penalty_on.
  rewrite (bind_ok _ _ _ _ _ (getattr_ok _ _ _ _ _ H Hf)).
  destruct (distance_method reg f) as [dist|].
  - rewrite (bind_ok _ _ _ _ _ (getattr_ok _ _ _ _ _ H' Hf')).
    rewrite bind_lift. now destruct (dist f').
  - rewrite (bind_ok _ _ _ _ _ (getattr_ok _ _ _ _ _ H' Hf')).
    unfold add_one_if. now destruct (py_ne reg f f').
Qed.

Lemma node_distance_run self other g g' b b' r r' f f' a a' cfg st :
  heap st !! self = Some g -> heap st !! other = Some g' ->
  attrs g !! "bias" = Some b -> attrs g' !! "bias" = Some b' ->
  attrs g !! "response" = Some r -> attrs g' !! "response" = Some r' ->
  attrs g !! "activation" = Some f -> attrs g' !! "activation" = Some f' ->
  attrs g !! "aggregation" = Some a -> attrs g' !! "aggregation" = Some a' ->
  DefaultNodeGene_distance reg compatibility_weight_coefficient self other cfg st
  = (node_distance_on b b' r r' f f' a a' (compatibility_weight_coefficient cfg), st).
Proof.
  intros H H' Hb Hb' Hr Hr' Hf Hf' Ha Ha'.
  unfold DefaultNodeGene_distance, node_distance_on.
  rewrite (bind_ok _ _ _ _ _ (getattr_ok _ _ _ _ _ H Hb)).
  rewrite (bind_ok _ _ _ _ _ (getattr_ok _ _ _ _ _ H' Hb')).
  rewrite bind_lift. fold (abs_diff b b').
  destruct (abs_diff b b') as [db|]; simpl; [|reflexivity].
  rewrite (bind_ok _ _ _ _ _ (getattr_ok _ _ _ _ _ H Hr)).
  rewrite (bind_ok _ _ _ _ _ (getattr_ok _ _ _ _ _ H' Hr')).
  rewrite bind_lift. fold (abs_diff r r').
  destruct (abs_diff r r') as [dr|]; simpl; [|reflexivity].
  rewrite bind_lift. destruct (py_add db dr) as [d|]; simpl; [|reflexivity].
  rewrite (bind_run _ _ _ _ _ (func_penalty_run _ _ _ _ _ _ _ d _ H H' Hf Hf')).
  destruct (func_penalty_on f f' d) as [d1|]; simpl; [|reflexivity].
  rewrite (bind_run _ _ _ _ _ (func_penalty_run _ _ _ _ _ _ _ d1 _ H H' Ha Ha')).
  now destruct (func_penalty_on a a' d1).
Qed.

Lemma connection_distance_run self other g g' w w' e e' cfg st :
  heap st !! self = Some g -> heap st !! other = Some g' ->
  attrs g !! "weight" = Some w -> attrs g' !! "weight" = Some w' ->
  attrs g !! "enabled" = Some e -> attrs g' !! "enabled" = Some e' ->
  DefaultConnectionGene_distance reg compatibility_weight_coefficient self other cfg st
  = (connection_distance_on w w' e e' (compatibility_weight_coefficient cfg), st).
Proof.
  intros H H' Hw Hw' He He'.
  unfold DefaultConnectionGene_distance, connection_distance_on.
  rewrite (bind_ok _ _ _ _ _ (getattr_ok _ _ _ _ _ H Hw)).
  rewrite (bind_ok _ _ _ _ _ (getattr_ok _ _ _ _ _ H' Hw')).
  rewrite bind_lift. fold (abs_diff w w').
  destruct (abs_diff w w') as [d|]; simpl; [|reflexivity].
  rewrite (bind_ok _ _ _ _ _ (getattr_ok _ _ _ _ _ H He)).
  rewrite (bind_ok _ _ _ _ _ (getattr_ok _ _ _ _ _ H' He')).
  unfold add_one_if. destruct (py_ne reg e e'); [|reflexivity].
  rewrite bind_lift. now destruct (py_add d _).
Qed.

(** *** The code agrees with the formulas of the specification *)

Lemma abs_diff_nonneg v w d : abs_diff v w = Ok d -> nonneg d.
Proof.
  unfold abs_diff. destruct (py_sub v w); simpl; [|discriminate 1].
  apply py_abs_nonneg.
Qed.

Lemma connection_formula_agrees w w' e e' c :
  connection_distance_on w w' e e' c = connection_distance_formula w w' e e' c.
Proof.
  unfold connection_distance_on, connection_distance_formula.
  destruct (abs_diff w w') as [d|] eqn:Ed; simpl; [|reflexivity].
  unfold add_one_if, indicator. destruct (py_ne reg e e'); [reflexivity|]. simpl.
  symmetry. apply add_zero_then_mul. eapply abs_diff_nonneg; eauto.
Qed.

Lemma mul_absorbs_zero c : absorbs_zero (fun s : value obj => py_mul s (VFloat c)).
Proof. intros v Hv. now apply add_zero_then_mul. Qed.

Lemma penalty_is_float f f' :
  distances_are_floats ->
  exists p, penalty f f' = Ok (VFloat p) /\ Float.unsigned p.
Proof.
  intros Hd. unfold penalty, distance_method.
  destruct f as [x|o].
  - eexists. split; [reflexivity|]. now destruct (py_ne _ _ _).
  - destruct (obj_distance reg o) as [dist|] eqn:E.
    + exact (Hd o dist f' E).
    + eexists. split; [reflexivity|]. now destruct (py_ne _ _ _).
Qed.

Lemma func_penalty_on_penalty f f' d k :
  nonneg d -> absorbs_zero k ->
  rbind (func_penalty_on f f' d) k = rbind (p <- penalty f f';; py_add d p)%res k.
Proof.
  intros Hd Hk. unfold func_penalty_on, penalty.
  destruct (distance_method reg f) as [dist|]; [reflexivity|].
  unfold add_one_if, indicator. destruct (py_ne reg f f'); simpl; [reflexivity|].
  symmetry. now apply Hk.
Qed.

Lemma func_penalty_absorbs_zero f f' k :
  distances_are_floats -> absorbs_zero k ->
  absorbs_zero (fun d : value obj => rbind (func_penalty_on f f' d) k).
Proof.
  intros Hd Hk v Hv.
  assert (E : forall x, rbind (py_add v (VFloat Float.zero))
                          (fun s => rbind (py_add s (VFloat x)) k)
                        = rbind (py_add v (VFloat x)) k).
  { intros x. rewrite <- (add_zero_then_add v x Hv). now rewrite rbind_assoc. }
  unfold func_penalty_on, distance_method. destruct f as [y|o].
  - unfold add_one_if. destruct (py_ne _ _ _); [apply E|]. simpl. now apply Hk.
  - destruct (obj_distance reg o) as [dist|] eqn:Eo.
    + destruct (Hd o dist f' Eo) as (p & -> & _). simpl. apply E.
    + unfold add_one_if. destruct (py_ne _ _ _); [apply E|]. simpl. now apply Hk.
Qed.

Lemma node_formula_agrees b b' r r' f f' a a' c :
  distances_are_floats ->
  node_distance_on b b' r r' f f' a a' c = node_distance_formula b b' r r' f f' a a' c.
Proof.
  intros Hd. unfold node_distance_on, node_distance_formula.
  destruct (abs_diff b b') as [db|] eqn:Eb; simpl; [|reflexivity].
  destruct (abs_diff r r') as [dr|] eqn:Er; simpl; [|reflexivity].
  destruct (py_add db dr) as [d|] eqn:Ed; simpl; [|reflexivity].
  assert (Hnn : nonneg d).
  { eapply py_add_nonneg; [| |exact Ed]; eapply abs_diff_nonneg; eassumption. }
  rewrite func_penalty_on_penalty;
    auto using func_penalty_absorbs_zero, mul_absorbs_zero.
  destruct (penalty_is_float f f' Hd) as (p & -> & Hp). simpl.
  destruct (py_add d (VFloat p)) as [d1|] eqn:E1; simpl; [|reflexivity].
  assert (Hnn1 : nonneg d1) by (eapply (py_add_nonneg d (VFloat p)); [exact Hnn|exact Hp|exact E1]).
  rewrite func_penalty_on_penalty; auto using mul_absorbs_zero.
  now rewrite rbind_assoc.
Qed.

(** C4.  The distance of two connection genes is
    [(|w - w'| + (1.0 if the enabled flags differ else 0.0)) * c] with [c]
    the compatibility weight coefficient of the configuration, every
    operation being Python's; for weights 2.0 and -1.0, flags [True] and
    [False] and coefficient 0.5 it is 2.0. *)
Theorem connection_distance_is_formula (self other : ref) g g' w w' e e' cfg st :
  heap st !! self = Some g -> heap st !! other = Some g' ->
  attrs g !! "weight" = Some w -> attrs g' !! "weight" = Some w' ->
  attrs g !! "enabled" = Some e -> attrs g' !! "enabled" = Some e' ->
  DefaultConnectionGene_distance reg compatibility_weight_coefficient self other cfg st
  = (connection_distance_formula w w' e e' (compatibility_weight_coefficient cfg), st)
  /\ connection_distance_formula
       (VFloat (Float.dyadic 2 0)) (VFloat (Float.dyadic (-1) 0))
       (VBool true) (VBool false) Float.half
     = Ok (VFloat (Float.dyadic 2 0)).
Proof.
  intros H H' Hw Hw' He He'. split; [|reflexivity].
  rewrite <- connection_formula_agrees.
  now apply (connection_distance_run self other g g').
Qed.


End Distance.

(** ** The example registry *)

Lemma tuned_distances_are_floats : distances_are_floats tuned_functions.
Proof.
  intros o dist v [= <-]. unfold tuned_distance.
  destruct v as [d|p]; [now eexists|].
  destruct (String.eqb _ _); eexists; split; try reflexivity.
  apply FloatFacts.abs_unsigned.
Qed.

(** The scenario of the specification: key (1, 2), weights 2.0 and -1.0,
    flags [True] and [False], coefficient 0.5. *)
Lemma connection_distance_is_formula_witness :
  let st := two_genes (connection_gene (pair_key 1 2) (Float.dyadic 2 0) true)
                      (connection_gene (pair_key 1 2) (Float.dyadic (-1) 0) false)
                      (fun _ => Float.zero) in
  DefaultConnectionGene_distance no_objects (fun c : spec_float => c) 0%nat 1%nat Float.half st
  = (Ok (VFloat (Float.dyadic 2 0)), st).
Proof.
  intros st.
  refine (proj1 (connection_distance_is_formula no_objects (fun c : spec_float => c)
                   0%nat 1%nat
                   (connection_gene (pair_key 1 2) (Float.dyadic 2 0) true)
                   (connection_gene (pair_key 1 2) (Float.dyadic (-1) 0) false)
                   (VFloat (Float.dyadic 2 0)) (VFloat (Float.dyadic (-1) 0))
                   (VBool true) (VBool false) Float.half st _ _ _ _ _ _));
    vm_compute; reflexivity.
Defined.


(** ** Equality of values *)

Module EqFacts.

Lemma SFcompare_antisym f g :
  SFcompare g f = CompOpp <$> SFcompare f g.
Proof.
  destruct f as [s|s| |s m e], g as [s'|s'| |s' m' e'];
    try (destruct s; try destruct s'; reflexivity);
    try (destruct s'; reflexivity); try reflexivity.
  destruct s, s'; simpl; try reflexivity.
  - rewrite (Z.compare_antisym e e'). destruct (e ?= e'); simpl; try reflexivity.
    f_equal. pose proof (Pos.compare_cont_antisym m m' Eq) as A. simpl in A.
    now rewrite <- A, CompOpp_involutive.
  - rewrite (Z.compare_antisym e e'). destruct (e ?= e'); simpl; try reflexivity.
    f_equal. pose proof (Pos.compare_cont_antisym m m' Eq) as A. simpl in A.
    now rewrite <- A.
Qed.

Lemma num_compare_antisym a b :
  num_compare b a = CompOpp <$> num_compare a b.
Proof.
  destruct a as [x|f], b as [y|g]; simpl.
  - now rewrite (Z.compare_antisym x y).
  - reflexivity.
  - destruct (Float.compare_int y f) as [c|]; simpl; [|reflexivity].
    now rewrite CompOpp_involutive.
  - apply SFcompare_antisym.
Qed.

Lemma num_eq_sym a b : num_eq a b = num_eq b a.
Proof.
  unfold num_eq. rewrite (num_compare_antisym a b).
  now destruct (num_compare a b) as [[]|].
Qed.

Lemma atom_eq_sym a b : atom_eq a b = atom_eq b a.
Proof.
  destruct a as [|x|x|s], b as [|y|y|t]; simpl; try reflexivity;
    try apply Z.eqb_sym. apply String.eqb_sym.
Qed.

Lemma tuple_eq_sym l1 l2 : tuple_eq l1 l2 = tuple_eq l2 l1.
Proof.
  revert l2. induction l1 as [|a l1 IH]; intros [|b l2]; simpl; try reflexivity.
  now rewrite atom_eq_sym, IH.
Qed.

Lemma data_eq_sym a b : data_eq a b = data_eq b a.
Proof.
  unfold data_eq.
  destruct (as_num a) as [x|] eqn:Ea, (as_num b) as [y|] eqn:Eb.
  - apply num_eq_sym.
  - destruct a as [u| |], b as [v| |]; try reflexivity; try discriminate.
    apply atom_eq_sym.
  - destruct a as [u| |], b as [v| |]; try reflexivity; try discriminate.
    apply atom_eq_sym.
  - destruct a as [u| |], b as [v| |]; try reflexivity; try discriminate.
    + apply atom_eq_sym.
    + apply tuple_eq_sym.
Qed.

(** A float other than a NaN equals itself. *)
Lemma float_eqb_refl x : Float.is_nan x = false -> Float.eqb x x = true.
Proof.
  unfold Float.eqb, SFeqb.
  destruct x as [s|s| |s m e]; try discriminate; intros _; simpl.
  - reflexivity.
  - now destruct s.
  - destruct s; now rewrite Z.compare_refl, Pos.compare_cont_refl.
Qed.

End EqFacts.

(** ** A gene against itself, and the two orders of a pair *)

Section SelfAndSymmetry.
Context {obj : Type} (reg : registry obj).
Context {config : Type} (compatibility_weight_coefficient : config -> spec_float).
Implicit Types (st : state obj) (g : gene obj) (v w d : value obj).
Local Abbreviation zero_from_itself := (zero_from_itself reg).
Local Abbreviation finite_valued := (finite_valued reg).

Lemma zero_number_eq v : zero_number v = true -> py_eq reg v (VFloat Float.zero) = true.
Proof.
  unfold zero_number. destruct v as [d|o]; [|discriminate]. simpl.
  unfold data_eq. destruct (as_num d) as [[z|f]|]; try discriminate; simpl.
  - intros ->%Z.eqb_eq. reflexivity.
  - destruct f; try discriminate. reflexivity.
Qed.

Lemma abs_diff_self v :
  finite_number v = true -> exists d, abs_diff v v = Ok d /\ zero_number d = true.
Proof.
  unfold finite_number, abs_diff, py_sub, py_abs, py_arith.
  destruct (value_num v) as [[z|f]|]; try discriminate; intros Hf; simpl.
  - rewrite Z.sub_diag. eexists. split; reflexivity.
  - rewrite FloatFacts.sub_diag by assumption. eexists. split; reflexivity.
Qed.

Lemma of_int_zero : Float.of_int 0 = Ok Float.zero.
Proof. reflexivity. Qed.

Lemma py_add_zero v w :
  zero_number v = true -> zero_number w = true ->
  exists s, py_add v w = Ok s /\ zero_number s = true.
Proof.
  unfold zero_number, py_add, py_arith.
  destruct (value_num v) as [[x|f]|]; try discriminate;
    destruct (value_num w) as [[y|g]|]; try discriminate; intros Hv Hw; simpl.
  - apply Z.eqb_eq in Hv, Hw. subst. eexists. split; reflexivity.
  - apply Z.eqb_eq in Hv. subst. simpl. eexists. split; [reflexivity|].
    simpl. now apply (FloatFacts.add_is_zero Float.zero g).
  - apply Z.eqb_eq in Hw. subst. simpl. eexists. split; [reflexivity|].
    simpl. now apply (FloatFacts.add_is_zero f Float.zero).
  - eexists. split; [reflexivity|]. simpl. now apply FloatFacts.add_is_zero.
Qed.

Lemma py_mul_zero v c :
  zero_number v = true -> Float.is_finite c = true ->
  exists s, py_mul v (VFloat c) = Ok s /\ zero_number s = true.
Proof.
  intros Hv Hc. rewrite py_mul_float. revert Hv. unfold zero_number, py_arith.
  destruct (value_num v) as [[x|f]|]; try discriminate; intros Hv; simpl.
  - apply Z.eqb_eq in Hv. subst. simpl. eexists. split; [reflexivity|].
    simpl. now apply (FloatFacts.mul_is_zero Float.zero c).
  - eexists. split; [reflexivity|]. simpl. now apply FloatFacts.mul_is_zero.
Qed.

Lemma func_penalty_on_itself f d :
  zero_from_itself f = true -> zero_number d = true ->
  exists s, func_penalty_on reg f f d = Ok s /\ zero_number s = true.
Proof.
  unfold zero_from_itself, func_penalty_on. intros Hf Hd.
  destruct (distance_method reg f) as [dist|].
  - destruct (dist f) as [p|]; [|discriminate]. simpl. now apply py_add_zero.
  - unfold py_ne. rewrite Hf. simpl. eauto.
Qed.

Lemma attr_is_Some (P : value obj -> bool) g n :
  attr_is P g n = true -> exists v, attrs g !! n = Some v /\ P v = true.
Proof. unfold attr_is. destruct (attrs g !! n); [eauto|discriminate]. Qed.

(** C6, amended.  The distance from a gene to itself compares equal to
    zero when its numbers are finite and the coefficient is finite: every
    numeric attribute an int or a finite float, the enabled flag equal to
    itself, each function value at penalty zero from itself.  (The result
    is [0.0] or, under a negative coefficient, [-0.0].) *)
Theorem distance_to_itself_is_zero (self : ref) g cfg st :
  heap st !! self = Some g ->
  finite_valued g = true ->
  Float.is_finite (compatibility_weight_coefficient cfg) = true ->
  exists v,
    distance reg compatibility_weight_coefficient self self cfg st = (Ok v, st)
    /\ py_eq reg v (VFloat Float.zero) = true.
Proof.
  intros H Hg Hc. unfold distance.
  rewrite (bind_ok _ _ _ _ _ (deref_ok _ _ _ H)).
  unfold finite_valued in Hg. destruct (__class__ g).
  - apply andb_prop in Hg as [Hg Ha]. apply andb_prop in Hg as [Hg Hf].
    apply andb_prop in Hg as [Hb Hr].
    apply attr_is_Some in Hb as (b & Eb & Hb), Hr as (r & Er & Hr),
      Hf as (f & Ef & Hf), Ha as (a & Ea & Ha).
    rewrite (node_distance_run reg _ self self g g b b r r f f a a) by assumption.
    unfold node_distance_on.
    destruct (abs_diff_self b Hb) as (db & -> & Zb).
    destruct (abs_diff_self r Hr) as (dr & -> & Zr). simpl.
    destruct (py_add_zero db dr Zb Zr) as (d & -> & Zd). simpl.
    destruct (func_penalty_on_itself f d Hf Zd) as (d1 & -> & Z1). simpl.
    destruct (func_penalty_on_itself a d1 Ha Z1) as (d2 & -> & Z2). simpl.
    destruct (py_mul_zero d2 _ Z2 Hc) as (s & -> & Zs).
    eauto using zero_number_eq.
  - apply andb_prop in Hg as [Hw He].
    apply attr_is_Some in Hw as (w & Ew & Hw), He as (e & Ee & He).
    rewrite (connection_distance_run reg _ self self g g w w e e) by assumption.
    unfold connection_distance_on.
    destruct (abs_diff_self w Hw) as (d & -> & Zd). simpl.
    unfold py_ne. rewrite He. simpl.
    destruct (py_mul_zero d _ Zd Hc) as (s & -> & Zs).
    eauto using zero_number_eq.
Qed.

Lemma abs_diff_comm v w : abs_diff v w = abs_diff w v.
Proof.
  unfold abs_diff, py_sub, py_abs, py_arith.
  destruct (value_num v) as [[x|f]|], (value_num w) as [[y|h]|]; simpl;
    try reflexivity.
  - do 3 f_equal. rewrite <- Z.abs_opp. f_equal. lia.
  - destruct (Float.of_int x); simpl; [|reflexivity].
    now rewrite FloatFacts.abs_sub_comm.
  - destruct (Float.of_int y); simpl; [|reflexivity].
    now rewrite FloatFacts.abs_sub_comm.
  - now rewrite FloatFacts.abs_sub_comm.
Qed.

Lemma py_ne_comm v w :
  (forall o p, obj_eq reg o p = obj_eq reg p o) ->
  py_ne reg v w = py_ne reg w v.
Proof.
  intros Hsym. unfold py_ne, py_eq. f_equal.
  destruct v, w; auto using EqFacts.data_eq_sym.
Qed.

Lemma func_penalty_on_alike f f' d :
  (forall o p, obj_eq reg o p = obj_eq reg p o) ->
  penalised_alike reg f f' ->
  func_penalty_on reg f f' d = func_penalty_on reg f' f d.
Proof.
  unfold penalised_alike, func_penalty_on. intros Hsym Hf.
  destruct (distance_method reg f), (distance_method reg f'); try contradiction.
  - now rewrite Hf.
  - now rewrite py_ne_comm.
Qed.

Lemma attr_is_lookup (P : value obj -> bool) g n v :
  attrs g !! n = Some v -> attr_is P g n = P v.
Proof. unfold attr_is. now intros ->. Qed.

Lemma node_attributes g :
  __class__ g = DefaultNodeGene -> attributes_set g = true ->
  exists b r f a,
    attrs g !! "bias" = Some b /\ attrs g !! "response" = Some r
    /\ attrs g !! "activation" = Some f /\ attrs g !! "aggregation" = Some a.
Proof.
  unfold attributes_set. intros -> Hs. simpl in Hs.
  apply andb_prop in Hs as [Hb Hs]. apply andb_prop in Hs as [Hr Hs].
  apply andb_prop in Hs as [Hf Hs]. apply andb_prop in Hs as [Ha _].
  apply attr_is_Some in Hb as (b & ? & _), Hr as (r & ? & _),
    Hf as (f & ? & _), Ha as (a & ? & _).
  now exists b, r, f, a.
Qed.

Lemma connection_attributes g :
  __class__ g = DefaultConnectionGene -> attributes_set g = true ->
  exists w e, attrs g !! "weight" = Some w /\ attrs g !! "enabled" = Some e.
Proof.
  unfold attributes_set. intros -> Hs. simpl in Hs.
  apply andb_prop in Hs as [Hw Hs]. apply andb_prop in Hs as [He _].
  apply attr_is_Some in Hw as (w & ? & _), He as (e & ? & _).
  now exists w, e.
Qed.

(** A product with the coefficient is a float. *)
Lemma py_mul_float_result d c v :
  py_mul d (VFloat c) = Ok v -> exists x, v = VFloat x.
Proof.
  rewrite py_mul_float. unfold py_arith.
  destruct (value_num d) as [[z|x]|]; simpl; [| |discriminate].
  - destruct (Float.of_int z); simpl; [|discriminate]. intros [= <-]. eauto.
  - intros [= <-]. eauto.
Qed.

Lemma node_distance_on_float b b' r r' f f' a a' c v :
  node_distance_on reg b b' r r' f f' a a' c = Ok v -> exists x, v = VFloat x.
Proof.
  unfold node_distance_on.
  destruct (abs_diff b b'); simpl; [|discriminate].
  destruct (abs_diff r r'); simpl; [|discriminate].
  destruct (py_add _ _); simpl; [|discriminate].
  destruct (func_penalty_on reg f f' _); simpl; [|discriminate].
  destruct (func_penalty_on reg a a' _); simpl; [|discriminate].
  apply py_mul_float_result.
Qed.

Lemma connection_distance_on_float w w' e e' c v :
  connection_distance_on reg w w' e e' c = Ok v -> exists x, v = VFloat x.
Proof.
  unfold connection_distance_on.
  destruct (abs_diff w w'); simpl; [|discriminate].
  destruct (add_one_if _ _); simpl; [|discriminate].
  apply py_mul_float_result.
Qed.

(** C7, amended.  For two genes of one class with every declared
    attribute set, [self.distance(other, config)] and
    [other.distance(self, config)] give the same result (the same value,
    or the same exception), whatever the configuration, the keys and the
    numbers, when the function values of the two genes are penalised alike
    (neither value of an attribute defines a [distance] method, or both do
    and the two methods agree on the pair) and [==] on registry objects is
    symmetric.  The common value compares equal to itself with [==]
    unless it is the NaN. *)
Theorem distance_is_symmetric (self other : ref) g g' cfg st :
  (forall o p, obj_eq reg o p = obj_eq reg p o) ->
  heap st !! self = Some g -> heap st !! other = Some g' ->
  __class__ g = __class__ g' ->
  attributes_set g = true -> attributes_set g' = true ->
  functions_penalised_alike reg g g' ->
  distance reg compatibility_weight_coefficient self other cfg st
  = distance reg compatibility_weight_coefficient other self cfg st
  /\ forall v,
       fst (distance reg compatibility_weight_coefficient self other cfg st) = Ok v ->
       v <> VFloat Float.nan ->
       py_eq reg v v = true.
Proof.
  intros Hsym H H' Hc Hs Hs' Hp.
  assert (F : forall v,
             fst (distance reg compatibility_weight_coefficient self other cfg st) = Ok v ->
             exists x, v = VFloat x).
  { unfold distance. rewrite (bind_ok _ _ _ _ _ (deref_ok _ _ _ H)).
    destruct (__class__ g) eqn:Eg; intros v.
    - destruct (node_attributes g Eg Hs) as (b & r & f & a & Eb & Er & Ef & Ea).
      destruct (node_attributes g' (eq_sym Hc) Hs')
        as (b' & r' & f' & a' & Eb' & Er' & Ef' & Ea').
      rewrite (node_distance_run reg _ self other g g' b b' r r' f f' a a') by assumption.
      apply node_distance_on_float.
    - destruct (connection_attributes g Eg Hs) as (w & e & Ew & Ee).
      destruct (connection_attributes g' (eq_sym Hc) Hs') as (w' & e' & Ew' & Ee').
      rewrite (connection_distance_run reg _ self other g g' w w' e e') by assumption.
      apply connection_distance_on_float. }
  split.
  2: { intros v Hv Hnan. destruct (F v Hv) as (x & ->).
       apply EqFacts.float_eqb_refl. destruct x; try reflexivity. now destruct Hnan. }
  clear F. unfold distance.
  rewrite (bind_ok _ _ _ _ _ (deref_ok _ _ _ H)).
  rewrite (bind_ok _ _ _ _ _ (deref_ok _ _ _ H')).
  unfold functions_penalised_alike in Hp.
  rewrite <- Hc in *.
  destruct (__class__ g) eqn:Eg.
  - destruct (node_attributes g Eg Hs) as (b & r & f & a & Eb & Er & Ef & Ea).
    destruct (node_attributes g' (eq_sym Hc) Hs')
      as (b' & r' & f' & a' & Eb' & Er' & Ef' & Ea').
    destruct Hp as [Hf Ha]. unfold alike_at in Hf, Ha.
    rewrite Ef, Ef' in Hf. rewrite Ea, Ea' in Ha.
    rewrite (node_distance_run reg _ self other g g' b b' r r' f f' a a') by assumption.
    rewrite (node_distance_run reg _ other self g' g b' b r' r f' f a' a) by assumption.
    unfold node_distance_on.
    rewrite (abs_diff_comm b' b), (abs_diff_comm r' r).
    destruct (abs_diff b b'); simpl; [|reflexivity].
    destruct (abs_diff r r'); simpl; [|reflexivity].
    destruct (py_add _ _) as [d|]; simpl; [|reflexivity].
    rewrite (func_penalty_on_alike f f' d Hsym Hf).
    destruct (func_penalty_on reg f' f d) as [d1|]; simpl; [|reflexivity].
    now rewrite (func_penalty_on_alike a a' d1 Hsym Ha).
  - destruct (connection_attributes g Eg Hs) as (w & e & Ew & Ee).
    destruct (connection_attributes g' (eq_sym Hc) Hs') as (w' & e' & Ew' & Ee').
    rewrite (connection_distance_run reg _ self other g g' w w' e e') by assumption.
    rewrite (connection_distance_run reg _ other self g' g w' w e' e) by assumption.
    unfold connection_distance_on.
    now rewrite (abs_diff_comm w' w), (py_ne_comm e' e).
Qed.

End SelfAndSymmetry.

Lemma tuned_eq_sym o p : obj_eq tuned_functions o p = obj_eq tuned_functions p o.
Proof.
  simpl. rewrite String.eqb_sym. f_equal.
  unfold Float.eqb, SFeqb. rewrite (EqFacts.SFcompare_antisym (tuned_param o)).
  now destruct (SFcompare _ _) as [[]|].
Qed.

(** A node gene whose activation is a registry object, under a negative
    coefficient: the distance to itself is [-0.0], which equals zero. *)
Lemma distance_to_itself_is_zero_witness :
  let g := node_gene (int_key 7) (Float.dyadic 1 0) Float.half
             (VObj (Tuned "sigmoid" Float.one)) (VStr "sum") in
  let st := two_genes g g (fun _ => Float.zero) in
  exists v,
    distance tuned_functions (fun c : spec_float => c) 0%nat 0%nat (Float.dyadic (-1) 0) st
    = (Ok v, st)
    /\ py_eq tuned_functions v (VFloat Float.zero) = true.
Proof.
  intros g st.
  apply (distance_to_itself_is_zero tuned_functions (fun c : spec_float => c) 0%nat g
           (Float.dyadic (-1) 0) st);
    vm_compute; reflexivity.
Defined.

(** C6 as stated fails: a connection gene whose weight is the float
    infinity is at distance NaN from itself, since [inf - inf] is a NaN,
    and a NaN does not equal zero. *)
Lemma distance_to_itself_with_infinite_weight :
  ~ (forall (st : state Empty_set) (self : ref) (g : gene Empty_set) (cfg : spec_float),
       heap st !! self = Some g ->
       attributes_well_set g = true ->
       exists v,
         fst (distance no_objects (fun c : spec_float => c) self self cfg st) = Ok v
         /\ py_eq no_objects v (VFloat Float.zero) = true).
Proof.
  intros H.
  destruct (H (two_genes (connection_gene (pair_key 1 2) Float.inf true)
                         (connection_gene (pair_key 1 2) Float.inf true)
                         (fun _ => Float.zero))
              0%nat _ Float.one eq_refl eq_refl) as (v & E & Z).
  vm_compute in E. injection E as <-. vm_compute in Z. discriminate Z.
Qed.

(** Two node genes whose activations are the same function under two
    parameters and whose aggregations are two names, in both orders. *)
Lemma distance_is_symmetric_witness :
  let g := node_gene (int_key 7) (Float.dyadic 1 0) Float.zero
             (VObj (Tuned "sigmoid" Float.one)) (VStr "sum") in
  let g' := node_gene (int_key 7) (Float.dyadic (-1) 0) Float.zero
              (VObj (Tuned "sigmoid" Float.half)) (VStr "product") in
  let st := two_genes g g' (fun _ => Float.zero) in
  distance tuned_functions (fun c : spec_float => c) 0%nat 1%nat Float.half st
  = distance tuned_functions (fun c : spec_float => c) 1%nat 0%nat Float.half st.
Proof.
  intros g g' st.
  apply (distance_is_symmetric tuned_functions (fun c : spec_float => c) 0%nat 1%nat g g'
           Float.half st tuned_eq_sym);
    vm_compute; auto.
Defined.

(** C7 as stated fails: [distance] asks the activation of [self] alone
    for a [distance] method.  With a registry object on one side, at
    distance 0.5 from the plain name of its function, and that name on
    the other side, one order adds the 0.5 of the method and the other
    the 1.0 of [!=].  The two genes are node genes of key 7 with every
    declared attribute set to a value of its kind, and [==] on the
    objects is symmetric. *)
Lemma distance_of_object_against_name :
  ~ (forall (st : state tuned) (self other : ref) (g g' : gene tuned) (cfg : spec_float),
       heap st !! self = Some g -> heap st !! other = Some g' ->
       __class__ g = __class__ g' -> key g = key g' ->
       attributes_well_set g = true -> attributes_well_set g' = true ->
       forall v v',
         fst (distance named_functions (fun c : spec_float => c) self other cfg st) = Ok v ->
         fst (distance named_functions (fun c : spec_float => c) other self cfg st) = Ok v' ->
         py_eq named_functions v v' = true).
Proof.
  intros H.
  pose (g := node_gene (obj := tuned) (int_key 7) Float.zero Float.one
               (VObj (Tuned "sigmoid" Float.one)) (VStr "sum")).
  pose (g' := node_gene (obj := tuned) (int_key 7) Float.zero Float.one
                (VStr "sigmoid") (VStr "sum")).
  specialize (H (two_genes g g' (fun _ => Float.zero)) 0%nat 1%nat g g' Float.one
                eq_refl eq_refl eq_refl eq_refl eq_refl eq_refl
                (VFloat Float.half) (VFloat Float.one) eq_refl eq_refl).
  vm_compute in H. discriminate H.
Qed.

(** The two results of the counterexample. *)
Example distance_of_object_against_name_values :
  let g := node_gene (int_key 7) Float.zero Float.one
             (VObj (Tuned "sigmoid" Float.one)) (VStr "sum") in
  let g' := node_gene (int_key 7) Float.zero Float.one (VStr "sigmoid") (VStr "sum") in
  let st := two_genes g g' (fun _ => Float.zero) in
  distance named_functions (fun c : spec_float => c) 0%nat 1%nat Float.one st
  = (Ok (VFloat Float.half), st)
  /\ distance named_functions (fun c : spec_float => c) 1%nat 0%nat Float.one st
     = (Ok (VFloat Float.one), st).
Proof. split; reflexivity. Qed.

(** The same result in both orders need not compare equal with [==]: two
    connection genes of infinite weight are at distance NaN in both
    orders, and a NaN is not [==] to itself. *)
Example distance_of_infinite_weights_both_ways :
  let g := connection_gene (pair_key 1 2) Float.inf true in
  let st := two_genes (obj := Empty_set) g g (fun _ => Float.zero) in
  distance no_objects (fun c : spec_float => c) 0%nat 1%nat Float.one st
  = (Ok (VFloat Float.nan), st)
  /\ distance no_objects (fun c : spec_float => c) 1%nat 0%nat Float.one st
     = (Ok (VFloat Float.nan), st)
  /\ py_eq no_objects (VFloat Float.nan) (VFloat Float.nan) = false.
Proof. repeat split; reflexivity. Qed.

(** Without a symmetric [==] the two orders differ as well: two node genes
    whose activations define no [distance] method and of which only one
    says that it equals the other. *)
Example distance_under_one_sided_eq :
  let g := node_gene (int_key 7) Float.zero Float.one (VObj true) (VStr "sum") in
  let g' := node_gene (int_key 7) Float.zero Float.one (VObj false) (VStr "sum") in
  let st := two_genes g g' (fun _ => Float.zero) in
  distance one_sided_eq (fun c : spec_float => c) 0%nat 1%nat Float.one st
  = (Ok (VFloat Float.zero), st)
  /\ distance one_sided_eq (fun c : spec_float => c) 1%nat 0%nat Float.one st
     = (Ok (VFloat Float.one), st).
Proof. split; reflexivity. Qed.

(** ** Copy, crossover and mutation on the heap *)

Section Effects.
Context {obj : Type} (reg : registry obj).
Implicit Types (st : state obj) (g : gene obj) (v : value obj) (n r : ref).
Local Abbreviation copies_are_clones := (copies_are_clones reg).
Local Abbreviation writes_only := (writes_only (obj := obj)).

Lemma bind_inv {A B} (m : M obj A) (k : A -> M obj B) st res st' :
  bind m k st = (res, st') ->
  (exists a st1, m st = (Ok a, st1) /\ k a st1 = (res, st'))
  \/ (exists e, m st = (Raise e, st') /\ res = Raise e).
Proof.
  unfold bind. destruct (m st) as [[a|e] st1]; intros E.
  - left. eauto.
  - right. injection E as <- <-. eauto.
Qed.

Lemma state_eta st : State (heap st) (draws st) = st.
Proof. now destruct st. Qed.

Lemma gene_eta g : Gene (__class__ g) (key g) (attrs g) = g.
Proof. now destruct g. Qed.

Lemma deref_inv r st res st' :
  deref r st = (res, st') -> st' = st.
Proof. unfold deref. destruct (heap st !! r); now intros [= _ <-]. Qed.

Lemma getattr_inv r k st res st' :
  getattr r k st = (res, st') -> st' = st.
Proof.
  unfold getattr, bind, deref, ret, raise.
  destruct (heap st !! r) as [g|]; [|now intros [= _ <-]].
  destruct (attrs g !! k); now intros [= _ <-].
Qed.

Lemma clone_inv v st res st' :
  clone reg v st = (res, st') -> st' = st.
Proof.
  unfold clone, lift, ret. destruct (copy_method reg v); now intros [= _ <-].
Qed.

Lemma setattr_inv n k v st res st' gn :
  heap st !! n = Some gn ->
  setattr n k v st = (res, st') ->
  heap st' = <[n := Gene (__class__ gn) (key gn) (<[k := v]> (attrs gn))]> (heap st)
  /\ draws st' = draws st.
Proof. intros H. rewrite (setattr_ok _ _ _ _ _ H). now intros [= _ <-]. Qed.

Lemma writes_only_same {A} n (m : M obj A) :
  (forall st res st', m st = (res, st') -> heap st' = heap st) -> writes_only n m.
Proof.
  intros Hm st res st' gn Hn E. exists gn.
  rewrite (Hm _ _ _ E). symmetry. now apply insert_id.
Qed.

Lemma writes_only_bind {A B} n (m : M obj A) (k : A -> M obj B) :
  writes_only n m -> (forall a, writes_only n (k a)) -> writes_only n (bind m k).
Proof.
  intros Hm Hk st res st' gn Hn E.
  destruct (bind_inv _ _ _ _ _ E) as [(a & st1 & E1 & E2)|(e & E1 & _)].
  - destruct (Hm _ _ _ _ Hn E1) as (g1 & H1).
    assert (Hn1 : heap st1 !! n = Some g1) by (rewrite H1; apply lookup_insert_eq).
    destruct (Hk a _ _ _ _ Hn1 E2) as (g2 & H2).
    exists g2. rewrite H2, H1. apply insert_insert_eq.
  - exact (Hm _ _ _ _ Hn E1).
Qed.

Lemma writes_only_getattr n r k : writes_only n (getattr r k).
Proof. apply writes_only_same. intros st res st' E. now rewrite (getattr_inv _ _ _ _ _ E). Qed.

Lemma writes_only_clone n v : writes_only n (clone reg v).
Proof. apply writes_only_same. intros st res st' E. now rewrite (clone_inv _ _ _ _ E). Qed.

Lemma writes_only_random n : writes_only n (random (obj := obj)).
Proof. apply writes_only_same. unfold random. now intros st res st' [= _ <-]. Qed.

Lemma writes_only_setattr n k v : writes_only n (setattr n k v).
Proof.
  intros st res st' gn Hn E.
  destruct (setattr_inv _ _ _ _ _ _ _ Hn E) as [-> _]. eauto.
Qed.

Lemma writes_only_ret {A} n (a : A) : writes_only n (ret (obj := obj) a).
Proof. apply writes_only_same. unfold ret. now intros st res st' [= _ <-]. Qed.

Lemma writes_only_for_each {A} n (body : A -> M obj unit) l :
  (forall a, writes_only n (body a)) -> writes_only n (for_each body l).
Proof.
  intros Hb. induction l as [|a l IH]; simpl.
  - apply writes_only_ret.
  - apply writes_only_bind; auto.
Qed.

Lemma writes_only_copy_attribute self n a : writes_only n (copy_attribute reg self n a).
Proof.
  unfold copy_attribute.
  apply writes_only_bind; [apply writes_only_getattr|intros v].
  apply writes_only_bind; [apply writes_only_clone|intros v'].
  apply writes_only_setattr.
Qed.

Lemma writes_only_inherit self gene2 n a : writes_only n (inherit reg self gene2 n a).
Proof.
  unfold inherit.
  apply writes_only_bind; [apply writes_only_random|intros x].
  destruct (Float.ltb Float.half x);
    (apply writes_only_bind; [apply writes_only_getattr|intros v]);
    (apply writes_only_bind; [apply writes_only_clone|intros v']);
    apply writes_only_setattr.
Qed.

Lemma writes_only_with_rng {A} n (f : rng -> result A * rng) :
  writes_only n (with_rng (obj := obj) f).
Proof.
  apply writes_only_same. unfold with_rng. intros st res st'.
  destruct (f (draws st)). now intros [= _ <-].
Qed.

Lemma writes_only_mutate {config : Type}
    (mutate_value : attribute -> value obj -> config -> rng -> result (value obj) * rng)
    (self : ref) (cfg : config) :
  writes_only self (mutate mutate_value self cfg).
Proof.
  unfold mutate. apply writes_only_bind.
  - apply writes_only_same. intros st res st' E. now rewrite (deref_inv _ _ _ _ E).
  - intros g. apply writes_only_for_each. intros a.
    apply writes_only_bind; [apply writes_only_getattr|intros v].
    apply writes_only_bind; [apply writes_only_with_rng|intros v'].
    apply writes_only_setattr.
Qed.

Lemma clone_ok v st : copies_are_clones -> clone reg v st = (Ok v, st).
Proof.
  intros Hc. unfold clone, copy_method. destruct v as [d|o]; [reflexivity|].
  destruct (obj_copy reg o) as [c|] eqn:E; [|reflexivity].
  now rewrite (Hc o c E).
Qed.

(** The loop of [copy]: from a state where [n] is a gene other than
    [self], it ends with [n] holding the values of [self] for the
    attributes of the list and what it held for the other names. *)
Lemma copy_loop self n g l :
  copies_are_clones -> self <> n ->
  forall st gn,
    heap st !! self = Some g -> heap st !! n = Some gn ->
    (forall a, a ∈ l -> is_Some (attrs g !! name a)) ->
    exists m,
      for_each (copy_attribute reg self n) l st
      = (Ok tt, State (<[n := Gene (__class__ gn) (key gn) m]> (heap st)) (draws st))
      /\ forall k, m !! k = if bool_decide (k ∈ names l) then attrs g !! k
                           else attrs gn !! k.
Proof.
  intros Hc Hne. induction l as [|a l IH]; intros st gn Hs Hn Hl.
  - exists (attrs gn). split; [|reflexivity]. simpl. unfold ret.
    now rewrite gene_eta, insert_id, state_eta.
  - destruct (Hl a) as [v Hv]; [left|].
    set (gn1 := Gene (__class__ gn) (key gn) (<[name a := v]> (attrs gn))).
    assert (E1 : copy_attribute reg self n a st
                 = (Ok tt, State (<[n := gn1]> (heap st)) (draws st))).
    { unfold copy_attribute.
      rewrite (bind_ok _ _ _ _ _ (getattr_ok _ _ _ _ _ Hs Hv)).
      rewrite (bind_ok _ _ _ _ _ (clone_ok v st Hc)).
      apply (setattr_ok _ _ _ _ _ Hn). }
    simpl. rewrite (bind_ok _ _ _ _ _ E1).
    destruct (IH (State (<[n := gn1]> (heap st)) (draws st)) gn1) as (m & E & Hm).
    + simpl. now rewrite lookup_insert_ne.
    + simpl. apply lookup_insert_eq.
    + intros b Hb. apply Hl. now right.
    + exists m. split.
      * rewrite E. simpl. now rewrite insert_insert_eq.
      * intros k. rewrite Hm. unfold names. simpl. subst gn1. simpl.
        destruct (decide (k ∈ name <$> l)) as [Hk|Hk].
        -- rewrite !bool_decide_eq_true_2; [reflexivity| |assumption].
           now right.
        -- rewrite (bool_decide_eq_false_2 _ Hk).
           destruct (decide (k = name a)) as [->|Hka].
           ++ rewrite lookup_insert_eq, bool_decide_eq_true_2; [now rewrite Hv|left].
           ++ rewrite lookup_insert_ne by congruence.
              rewrite bool_decide_eq_false_2; [reflexivity|].
              intros [?|?]%elem_of_cons; contradiction.
Qed.

(** The loop of [crossover]: whatever the draws, [n] ends holding, for
    each attribute of the list, the value of one of the two parents. *)
Lemma inherit_loop self gene2 n g1 g2 l :
  copies_are_clones -> self <> n -> gene2 <> n ->
  forall st gn,
    heap st !! self = Some g1 -> heap st !! gene2 = Some g2 ->
    heap st !! n = Some gn ->
    (forall a, a ∈ l -> is_Some (attrs g1 !! name a) /\ is_Some (attrs g2 !! name a)) ->
    exists m d,
      for_each (inherit reg self gene2 n) l st
      = (Ok tt, State (<[n := Gene (__class__ gn) (key gn) m]> (heap st)) d)
      /\ forall k, if bool_decide (k ∈ names l)
                   then m !! k = attrs g1 !! k \/ m !! k = attrs g2 !! k
                   else m !! k = attrs gn !! k.
Proof.
  intros Hc Hne1 Hne2. induction l as [|a l IH]; intros st gn Hs1 Hs2 Hn Hl.
  - exists (attrs gn), (draws st). split; [|reflexivity]. simpl. unfold ret.
    now rewrite gene_eta, insert_id, state_eta.
  - destruct (Hl a) as [[v1 Hv1] [v2 Hv2]]; [left|].
    set (d1 := fun i => draws st (S i)).
    set (st0 := State (heap st) d1).
    assert (E1 : exists v,
               (attrs g1 !! name a = Some v \/ attrs g2 !! name a = Some v)
               /\ inherit reg self gene2 n a st
                  = (Ok tt, State (<[n := Gene (__class__ gn) (key gn)
                                            (<[name a := v]> (attrs gn))]> (heap st)) d1)).
    { unfold inherit.
      assert (Er : random st = (Ok (draws st 0%nat), st0)) by reflexivity.
      rewrite (bind_ok _ _ _ _ _ Er).
      destruct (Float.ltb Float.half (draws st 0%nat)).
      - exists v1. split; [now left|].
        rewrite (bind_ok _ _ _ _ _ (getattr_ok self g1 _ v1 st0 Hs1 Hv1)).
        rewrite (bind_ok _ _ _ _ _ (clone_ok v1 st0 Hc)).
        apply (setattr_ok n gn _ _ st0 Hn).
      - exists v2. split; [now right|].
        rewrite (bind_ok _ _ _ _ _ (getattr_ok gene2 g2 _ v2 st0 Hs2 Hv2)).
        rewrite (bind_ok _ _ _ _ _ (clone_ok v2 st0 Hc)).
        apply (setattr_ok n gn _ _ st0 Hn). }
    destruct E1 as (v & Hv & E1).
    set (gn1 := Gene (__class__ gn) (key gn) (<[name a := v]> (attrs gn))) in *.
    destruct (IH (State (<[n := gn1]> (heap st)) d1) gn1) as (m & d & E & Hm).
    + simpl. now rewrite lookup_insert_ne.
    + simpl. now rewrite lookup_insert_ne.
    + simpl. apply lookup_insert_eq.
    + intros b Hb. apply Hl. now right.
    + exists m, d. split.
      * simpl. rewrite (bind_ok _ _ _ _ _ E1), E. simpl.
        now rewrite insert_insert_eq.
      * intros k. specialize (Hm k). unfold names in *. simpl.
        destruct (decide (k ∈ name <$> l)) as [Hk|Hk].
        -- rewrite bool_decide_eq_true_2 in Hm by assumption.
           rewrite bool_decide_eq_true_2; [assumption|now right].
        -- rewrite bool_decide_eq_false_2 in Hm by assumption.
           subst gn1. simpl in Hm.
           destruct (decide (k = name a)) as [->|Hka].
           ++ rewrite lookup_insert_eq in Hm.
              rewrite bool_decide_eq_true_2 by left.
              rewrite Hm. destruct Hv as [<-|<-]; auto.
           ++ rewrite lookup_insert_ne in Hm by congruence.
              rewrite bool_decide_eq_false_2; [assumption|].
              intros [?|?]%elem_of_cons; contradiction.
Qed.

Lemma attributes_set_lookup g a :
  attributes_set g = true -> a ∈ _gene_attributes (__class__ g) ->
  is_Some (attrs g !! name a).
Proof.
  unfold attributes_set. rewrite forallb_forall. intros H Ha.
  apply list_elem_of_In in Ha. specialize (H a Ha).
  apply attr_is_Some in H as (v & -> & _). eauto.
Qed.

Lemma name_in_names a l : a ∈ l -> name a ∈ names l.
Proof. intros H. unfold names. now apply list_elem_of_fmap_2. Qed.

Lemma atom_eq_refl a : atom_eq a a = true.
Proof.
  destruct a as [|b|z|s]; simpl; try reflexivity.
  - now destruct b.
  - apply Z.eqb_refl.
  - apply String.eqb_refl.
Qed.

Lemma tuple_eq_refl l : tuple_eq l l = true.
Proof. induction l as [|a l IH]; simpl; [reflexivity|]. now rewrite atom_eq_refl. Qed.

(** A key that a constructor accepts equals itself. *)
Lemma well_keyed_eq g : well_keyed g = true -> data_eq (key g) (key g) = true.
Proof.
  unfold well_keyed, isinstance, data_eq.
  destruct (key g) as [[|b|z|s]|f|l], (__class__ g); try discriminate; intros _; simpl.
  - now destruct b.
  - unfold num_eq. simpl. now rewrite Z.compare_refl.
  - apply tuple_eq_refl.
Qed.

(** A successful [crossover]: the child is a new gene of the class and
    key of [self], every declared attribute of which comes from one of
    the parents, and no other object is touched. *)
Lemma crossover_child (self gene2 : ref) g1 g2 st :
  copies_are_clones ->
  heap st !! self = Some g1 -> heap st !! gene2 = Some g2 ->
  data_eq (key g1) (key g2) = true ->
  well_keyed g1 = true ->
  (forall a, a ∈ _gene_attributes (__class__ g1) ->
             is_Some (attrs g1 !! name a) /\ is_Some (attrs g2 !! name a)) ->
  exists child m d,
    crossover reg self gene2 st
    = (Ok child, State (<[child := Gene (__class__ g1) (key g1) m]> (heap st)) d)
    /\ heap st !! child = None
    /\ forall a, a ∈ _gene_attributes (__class__ g1) ->
                 m !! name a = attrs g1 !! name a \/ m !! name a = attrs g2 !! name a.
Proof.
  intros Hc H1 H2 Hk Hw Hl.
  rewrite (crossover_run reg self gene2 g1 g2 st H1 H2), Hk.
  set (n := fresh (dom (heap st))).
  assert (Hn : heap st !! n = None) by apply fresh_ref_unused.
  set (g0 := Gene (__class__ g1) (key g1) (∅ : gmap string (value obj))).
  set (st1 := State (<[n := g0]> (heap st)) (draws st)).
  assert (En : construct (__class__ g1) (key g1) st = (Ok n, st1)).
  { rewrite construct_run. unfold well_keyed in Hw. now rewrite Hw. }
  rewrite (bind_ok _ _ _ _ _ En).
  assert (Hs1 : self <> n) by congruence.
  assert (Hs2 : gene2 <> n) by congruence.
  destruct (inherit_loop self gene2 n g1 g2 (_gene_attributes (__class__ g1))
              Hc Hs1 Hs2 st1 g0) as (m & d & E & Hm); auto.
  - simpl. now rewrite lookup_insert_ne.
  - simpl. now rewrite lookup_insert_ne.
  - simpl. apply lookup_insert_eq.
  - exists n, m, d. rewrite (bind_ok _ _ _ _ _ E). unfold ret. simpl.
    rewrite insert_insert_eq. split; [reflexivity|]. split; [assumption|].
    intros a Ha. specialize (Hm (name a)).
    now rewrite bool_decide_eq_true_2 in Hm by now apply name_in_names.
Qed.

(** C3.  Crossing a gene with an identical clone of itself (a gene of
    the same class, key and attribute values, at any address) returns,
    for every stream of random draws, a new gene with the same key whose
    value for every declared attribute is the shared value. *)
Theorem crossover_with_identical_clone (self gene2 : ref) g st :
  copies_are_clones ->
  heap st !! self = Some g -> heap st !! gene2 = Some g ->
  well_keyed g = true ->
  attributes_set g = true ->
  exists child g' st',
    crossover reg self gene2 st = (Ok child, st')
    /\ heap st !! child = None
    /\ heap st' !! child = Some g'
    /\ __class__ g' = __class__ g
    /\ key g' = key g
    /\ forall a, a ∈ _gene_attributes (__class__ g) ->
                 attrs g' !! name a = attrs g !! name a.
Proof.
  intros Hc H1 H2 Hw Hs.
  destruct (crossover_child self gene2 g g st Hc H1 H2 (well_keyed_eq g Hw) Hw)
    as (child & m & d & E & Hn & Hm).
  { intros a Ha. split; now apply attributes_set_lookup. }
  eexists child, _, _. split; [exact E|]. split; [exact Hn|].
  split; [apply lookup_insert_eq|]. split; [reflexivity|]. split; [reflexivity|].
  intros a Ha. simpl. now destruct (Hm a Ha).
Qed.

(** C10.  A crossover of two genes with equal keys and all declared
    attributes set succeeds and leaves both parents, and every other gene
    of the heap, as they were, for every stream of random draws. *)
Theorem crossover_leaves_parents_unchanged (self gene2 : ref) g1 g2 st :
  copies_are_clones ->
  heap st !! self = Some g1 -> heap st !! gene2 = Some g2 ->
  data_eq (key g1) (key g2) = true ->
  well_keyed g1 = true ->
  __class__ g2 = __class__ g1 ->
  attributes_set g1 = true -> attributes_set g2 = true ->
  exists child st',
    crossover reg self gene2 st = (Ok child, st')
    /\ heap st' !! self = Some g1
    /\ heap st' !! gene2 = Some g2
    /\ forall r g, heap st !! r = Some g -> heap st' !! r = Some g.
Proof.
  intros Hc H1 H2 Hk Hw Hcls Hs1 Hs2.
  destruct (crossover_child self gene2 g1 g2 st Hc H1 H2 Hk Hw)
    as (child & m & d & E & Hn & _).
  { intros a Ha. split; [now apply attributes_set_lookup|].
    apply attributes_set_lookup; [assumption|now rewrite Hcls]. }
  assert (F : forall r g, heap st !! r = Some g ->
                          <[child := Gene (__class__ g1) (key g1) m]> (heap st) !! r = Some g).
  { intros r g Hr. rewrite lookup_insert_ne; [assumption|congruence]. }
  eexists child, _. split; [exact E|]. simpl. auto.
Qed.

(** A successful [copy]. *)
Lemma copy_run (self : ref) g st :
  copies_are_clones ->
  heap st !! self = Some g ->
  well_keyed g = true ->
  attributes_set g = true ->
  exists new_gene m,
    copy reg self st
    = (Ok new_gene,
       State (<[new_gene := Gene (__class__ g) (key g) m]> (heap st)) (draws st))
    /\ heap st !! new_gene = None
    /\ forall a, a ∈ _gene_attributes (__class__ g) -> m !! name a = attrs g !! name a.
Proof.
  intros Hc H Hw Hs. unfold copy.
  rewrite (bind_ok _ _ _ _ _ (deref_ok _ _ _ H)).
  set (n := fresh (dom (heap st))).
  assert (Hn : heap st !! n = None) by apply fresh_ref_unused.
  set (g0 := Gene (__class__ g) (key g) (∅ : gmap string (value obj))).
  set (st1 := State (<[n := g0]> (heap st)) (draws st)).
  assert (En : construct (__class__ g) (key g) st = (Ok n, st1)).
  { rewrite construct_run. unfold well_keyed in Hw. now rewrite Hw. }
  rewrite (bind_ok _ _ _ _ _ En).
  assert (Hne : self <> n) by congruence.
  destruct (copy_loop self n g (_gene_attributes (__class__ g)) Hc Hne st1 g0)
    as (m & E & Hm).
  - simpl. now rewrite lookup_insert_ne.
  - simpl. apply lookup_insert_eq.
  - intros a Ha. now apply attributes_set_lookup.
  - exists n, m. rewrite (bind_ok _ _ _ _ _ E). unfold ret. simpl.
    rewrite insert_insert_eq. split; [reflexivity|]. split; [assumption|].
    intros a Ha. rewrite Hm.
    now rewrite bool_decide_eq_true_2 by now apply name_in_names.
Qed.

End Effects.

(** The node scenario of the specification with plain names: key 7,
    biases 1.0 and -1.0, responses 0.0, "sigmoid" and "sum", coefficient 1.0. *)
Example node_distance_scenario :
  let st := two_genes (obj := Empty_set)
              (node_gene (int_key 7) (Float.dyadic 1 0) Float.zero (VStr "sigmoid") (VStr "sum"))
              (node_gene (int_key 7) (Float.dyadic (-1) 0) Float.zero (VStr "sigmoid") (VStr "sum"))
              (fun _ => Float.zero) in
  distance no_objects (fun c : spec_float => c) 0%nat 1%nat Float.one st
  = (Ok (VFloat (Float.dyadic 2 0)), st).
Proof. vm_compute. reflexivity. Qed.

Lemma tuned_copies_are_clones : copies_are_clones tuned_functions.
Proof. now intros o c [= <-]. Qed.

(** A node gene whose activation is a registry object, crossed with an
    identical gene at another address. *)
Lemma crossover_with_identical_clone_witness :
  let g := node_gene (int_key 7) (Float.dyadic 1 0) Float.half
             (VObj (Tuned "sigmoid" Float.one)) (VStr "sum") in
  let st := two_genes g g (fun i => if Nat.even i then Float.one else Float.zero) in
  exists child g' st',
    crossover tuned_functions 0%nat 1%nat st = (Ok child, st')
    /\ heap st' !! child = Some g'
    /\ key g' = int_key 7
    /\ attrs g' !! "bias" = Some (VFloat (Float.dyadic 1 0))
    /\ attrs g' !! "activation" = Some (VObj (Tuned "sigmoid" Float.one)).
Proof.
  intros g st.
  destruct (crossover_with_identical_clone tuned_functions 0%nat 1%nat g st)
    as (child & g' & st' & E & _ & Hc & _ & Hk & Ha);
    [exact tuned_copies_are_clones|reflexivity..|].
  exists child, g', st'.
  split; [exact E|]. split; [exact Hc|]. split; [exact Hk|]. split.
  - apply (Ha (FloatAttribute "bias")). simpl. set_solver.
  - apply (Ha (FuncAttribute "activation" "sigmoid")). simpl. set_solver.
Defined.

(** Two connection genes at the locus (1, 2) with different weights. *)
Lemma crossover_leaves_parents_unchanged_witness :
  let g1 := connection_gene (pair_key 1 2) (Float.dyadic 2 0) true in
  let g2 := connection_gene (pair_key 1 2) (Float.dyadic (-1) 0) false in
  let st := two_genes g1 g2 (fun i => if Nat.even i then Float.one else Float.zero) in
  exists child st',
    crossover tuned_functions 0%nat 1%nat st = (Ok child, st')
    /\ heap st' !! 0%nat = Some g1
    /\ heap st' !! 1%nat = Some g2.
Proof.
  intros g1 g2 st.
  destruct (crossover_leaves_parents_unchanged tuned_functions 0%nat 1%nat g1 g2 st)
    as (child & st' & E & H1 & H2 & _);
    [exact tuned_copies_are_clones|reflexivity..|].
  exists child, st'. auto.
Defined.

(** ** Copies of genes whose values are objects with identity *)

Section WorldRun.
Context {object : Type}.
Implicit Types (w : world object).

Lemma wbind_ok {A B} (m : W object A) (k : A -> W object B) w a w' :
  m w = (Ok a, w') -> wbind m k w = k a w'.
Proof. unfold wbind. now intros ->. Qed.

Lemma wbind_inv {A B} (m : W object A) (k : A -> W object B) w res w' :
  wbind m k w = (res, w') ->
  (exists a w1, m w = (Ok a, w1) /\ k a w1 = (res, w'))
  \/ (exists e, m w = (Raise e, w') /\ res = Raise e).
Proof.
  unfold wbind. destruct (m w) as [[a|e] w1]; intros E.
  - left. eauto.
  - right. injection E as <- <-. eauto.
Qed.

Lemma on_genes_run {A} (m : M oref A) w r st :
  m (genes w) = (r, st) -> on_genes m w = (r, World st (objects w)).
Proof. unfold on_genes. now intros ->. Qed.

Lemma on_genes_inv {A} (m : M oref A) w r w' :
  on_genes m w = (r, w') -> m (genes w) = (r, genes w') /\ objects w' = objects w.
Proof. unfold on_genes. destruct (m (genes w)) as [r0 st]. now intros [= <- <-]. Qed.

(** A property every pass through the body of a loop keeps, however the
    pass ends, holds when the loop ends. *)
Lemma wfor_each_invariant {A} (P : world object -> Prop) (body : A -> W object unit) l :
  (forall a w res w', P w -> body a w = (res, w') -> P w') ->
  forall w res w', P w -> wfor_each body l w = (res, w') -> P w'.
Proof.
  intros Hb. induction l as [|a l IH]; intros w res w' Hw E; simpl in E.
  - unfold wret in E. now injection E as _ <-.
  - destruct (wbind_inv _ _ _ _ _ E) as [(u & w1 & E1 & E2)|(e & E1 & _)].
    + eapply IH; [|exact E2]. eapply Hb; eauto.
    + eapply Hb; eauto.
Qed.

End WorldRun.

Section SharedCopy.
Context {object : Type}.
Context (defines_copy : object -> bool).
Context (value_copy : oref -> gmap oref object -> result (value oref) * gmap oref object).
Implicit Types (w : world object) (g : gene oref) (os : gmap oref object).

Lemma clone_of_later os0 os os' v v' :
  (forall o ob, os !! o = Some ob -> os' !! o = Some ob) ->
  clone_of os0 os v v' -> clone_of os0 os' v v'.
Proof.
  intros Hsub. destruct v as [d|o]; simpl; [easy|].
  intros (o' & ob & -> & Ho & Hn & Ho'). exists o', ob. auto.
Qed.

Lemma hasattr_copy_run o ob w :
  objects w !! o = Some ob ->
  Shared.hasattr_copy defines_copy (VObj o) w = (Ok (defines_copy ob), w).
Proof. unfold Shared.hasattr_copy. now intros ->. Qed.

Lemma call_copy_run o w r os :
  value_copy o (objects w) = (r, os) ->
  Shared.call_copy value_copy (VObj o) w = (r, World (genes w) os).
Proof. unfold Shared.call_copy. now intros ->. Qed.

(** One pass through the loop of [copy], on a value [copy] does not
    share. *)
Lemma shared_copy_attribute_run self n g gn a v st os0 os :
  copies_are_new_objects defines_copy value_copy ->
  heap st !! self = Some g -> heap st !! n = Some gn ->
  attrs g !! name a = Some v ->
  copyable defines_copy os0 v = true ->
  (forall o ob, os0 !! o = Some ob -> os !! o = Some ob) ->
  exists v' os',
    Shared.copy_attribute defines_copy value_copy self n a (World st os)
    = (Ok tt,
       World (State (<[n := Gene (__class__ gn) (key gn) (<[name a := v']> (attrs gn))]>
                       (heap st)) (draws st)) os')
    /\ (forall o ob, os !! o = Some ob -> os' !! o = Some ob)
    /\ clone_of os0 os' v v'.
Proof.
  intros Hc Hs Hn Hv Hcp Hsub. unfold Shared.copy_attribute.
  rewrite (wbind_ok _ _ _ _ _ (on_genes_run _ (World st os) _ _ (getattr_ok _ _ _ _ _ Hs Hv))).
  cbn [objects genes]. destruct v as [d|o].
  - exists (VData d), os. split; [|split; [auto|reflexivity]].
    rewrite (wbind_ok (Shared.hasattr_copy defines_copy (VData d)) _ _ false _ eq_refl).
    now rewrite (on_genes_run _ (World st os) _ _ (setattr_ok _ _ _ _ _ Hn)).
  - simpl in Hcp. destruct (os0 !! o) as [ob|] eqn:Ho; [|discriminate].
    pose proof (Hsub o ob Ho) as Ho1.
    destruct (Hc o ob os Ho1 Hcp) as (o' & Ec & Hn').
    exists (VObj o'), (<[o' := ob]> os).
    split; [|split].
    + rewrite (wbind_ok _ _ _ _ _ (hasattr_copy_run o ob (World st os) Ho1)). rewrite Hcp.
      rewrite (wbind_ok _ _ _ _ _ (call_copy_run o (World st os) _ _ Ec)).
      now rewrite (on_genes_run _ (World st _) _ _ (setattr_ok _ _ _ _ _ Hn)).
    + intros p pb Hp. rewrite lookup_insert_ne; [assumption|congruence].
    + exists o', ob. split; [reflexivity|]. split; [assumption|]. split.
      * destruct (os0 !! o') as [x|] eqn:Hx; [|reflexivity].
        rewrite (Hsub o' x Hx) in Hn'. discriminate.
      * apply lookup_insert_eq.
Qed.

(** The loop of [copy]: from a world where [n] is a gene other than
    [self], it ends with [n] holding a clone of the value of [self] for
    the attributes of the list and what it held for the other names.
    The objects there were are left as they were. *)
Lemma shared_copy_loop self n g os0 l :
  copies_are_new_objects defines_copy value_copy -> self <> n ->
  (forall a, a ∈ l ->
     exists v, attrs g !! name a = Some v /\ copyable defines_copy os0 v = true) ->
  forall st os gn,
    heap st !! self = Some g -> heap st !! n = Some gn ->
    (forall o ob, os0 !! o = Some ob -> os !! o = Some ob) ->
    exists m os',
      wfor_each (Shared.copy_attribute defines_copy value_copy self n) l (World st os)
      = (Ok tt, World (State (<[n := Gene (__class__ gn) (key gn) m]> (heap st)) (draws st)) os')
      /\ (forall o ob, os !! o = Some ob -> os' !! o = Some ob)
      /\ forall k,
           if bool_decide (k ∈ names l)
           then exists v v', attrs g !! k = Some v /\ m !! k = Some v'
                             /\ clone_of os0 os' v v'
           else m !! k = attrs gn !! k.
Proof.
  intros Hc Hne. induction l as [|a l IH]; intros Hl st os gn Hs Hn Hsub.
  - exists (attrs gn), os. split; [|split; [auto|reflexivity]].
    simpl. unfold wret. now rewrite gene_eta, insert_id, state_eta.
  - destruct (Hl a) as (v & Hv & Hcp); [left|].
    destruct (shared_copy_attribute_run self n g gn a v st os0 os Hc Hs Hn Hv Hcp Hsub)
      as (v' & os1 & E1 & Hsub1 & Hcl).
    set (gn1 := Gene (__class__ gn) (key gn) (<[name a := v']> (attrs gn))) in *.
    simpl. rewrite (wbind_ok _ _ _ _ _ E1).
    destruct (IH (fun b Hb => Hl b (list_elem_of_further _ _ _ Hb))
                 (State (<[n := gn1]> (heap st)) (draws st)) os1 gn1)
      as (m & os' & E & Hsub' & Hm).
    + simpl. now rewrite lookup_insert_ne.
    + simpl. apply lookup_insert_eq.
    + auto.
    + exists m, os'. split; [|split].
      * rewrite E. simpl. now rewrite insert_insert_eq.
      * auto.
      * intros k. specialize (Hm k). unfold names in *. simpl.
        destruct (decide (k ∈ name <$> l)) as [Hk|Hk].
        -- rewrite bool_decide_eq_true_2 in Hm by assumption.
           rewrite bool_decide_eq_true_2 by now right.
           assumption.
        -- rewrite (bool_decide_eq_false_2 _ Hk) in Hm.
           destruct (decide (k = name a)) as [->|Hka].
           ++ rewrite bool_decide_eq_true_2 by left.
              exists v, v'. split; [assumption|]. split.
              ** rewrite Hm. subst gn1. simpl. apply lookup_insert_eq.
              ** now apply (clone_of_later os0 os1 os').
           ++ rewrite bool_decide_eq_false_2.
              ** rewrite Hm. subst gn1. simpl. now rewrite lookup_insert_ne by congruence.
              ** intros [?|?]%elem_of_cons; contradiction.
Qed.

Lemma attributes_copyable_lookup g os a :
  attributes_copyable defines_copy g os = true ->
  a ∈ _gene_attributes (__class__ g) ->
  exists v, attrs g !! name a = Some v /\ copyable defines_copy os v = true.
Proof.
  unfold attributes_copyable. rewrite forallb_forall. intros H Ha.
  apply list_elem_of_In in Ha. specialize (H a Ha).
  unfold attr_is in H. destruct (attrs g !! name a) as [v|]; [eauto|discriminate].
Qed.

(** A successful [copy]. *)
Lemma shared_copy_run (self : ref) g w :
  copies_are_new_objects defines_copy value_copy ->
  heap (genes w) !! self = Some g ->
  well_keyed g = true ->
  attributes_copyable defines_copy g (objects w) = true ->
  exists new_gene m os',
    Shared.copy defines_copy value_copy self w
    = (Ok new_gene,
       World (State (<[new_gene := Gene (__class__ g) (key g) m]> (heap (genes w)))
                    (draws (genes w))) os')
    /\ heap (genes w) !! new_gene = None
    /\ (forall o ob, objects w !! o = Some ob -> os' !! o = Some ob)
    /\ (forall a, a ∈ _gene_attributes (__class__ g) ->
          exists v v', attrs g !! name a = Some v /\ m !! name a = Some v'
                       /\ clone_of (objects w) os' v v')
    /\ forall k, k ∉ names (_gene_attributes (__class__ g)) -> m !! k = None.
Proof.
  intros Hc H Hw Hs. destruct w as [st os]. simpl in *. unfold Shared.copy.
  rewrite (wbind_ok _ _ _ _ _ (on_genes_run _ (World st os) _ _ (deref_ok _ _ _ H))). simpl.
  set (n := fresh (dom (heap st))).
  assert (Hn : heap st !! n = None) by apply fresh_ref_unused.
  set (g0 := Gene (__class__ g) (key g) (∅ : gmap string (value oref))).
  set (st1 := State (<[n := g0]> (heap st)) (draws st)).
  assert (En : construct (__class__ g) (key g) st = (Ok n, st1)).
  { rewrite construct_run. unfold well_keyed in Hw. now rewrite Hw. }
  rewrite (wbind_ok _ _ _ _ _ (on_genes_run _ (World st os) _ _ En)). simpl.
  assert (Hne : self <> n) by congruence.
  destruct (shared_copy_loop self n g os (_gene_attributes (__class__ g)) Hc Hne
              (fun a Ha => attributes_copyable_lookup g os a Hs Ha) st1 os g0)
    as (m & os' & E & Hsub & Hm).
  - simpl. now rewrite lookup_insert_ne.
  - simpl. apply lookup_insert_eq.
  - auto.
  - exists n, m, os'. rewrite (wbind_ok _ _ _ _ _ E). unfold wret. simpl.
    rewrite insert_insert_eq. split; [reflexivity|]. split; [assumption|].
    split; [assumption|]. split.
    + intros a Ha. specialize (Hm (name a)).
      now rewrite bool_decide_eq_true_2 in Hm by now apply name_in_names.
    + intros k Hk. specialize (Hm k).
      now rewrite bool_decide_eq_false_2 in Hm by assumption.
Qed.

End SharedCopy.

Section SharedMutation.
Context {object config : Type}.
Context (mutate_value : attribute -> value oref -> config -> rng -> gmap oref object
                        -> result (value oref) * rng * gmap oref object).
Implicit Types (w : world object) (g : gene oref) (os : gmap oref object).

(** [mutate] on a gene whose objects are not among the objects [os0]
    leaves every other gene and the objects [os0] as they are, and the
    gene stays such a gene, however the call ends. *)
Lemma shared_mutate_frame (self new_gene : ref) g os0 (cfg : config) w res w' :
  mutates_its_value_only mutate_value ->
  self <> new_gene ->
  (heap (genes w) !! self = Some g
   /\ (forall o ob, os0 !! o = Some ob -> objects w !! o = Some ob)
   /\ forall gn k o, heap (genes w) !! new_gene = Some gn ->
                     attrs gn !! k = Some (VObj o) -> os0 !! o = None) ->
  Shared.mutate mutate_value new_gene cfg w = (res, w') ->
  heap (genes w') !! self = Some g
  /\ (forall o ob, os0 !! o = Some ob -> objects w' !! o = Some ob)
  /\ forall gn k o, heap (genes w') !! new_gene = Some gn ->
                    attrs gn !! k = Some (VObj o) -> os0 !! o = None.
Proof.
  intros Hm Hne HP E. unfold Shared.mutate in E.
  destruct (wbind_inv _ _ _ _ _ E) as [(g0 & w1 & E1 & E2)|(e & E1 & _)]; clear E.
  2: { apply on_genes_inv in E1 as [E1 Eo]. apply deref_inv in E1.
       destruct w as [st os], w' as [st' os']. simpl in *. now subst. }
  apply on_genes_inv in E1 as [E1 Eo]. apply deref_inv in E1.
  assert (w1 = w) as -> by (destruct w, w1; simpl in *; now subst).
  clear E1 Eo.
  revert w res w' HP E2.
  apply (wfor_each_invariant
           (fun w => heap (genes w) !! self = Some g
                     /\ (forall o ob, os0 !! o = Some ob -> objects w !! o = Some ob)
                     /\ forall gn k o, heap (genes w) !! new_gene = Some gn ->
                                       attrs gn !! k = Some (VObj o) -> os0 !! o = None)).
  clear g0. intros a w res w' (Hs & Hos & Hnew) E.
  destruct (wbind_inv _ _ _ _ _ E) as [(v & w1 & E1 & E2)|(e & E1 & _)]; clear E.
  2: { apply on_genes_inv in E1 as [E1 Eo]. apply getattr_inv in E1.
       rewrite E1, Eo. auto. }
  apply on_genes_inv in E1 as [E1 Eo].
  pose proof (getattr_inv _ _ _ _ _ E1) as Eg.
  assert (w1 = w) as -> by (destruct w, w1; simpl in *; now subst).
  clear Eo Eg.
  assert (Hv : exists gn, heap (genes w) !! new_gene = Some gn
                          /\ attrs gn !! name a = Some v).
  { unfold getattr, bind, deref, ret, raise in E1.
    destruct (heap (genes w) !! new_gene) as [gn|]; [|discriminate].
    exists gn. split; [reflexivity|].
    destruct (attrs gn !! name a); [now injection E1 as ->|discriminate]. }
  destruct Hv as (gn & Hgn & Hv). clear E1.
  unfold Shared.call_mutate_value in E2.
  destruct (wbind_inv _ _ _ _ _ E2) as [(v' & w2 & E3 & E4)|(e & E3 & _)]; clear E2.
  - destruct (mutate_value a v cfg (draws (genes w)) (objects w)) as [[r d'] os'] eqn:Em.
    injection E3 as -> <-.
    destruct (Hm _ _ _ _ _ _ _ _ Em) as [Hothers Hret].
    assert (Hos' : forall o ob, os0 !! o = Some ob -> os' !! o = Some ob).
    { intros o ob Ho. apply Hothers; [now apply Hos|].
      intros ->. rewrite (Hnew gn (name a) o Hgn Hv) in Ho. discriminate. }
    apply on_genes_inv in E4 as [E4 Eo]. simpl in E4, Eo.
    destruct (setattr_inv new_gene (name a) v' (State (heap (genes w)) d') _ _ gn Hgn E4)
      as [Eh _].
    simpl in Eh. rewrite Eh, Eo. split; [|split].
    + now rewrite lookup_insert_ne by congruence.
    + assumption.
    + intros gn' k o. rewrite lookup_insert_eq. intros [= <-]. simpl.
      destruct (decide (k = name a)) as [->|Hk].
      * rewrite lookup_insert_eq. intros [= ->].
        destruct (Hret o eq_refl) as [->|Hnone]; [now apply (Hnew gn (name a))|].
        destruct (os0 !! o) as [x|] eqn:Hx; [|reflexivity].
        rewrite (Hos o x Hx) in Hnone. discriminate.
      * rewrite lookup_insert_ne by congruence. now apply Hnew.
  - destruct (mutate_value a v cfg (draws (genes w)) (objects w)) as [[r d'] os'] eqn:Em.
    injection E3 as -> <-. simpl.
    destruct (Hm _ _ _ _ _ _ _ _ Em) as [Hothers _].
    split; [assumption|]. split; [|assumption].
    intros o ob Ho. apply Hothers; [now apply Hos|].
    intros ->. rewrite (Hnew gn (name a) o Hgn Hv) in Ho. discriminate.
Qed.

End SharedMutation.

Section SharedIndependence.
Context {object config : Type}.
Context (defines_copy : object -> bool).
Context (value_copy : oref -> gmap oref object -> result (value oref) * gmap oref object).
Context (mutate_value : attribute -> value oref -> config -> rng -> gmap oref object
                        -> result (value oref) * rng * gmap oref object).
Implicit Types (w : world object) (g : gene oref) (os : gmap oref object).


End SharedIndependence.

Lemma cell_copies_are_new_objects : copies_are_new_objects cell_copies cell_copy.
Proof.
  intros o ob os Ho _. exists (fresh (dom os)). unfold cell_copy. rewrite Ho.
  split; [reflexivity|]. apply not_elem_of_dom, is_fresh.
Qed.

Lemma tune_in_place_mutates_its_value_only : mutates_its_value_only tune_in_place.
Proof.
  intros a v cfg d os r d' os' E. unfold tune_in_place in E.
  destruct v as [[x|f|l]|o].
  - injection E as <- _ <-. split; [auto|]. intros o' [=].
  - injection E as <- _ <-. split; [auto|]. intros o' [=].
  - injection E as <- _ <-. split; [auto|]. intros o' [=].
  - destruct (os !! o) as [ob|] eqn:Ho.
    + injection E as <- _ <-. split.
      * intros p pb Hp Hne. rewrite lookup_insert_ne; [assumption|congruence].
      * intros o' [= <-]. now left.
    + injection E as <- _ <-. split; [auto|]. intros o' [=].
Qed.



(** The counterexample at work: the copy's activation is the object of
    the source, whose parameter the mutation of the copy moves from 3
    to 4. *)
Example copy_of_a_cell_without_copy :
  let w := cell_world (Cell false 3) in
  let w' := snd (Shared.copy cell_copies cell_copy 0%nat w) in
  let w'' := snd (Shared.mutate tune_in_place 1%nat tt w') in
  fst (Shared.copy cell_copies cell_copy 0%nat w) = Ok 1%nat
  /\ attribute_state w' 1%nat "activation" = Some (VObj 0%nat, Some (Cell false 3))
  /\ attribute_state w 0%nat "activation" = Some (VObj 0%nat, Some (Cell false 3))
  /\ attribute_state w'' 0%nat "activation" = Some (VObj 0%nat, Some (Cell false 4)).
Proof. vm_compute. auto. Qed.

(** With a [copy] method the copy gets an object of its own, at address
    1, and the mutation moves that one. *)
Example copy_of_a_cell_with_copy :
  let w := cell_world (Cell true 3) in
  let w' := snd (Shared.copy cell_copies cell_copy 0%nat w) in
  let w'' := snd (Shared.mutate tune_in_place 1%nat tt w') in
  fst (Shared.copy cell_copies cell_copy 0%nat w) = Ok 1%nat
  /\ attribute_state w' 1%nat "activation" = Some (VObj 1%nat, Some (Cell true 3))
  /\ attribute_state w'' 1%nat "activation" = Some (VObj 1%nat, Some (Cell true 4))
  /\ attribute_state w'' 0%nat "activation" = Some (VObj 0%nat, Some (Cell true 3)).
Proof. vm_compute. auto. Qed.

(** * Further properties of the methods *)

(** ** Attribute sets *)

Section AttributeSets.
Context {obj : Type}.
Implicit Types (st : state obj) (g : gene obj) (v : value obj).

Lemma with_rng_ok {A} (f : rng -> result A * rng) st a d :
  f (draws st) = (Ok a, d) -> with_rng (obj := obj) f st = (Ok a, State (heap st) d).
Proof. unfold with_rng. now intros ->. Qed.

(** A gene has every declared attribute set exactly when the declared
    names are among the names it holds. *)
Lemma attributes_set_dom g :
  attributes_set g = true <-> declared_names (__class__ g) ⊆ dom (attrs g).
Proof.
  unfold attributes_set, declared_names. rewrite forallb_forall. split.
  - intros H k Hk. apply elem_of_list_to_set, list_elem_of_fmap in Hk as (a & -> & Ha).
    apply list_elem_of_In in Ha. specialize (H a Ha).
    unfold attr_is in H. apply elem_of_dom.
    destruct (attrs g !! name a); [eauto|discriminate].
  - intros H a Ha. apply list_elem_of_In in Ha.
    assert (Hk : name a ∈ dom (attrs g)).
    { apply H, elem_of_list_to_set, list_elem_of_fmap. eauto. }
    apply elem_of_dom in Hk as [v Hv]. unfold attr_is. now rewrite Hv.
Qed.

Lemma getattr_unset (r : ref) g n st :
  heap st !! r = Some g -> attrs g !! n = None ->
  getattr r n st = (Raise AttributeError, st).
Proof.
  intros H Hn. unfold getattr.
  rewrite (bind_ok _ _ _ _ _ (deref_ok _ _ _ H)). now rewrite Hn.
Qed.

Lemma not_set_when_empty g : attrs g = ∅ -> attributes_set g = false.
Proof.
  intros He. unfold attributes_set, attr_is. rewrite He.
  destruct (__class__ g); reflexivity.
Qed.

(** No declared attribute is called [key]. *)
Lemma declared_not_key (cls : gene_class) a :
  a ∈ _gene_attributes cls -> String.eqb (name a) "key" = false.
Proof.
  intros Ha. apply list_elem_of_In in Ha.
  destruct cls; simpl in Ha; intuition (subst; reflexivity).
Qed.

(** A loop over [l1 ++ l2] is the loop over [l1], then the loop over
    [l2]. *)
Lemma for_each_app {A} (body : A -> M obj unit) l1 l2 st :
  for_each body (l1 ++ l2) st
  = bind (for_each body l1) (fun _ => for_each body l2) st.
Proof.
  revert st. induction l1 as [|a l1 IH]; intros st; simpl.
  - reflexivity.
  - unfold bind. destruct (body a st) as [[[]|e] st1]; [exact (IH st1)|reflexivity].
Qed.

End AttributeSets.

(** ** Initialisation and mutation *)

Section Initialisation.
Context {obj : Type}.
Context {config : Type}.
Context (init_value : attribute -> config -> rng -> result (value obj) * rng).
Implicit Types (st : state obj) (g : gene obj) (v : value obj) (n r : ref).

(** The loop of [init_attributes]. *)
Lemma init_loop (self : ref) (cfg : config) l :
  (forall b d, b ∈ l -> exists v d', init_value b cfg d = (Ok v, d')) ->
  forall st g,
    heap st !! self = Some g ->
    exists m d,
      for_each (fun a => v <- with_rng (init_value a cfg);; setattr self (name a) v)%M l st
      = (Ok tt, State (<[self := Gene (__class__ g) (key g) m]> (heap st)) d)
      /\ dom m = dom (attrs g) ∪ list_to_set (names l)
      /\ forall k, k ∉ names l -> m !! k = attrs g !! k.
Proof.
  intros Hi. induction l as [|a l IH]; intros st g Hs.
  - exists (attrs g), (draws st). split; [|split].
    + simpl. unfold ret. now rewrite gene_eta, insert_id, state_eta.
    + simpl. set_solver.
    + reflexivity.
  - destruct (Hi a (draws st)) as (v & d1 & Ev); [left|].
    set (g1 := Gene (__class__ g) (key g) (<[name a := v]> (attrs g))).
    set (st1 := State (<[self := g1]> (heap st)) d1).
    assert (E1 : (v <- with_rng (init_value a cfg);; setattr self (name a) v)%M st
                 = (Ok tt, st1)).
    { rewrite (bind_ok _ _ _ _ _ (with_rng_ok _ _ _ _ Ev)).
      apply (setattr_ok self g). exact Hs. }
    destruct (IH (fun b d Hb => Hi b d (list_elem_of_further _ _ _ Hb)) st1 g1)
      as (m & d & E & Hd & Hm).
    { simpl. apply lookup_insert_eq. }
    exists m, d. split; [|split].
    + simpl. rewrite (bind_ok _ _ _ _ _ E1), E. simpl.
      now rewrite insert_insert_eq.
    + rewrite Hd. simpl. rewrite dom_insert_L. unfold names. simpl. set_solver.
    + intros k Hk. unfold names in *. simpl in Hk.
      apply not_elem_of_cons in Hk as [Hka Hk].
      rewrite (Hm k Hk). simpl. now rewrite lookup_insert_ne.
Qed.

(** X1.  With an [init_value] that returns, [init_attributes] returns
    on every gene and leaves it with a value for each declared attribute:
    the class and the key are kept, the names set before stay set, and
    no other gene is written. *)
Theorem init_attributes_sets_every_attribute (self : ref) (cfg : config) g st :
  init_returns init_value ->
  heap st !! self = Some g ->
  exists g' st',
    init_attributes init_value self cfg st = (Ok tt, st')
    /\ heap st' = <[self := g']> (heap st)
    /\ __class__ g' = __class__ g /\ key g' = key g
    /\ dom (attrs g') = dom (attrs g) ∪ declared_names (__class__ g)
    /\ attributes_set g' = true.
Proof.
  intros Hi Hs. unfold init_attributes.
  rewrite (bind_ok _ _ _ _ _ (deref_ok _ _ _ Hs)).
  destruct (init_loop self cfg (_gene_attributes (__class__ g))
              (fun b d _ => Hi b cfg d) st g Hs) as (m & d & E & Hd & _).
  eexists _, _. split; [exact E|]. simpl. repeat split; try assumption.
  apply attributes_set_dom. simpl. rewrite Hd. unfold declared_names, names.
  set_solver.
Qed.

(** X2.  A gene that has been constructed and then initialised holds a
    value for each attribute its class declares and for nothing else; its
    key is the one it was given and passes the check of its class. *)
Theorem new_gene_is_exactly_declared (cls : gene_class) (k : data) (cfg : config) st :
  init_returns init_value ->
  isinstance k (key_type cls) = true ->
  exists r g st',
    (r <- construct cls k;; init_attributes init_value r cfg;;; ret r)%M st = (Ok r, st')
    /\ heap st !! r = None
    /\ heap st' = <[r := g]> (heap st)
    /\ __class__ g = cls /\ key g = k
    /\ exactly_declared g
    /\ well_keyed g = true
    /\ attributes_set g = true.
Proof.
  intros Hi Hk.
  set (r := fresh (dom (heap st))).
  set (g0 := Gene cls k (∅ : gmap string (value obj))).
  set (st1 := State (<[r := g0]> (heap st)) (draws st)).
  assert (Er : construct cls k st = (Ok r, st1)).
  { rewrite construct_run, Hk. reflexivity. }
  assert (H0 : heap st1 !! r = Some g0) by apply lookup_insert_eq.
  rewrite (bind_ok _ _ _ _ _ Er).
  destruct (init_loop r cfg (_gene_attributes cls) (fun b d _ => Hi b cfg d) st1 g0 H0)
    as (m & d & E & Hd & _).
  assert (Ei : init_attributes init_value r cfg st1
               = (Ok tt, State (<[r := Gene cls k m]> (heap st1)) d)).
  { unfold init_attributes. now rewrite (bind_ok _ _ _ _ _ (deref_ok _ _ _ H0)). }
  rewrite (bind_ok _ _ _ _ _ Ei). unfold ret.
  exists r, (Gene cls k m). eexists. split; [reflexivity|].
  split; [apply fresh_ref_unused|]. simpl.
  split; [apply insert_insert_eq|].
  assert (Hx : dom m = declared_names cls).
  { rewrite Hd. simpl. rewrite dom_empty_L. unfold declared_names, names. set_solver. }
  repeat split; try assumption.
  apply attributes_set_dom. simpl. now rewrite Hx.
Qed.


End Initialisation.

Section Mutation.
Context {obj : Type}.
Context {config : Type}.
Context (mutate_value : attribute -> value obj -> config -> rng -> result (value obj) * rng).
Implicit Types (st : state obj) (g : gene obj) (v : value obj) (n r : ref).

(** The loop of [mutate]. *)
Lemma mutate_loop (self : ref) (cfg : config) l :
  mutate_returns mutate_value ->
  forall st g,
    heap st !! self = Some g ->
    (forall a, a ∈ l -> is_Some (attrs g !! name a)) ->
    exists m d,
      for_each (fun a => v <- getattr self (name a);;
                         v' <- with_rng (mutate_value a v cfg);;
                         setattr self (name a) v')%M l st
      = (Ok tt, State (<[self := Gene (__class__ g) (key g) m]> (heap st)) d)
      /\ dom m = dom (attrs g)
      /\ forall k, k ∉ names l -> m !! k = attrs g !! k.
Proof.
  intros Hi. induction l as [|a l IH]; intros st g Hs Hl.
  - exists (attrs g), (draws st). split; [|split; reflexivity].
    simpl. unfold ret. now rewrite gene_eta, insert_id, state_eta.
  - destruct (Hl a) as [v Hv]; [left|].
    destruct (Hi a v cfg (draws st)) as (v' & d1 & Ev).
    set (g1 := Gene (__class__ g) (key g) (<[name a := v']> (attrs g))).
    set (st1 := State (<[self := g1]> (heap st)) d1).
    assert (Hd1 : dom (attrs g1) = dom (attrs g)).
    { simpl. rewrite dom_insert_L.
      assert (name a ∈ dom (attrs g)) by (apply elem_of_dom; eauto). set_solver. }
    assert (E1 : (v <- getattr self (name a);;
                  v' <- with_rng (mutate_value a v cfg);;
                  setattr self (name a) v')%M st = (Ok tt, st1)).
    { rewrite (bind_ok _ _ _ _ _ (getattr_ok _ _ _ _ _ Hs Hv)).
      rewrite (bind_ok _ _ _ _ _ (with_rng_ok _ _ _ _ Ev)).
      apply (setattr_ok self g). exact Hs. }
    destruct (IH st1 g1) as (m & d & E & Hd & Hm).
    { simpl. apply lookup_insert_eq. }
    { intros b Hb. apply elem_of_dom. rewrite Hd1. apply elem_of_dom, Hl. now right. }
    exists m, d. split; [|split].
    + simpl. rewrite (bind_ok _ _ _ _ _ E1), E. simpl.
      now rewrite insert_insert_eq.
    + now rewrite Hd.
    + intros k Hk. unfold names in *. simpl in Hk.
      apply not_elem_of_cons in Hk as [Hka Hk].
      rewrite (Hm k Hk). simpl. now rewrite lookup_insert_ne.
Qed.

(** X3.  With a [mutate_value] that returns, [mutate] returns on every
    gene whose declared attributes are set, and keeps the shape of the
    gene: its class, its key and the set of names it holds values for; an
    attribute that is not declared keeps its value, and no other gene is
    written. *)
Theorem mutate_keeps_the_shape (self : ref) (cfg : config) g st :
  mutate_returns mutate_value ->
  heap st !! self = Some g ->
  attributes_set g = true ->
  exists g' st',
    mutate mutate_value self cfg st = (Ok tt, st')
    /\ heap st' = <[self := g']> (heap st)
    /\ __class__ g' = __class__ g /\ key g' = key g
    /\ dom (attrs g') = dom (attrs g)
    /\ attributes_set g' = true
    /\ forall k, k ∉ declared_names (__class__ g) -> attrs g' !! k = attrs g !! k.
Proof.
  intros Hi Hs Ha. unfold mutate.
  rewrite (bind_ok _ _ _ _ _ (deref_ok _ _ _ Hs)).
  destruct (mutate_loop self cfg (_gene_attributes (__class__ g)) Hi st g Hs)
    as (m & d & E & Hd & Hm).
  { intros a. now apply attributes_set_lookup. }
  eexists _, _. split; [exact E|]. simpl. repeat split; try assumption.
  - apply attributes_set_dom. simpl. rewrite Hd. now apply attributes_set_dom.
  - intros k Hk. apply Hm. unfold names. intros Hin. apply Hk.
    unfold declared_names. now apply elem_of_list_to_set.
Qed.

(** The loop of [mutate] under a [mutate_value] that changes nothing. *)
Lemma mutate_loop_keeps (self : ref) (cfg : config) g l :
  mutate_keeps mutate_value ->
  (forall a, a ∈ l -> is_Some (attrs g !! name a)) ->
  forall st,
    heap st !! self = Some g ->
    exists d,
      for_each (fun a => v <- getattr self (name a);;
                         v' <- with_rng (mutate_value a v cfg);;
                         setattr self (name a) v')%M l st
      = (Ok tt, State (heap st) d).
Proof.
  intros Hi Hl. induction l as [|a l IH]; intros st Hs.
  - exists (draws st). simpl. unfold ret. now rewrite state_eta.
  - destruct (Hl a) as [v Hv]; [left|].
    destruct (Hi a v cfg (draws st)) as (d1 & Ev).
    assert (E1 : (v <- getattr self (name a);;
                  v' <- with_rng (mutate_value a v cfg);;
                  setattr self (name a) v')%M st = (Ok tt, State (heap st) d1)).
    { rewrite (bind_ok _ _ _ _ _ (getattr_ok _ _ _ _ _ Hs Hv)).
      rewrite (bind_ok _ _ _ _ _ (with_rng_ok _ _ _ _ Ev)).
      rewrite (setattr_ok self g) by exact Hs. simpl.
      rewrite (insert_id (attrs g)) by exact Hv.
      now rewrite gene_eta, insert_id. }
    destruct (IH (fun b Hb => Hl b (list_elem_of_further _ _ _ Hb)) (State (heap st) d1) Hs)
      as (d & E).
    exists d. simpl. now rewrite (bind_ok _ _ _ _ _ E1), E.
Qed.

(** X4.  Under a [mutate_value] that hands back the value it is given
    (every mutation rate at zero), [mutate] leaves the whole heap as it
    was: the detour through [getattr] and [setattr] changes nothing. *)
Theorem mutate_without_change (self : ref) (cfg : config) g st :
  mutate_keeps mutate_value ->
  heap st !! self = Some g ->
  attributes_set g = true ->
  exists d, mutate mutate_value self cfg st = (Ok tt, State (heap st) d).
Proof.
  intros Hi Hs Ha. unfold mutate.
  rewrite (bind_ok _ _ _ _ _ (deref_ok _ _ _ Hs)).
  apply (mutate_loop_keeps self cfg g); auto.
  intros a. now apply attributes_set_lookup.
Qed.

End Mutation.

(** ** The methods that only read *)

Section Reading.
Context {obj : Type} (reg : registry obj).
Context {config : Type} (compatibility_weight_coefficient : config -> spec_float).
Context (repr : value obj -> string).
Implicit Types (st : state obj) (g : gene obj) (v w d : value obj) (n : string).
Local Abbreviation read_only := (read_only (obj := obj)).

Lemma getattr_run (r : ref) n st : getattr r n st = (attribute_value st r n, st).
Proof.
  unfold getattr, attribute_value, bind, deref, ret, raise.
  destruct (heap st !! r) as [g|]; [|reflexivity].
  now destruct (attrs g !! n).
Qed.

Lemma read_only_bind {A B} (m : M obj A) (k : A -> M obj B) :
  read_only m -> (forall a, read_only (k a)) -> read_only (bind m k).
Proof.
  intros Hm Hk st. unfold bind. specialize (Hm st).
  destruct (m st) as [[a|e] st1]; simpl in Hm; subst st1; [apply Hk|reflexivity].
Qed.

Lemma read_only_lift {A} (r : result A) : read_only (lift r).
Proof. now intros st. Qed.

Lemma read_only_ret {A} (a : A) : read_only (ret a).
Proof. now intros st. Qed.

Lemma read_only_raise {A} (e : exn) : read_only (raise (A := A) e).
Proof. now intros st. Qed.

Lemma read_only_deref (r : ref) : read_only (deref r).
Proof. intros st. unfold deref. now destruct (heap st !! r). Qed.

Lemma read_only_getattr (r : ref) n : read_only (getattr r n).
Proof. intros st. now rewrite getattr_run. Qed.

Lemma read_only_get_key (r : ref) : read_only (get_key r).
Proof.
  unfold get_key. apply read_only_bind; [apply read_only_deref|].
  intros g. apply read_only_ret.
Qed.

Lemma read_only_collect {A B} (f : A -> M obj B) l :
  (forall a, read_only (f a)) -> read_only (collect f l).
Proof.
  intros Hf. induction l as [|a l IH]; simpl.
  - apply read_only_ret.
  - apply read_only_bind; [apply Hf|intros b].
    apply read_only_bind; [apply IH|intros bs]. apply read_only_ret.
Qed.

Lemma read_only_func_penalty (self other : ref) n d :
  read_only (func_penalty reg self other n d).
Proof.
  unfold func_penalty.
  apply read_only_bind; [apply read_only_getattr|intros f].
  destruct (distance_method reg f) as [dist|];
    (apply read_only_bind; [apply read_only_getattr|intros f']).
  - apply read_only_bind; intros; apply read_only_lift.
  - destruct (py_ne reg f f'); [apply read_only_lift|apply read_only_ret].
Qed.

(** X5.  [distance], [__lt__] and [__str__] only read: whatever they
    are applied to, and whether they return or raise, the genes and the
    random source are afterwards as they were before. *)
Theorem reading_methods_change_nothing (self other : ref) (cfg : config) :
  read_only (distance reg compatibility_weight_coefficient self other cfg)
  /\ read_only (BaseGene_lt self other)
  /\ read_only (BaseGene_str repr self).
Proof.
  split; [|split].
  - unfold distance. apply read_only_bind; [apply read_only_deref|intros g].
    destruct (__class__ g).
    + unfold DefaultNodeGene_distance.
      repeat (apply read_only_bind;
              [first [apply read_only_getattr | apply read_only_lift
                     | apply read_only_func_penalty]|intros ?]).
      apply read_only_lift.
    + unfold DefaultConnectionGene_distance.
      do 5 (apply read_only_bind;
            [first [apply read_only_getattr | apply read_only_lift]|intros ?]).
      apply read_only_bind; [|intros; apply read_only_lift].
      destruct (py_ne _ _ _); [apply read_only_lift|apply read_only_ret].
  - unfold BaseGene_lt.
    apply read_only_bind; [apply read_only_get_key|intros k1].
    apply read_only_bind; [apply read_only_get_key|intros k2].
    destruct (isinstance _ _); [apply read_only_lift|apply read_only_raise].
  - unfold BaseGene_str.
    apply read_only_bind; [apply read_only_deref|intros g].
    apply read_only_bind; [|intros; apply read_only_ret].
    apply read_only_collect. intros a.
    apply read_only_bind; [|intros; apply read_only_ret].
    unfold getattr_or_key. destruct (String.eqb a "key").
    + apply read_only_bind; [apply read_only_get_key|intros; apply read_only_ret].
    + apply read_only_getattr.
Qed.

(** *** The distances on what the attributes hold *)

Lemma func_penalty_value (self other : ref) n d st :
  func_penalty reg self other n d st
  = ((f <- attribute_value st self n;;
      f' <- attribute_value st other n;;
      func_penalty_on reg f f' d)%res, st).
Proof.
  unfold func_penalty, func_penalty_on.
  rewrite (bind_run _ _ _ _ _ (getattr_run self n st)).
  destruct (attribute_value st self n) as [f|e]; simpl; [|reflexivity].
  destruct (distance_method reg f) as [dist|];
    rewrite (bind_run _ _ _ _ _ (getattr_run other n st));
    destruct (attribute_value st other n) as [f'|e]; simpl; try reflexivity.
  - rewrite bind_lift. now destruct (dist f').
  - unfold add_one_if. now destruct (py_ne reg f f').
Qed.

Lemma node_distance_value (self other : ref) cfg st :
  DefaultNodeGene_distance reg compatibility_weight_coefficient self other cfg st
  = ((b <- attribute_value st self "bias";;
      b' <- attribute_value st other "bias";;
      db <- abs_diff b b';;
      r <- attribute_value st self "response";;
      r' <- attribute_value st other "response";;
      dr <- abs_diff r r';;
      d <- py_add db dr;;
      d <- (f <- attribute_value st self "activation";;
            f' <- attribute_value st other "activation";;
            func_penalty_on reg f f' d);;
      d <- (f <- attribute_value st self "aggregation";;
            f' <- attribute_value st other "aggregation";;
            func_penalty_on reg f f' d);;
      py_mul d (VFloat (compatibility_weight_coefficient cfg)))%res, st).
Proof.
  unfold DefaultNodeGene_distance.
  rewrite (bind_run _ _ _ _ _ (getattr_run self "bias" st)).
  destruct (attribute_value st self "bias") as [b|e]; simpl; [|reflexivity].
  rewrite (bind_run _ _ _ _ _ (getattr_run other "bias" st)).
  destruct (attribute_value st other "bias") as [b'|e]; simpl; [|reflexivity].
  rewrite bind_lift. fold (abs_diff b b').
  destruct (abs_diff b b') as [db|e]; simpl; [|reflexivity].
  rewrite (bind_run _ _ _ _ _ (getattr_run self "response" st)).
  destruct (attribute_value st self "response") as [r|e]; simpl; [|reflexivity].
  rewrite (bind_run _ _ _ _ _ (getattr_run other "response" st)).
  destruct (attribute_value st other "response") as [r'|e]; simpl; [|reflexivity].
  rewrite bind_lift. fold (abs_diff r r').
  destruct (abs_diff r r') as [dr|e]; simpl; [|reflexivity].
  rewrite bind_lift. destruct (py_add db dr) as [d|e]; simpl; [|reflexivity].
  rewrite (bind_run _ _ _ _ _ (func_penalty_value self other "activation" d st)).
  destruct (rbind (attribute_value st self "activation") _) as [d1|e]; simpl; [|reflexivity].
  rewrite (bind_run _ _ _ _ _ (func_penalty_value self other "aggregation" d1 st)).
  destruct (rbind (attribute_value st self "aggregation") _) as [d2|e]; simpl; reflexivity.
Qed.

Lemma connection_distance_value (self other : ref) cfg st :
  DefaultConnectionGene_distance reg compatibility_weight_coefficient self other cfg st
  = ((w <- attribute_value st self "weight";;
      w' <- attribute_value st other "weight";;
      d <- abs_diff w w';;
      e <- attribute_value st self "enabled";;
      e' <- attribute_value st other "enabled";;
      d <- add_one_if (py_ne reg e e') d;;
      py_mul d (VFloat (compatibility_weight_coefficient cfg)))%res, st).
Proof.
  unfold DefaultConnectionGene_distance.
  rewrite (bind_run _ _ _ _ _ (getattr_run self "weight" st)).
  destruct (attribute_value st self "weight") as [w|x]; simpl; [|reflexivity].
  rewrite (bind_run _ _ _ _ _ (getattr_run other "weight" st)).
  destruct (attribute_value st other "weight") as [w'|x]; simpl; [|reflexivity].
  rewrite bind_lift. fold (abs_diff w w').
  destruct (abs_diff w w') as [d|x]; simpl; [|reflexivity].
  rewrite (bind_run _ _ _ _ _ (getattr_run self "enabled" st)).
  destruct (attribute_value st self "enabled") as [e|x]; simpl; [|reflexivity].
  rewrite (bind_run _ _ _ _ _ (getattr_run other "enabled" st)).
  destruct (attribute_value st other "enabled") as [e'|x]; simpl; [|reflexivity].
  unfold add_one_if. destruct (py_ne reg e e'); [|reflexivity].
  rewrite bind_lift. now destruct (py_add d _).
Qed.

(** *** A distance is not negative *)

Lemma mul_unsigned x y :
  Float.unsigned x -> Float.unsigned y -> Float.unsigned (Float.mul x y).
Proof.
  unfold Float.unsigned, Float.abs, Float.mul.
  destruct x as [sx|sx| |sx mx ex], y as [sy|sy| |sy my ey];
    simpl; intros Hx Hy; try congruence;
    try (injection Hx as <-); try (injection Hy as <-); try reflexivity.
  apply FloatFacts.round_aux_unsigned.
Qed.

Lemma unsigned_not_negative x : Float.unsigned x -> not_negative x = true.
Proof.
  unfold Float.unsigned, not_negative. destruct x as [s|s| |s m e]; simpl;
    intros H; try (injection H as <-); reflexivity.
Qed.

Lemma add_one_if_nonneg (c : bool) d d' :
  nonneg d -> add_one_if c d = Ok d' -> nonneg d'.
Proof.
  unfold add_one_if. intros Hd. destruct c.
  - apply (py_add_nonneg d (VFloat Float.one)); [assumption|].
    exact FloatFacts.one_unsigned.
  - now intros [= <-].
Qed.

Lemma func_penalty_on_nonneg f f' d d' :
  distances_are_floats reg ->
  nonneg d -> func_penalty_on reg f f' d = Ok d' -> nonneg d'.
Proof.
  intros Hf Hd. unfold func_penalty_on, distance_method.
  destruct f as [x|o]; [now apply add_one_if_nonneg|].
  destruct (obj_distance reg o) as [dist|] eqn:Eo; [|now apply add_one_if_nonneg].
  destruct (Hf o dist f' Eo) as (p & -> & Hp). simpl.
  now apply (py_add_nonneg d (VFloat p)).
Qed.

Lemma py_mul_nonneg d c v :
  nonneg d -> Float.unsigned c -> py_mul d (VFloat c) = Ok v ->
  exists x, v = VFloat x /\ Float.unsigned x.
Proof.
  intros Hd Hc. rewrite py_mul_float. unfold nonneg in Hd.
  destruct (value_num d) as [a|] eqn:Ea; [|contradiction].
  unfold num_mul. rewrite (py_arith_float _ _ d a c Ea).
  destruct (to_float a) as [f|e] eqn:Ef; simpl; [|discriminate].
  intros [= <-]. eexists. split; [reflexivity|].
  apply mul_unsigned; [|assumption].
  apply (to_float_unsigned d a f); [|assumption|assumption].
  unfold nonneg. now rewrite Ea.
Qed.

(** X6.  Under a coefficient that is not negative, a distance is never
    negative: whenever [distance] returns, on any two genes, it returns a
    float [x] for which [x < 0.0] is false ([x] is [+0.0], a positive
    number, infinite or a NaN).  A [distance] method of a registry object
    is taken to return a non-negative float. *)
Theorem distance_is_never_negative (self other : ref) (cfg : config) st v :
  distances_are_floats reg ->
  Float.unsigned (compatibility_weight_coefficient cfg) ->
  fst (distance reg compatibility_weight_coefficient self other cfg st) = Ok v ->
  exists x, v = VFloat x /\ Float.unsigned x /\ not_negative x = true.
Proof.
  intros Hf Hc. unfold distance.
  destruct (heap st !! self) as [g|] eqn:Hs;
    [|unfold bind, deref; rewrite Hs; discriminate 1].
  rewrite (bind_ok _ _ _ _ _ (deref_ok _ _ _ Hs)).
  assert (Hm : forall d, nonneg d ->
             py_mul d (VFloat (compatibility_weight_coefficient cfg)) = Ok v ->
             exists x, v = VFloat x /\ Float.unsigned x /\ not_negative x = true).
  { intros d Hd E. destruct (py_mul_nonneg d _ v Hd Hc E) as (x & -> & Hx).
    exists x. auto using unsigned_not_negative. }
  destruct (__class__ g).
  - rewrite node_distance_value. simpl.
    destruct (attribute_value st self "bias") as [b|]; simpl; [|discriminate 1].
    destruct (attribute_value st other "bias") as [b'|]; simpl; [|discriminate 1].
    destruct (abs_diff b b') as [db|] eqn:Eb; simpl; [|discriminate 1].
    destruct (attribute_value st self "response") as [r|]; simpl; [|discriminate 1].
    destruct (attribute_value st other "response") as [r'|]; simpl; [|discriminate 1].
    destruct (abs_diff r r') as [dr|] eqn:Er; simpl; [|discriminate 1].
    destruct (py_add db dr) as [d|] eqn:Ed; simpl; [|discriminate 1].
    assert (Hd : nonneg d).
    { eapply py_add_nonneg; [| |exact Ed]; eapply abs_diff_nonneg; eassumption. }
    destruct (attribute_value st self "activation") as [f|]; simpl; [|discriminate 1].
    destruct (attribute_value st other "activation") as [f'|]; simpl; [|discriminate 1].
    destruct (func_penalty_on reg f f' d) as [d1|] eqn:E1; simpl; [|discriminate 1].
    assert (Hd1 : nonneg d1) by (eapply func_penalty_on_nonneg; eassumption).
    destruct (attribute_value st self "aggregation") as [a|]; simpl; [|discriminate 1].
    destruct (attribute_value st other "aggregation") as [a'|]; simpl; [|discriminate 1].
    destruct (func_penalty_on reg a a' d1) as [d2|] eqn:E2; simpl; [|discriminate 1].
    assert (Hd2 : nonneg d2) by (eapply func_penalty_on_nonneg; eassumption).
    now apply Hm.
  - rewrite connection_distance_value. simpl.
    destruct (attribute_value st self "weight") as [w|]; simpl; [|discriminate 1].
    destruct (attribute_value st other "weight") as [w'|]; simpl; [|discriminate 1].
    destruct (abs_diff w w') as [d|] eqn:Ew; simpl; [|discriminate 1].
    assert (Hd : nonneg d) by (eapply abs_diff_nonneg; eassumption).
    destruct (attribute_value st self "enabled") as [e|]; simpl; [|discriminate 1].
    destruct (attribute_value st other "enabled") as [e'|]; simpl; [|discriminate 1].
    destruct (add_one_if (py_ne reg e e') d) as [d1|] eqn:E1; simpl; [|discriminate 1].
    assert (Hd1 : nonneg d1) by (eapply add_one_if_nonneg; eassumption).
    now apply Hm.
Qed.

End Reading.

(** ** The text of a gene *)

Section Text.
Context {obj : Type} (repr : value obj -> string).
Implicit Types (st : state obj) (g : gene obj) (v : value obj) (n : string).

(** One element of the comprehension of [__str__]. *)
Lemma str_part_run (self : ref) g n st :
  heap st !! self = Some g -> String.eqb n "key" = false ->
  (v <- getattr_or_key self n;;
   ret (String.append n (String.append "=" (repr v))))%M st
  = (match attrs g !! n with
     | Some v => Ok (String.append n (String.append "=" (repr v)))
     | None => Raise AttributeError
     end, st).
Proof.
  intros Hs Hk. unfold getattr_or_key. rewrite Hk.
  destruct (attrs g !! n) as [v|] eqn:Ev.
  - now rewrite (bind_ok _ _ _ _ _ (getattr_ok _ _ _ _ _ Hs Ev)).
  - apply bind_raise. now apply (getattr_unset self g).
Qed.

(** The comprehension of [__str__] over declared attributes. *)
Lemma collect_declared (self : ref) g st l :
  heap st !! self = Some g ->
  (forall a, a ∈ l -> String.eqb (name a) "key" = false) ->
  if forallb (fun a => attr_is (fun _ => true) g (name a)) l
  then exists parts,
         collect (fun a => v <- getattr_or_key self a;;
                           ret (String.append a (String.append "=" (repr v))))%M
                 (name <$> l) st = (Ok parts, st)
  else collect (fun a => v <- getattr_or_key self a;;
                         ret (String.append a (String.append "=" (repr v))))%M
               (name <$> l) st = (Raise AttributeError, st).
Proof.
  intros Hs. induction l as [|a l IH]; intros Hk; simpl.
  - eexists. reflexivity.
  - rewrite (bind_run _ _ _ _ _ (str_part_run self g (name a) st Hs (Hk a (list_elem_of_here _ _)))).
    unfold attr_is at 1.
    destruct (attrs g !! name a) as [v|] eqn:Ev; simpl; [|reflexivity].
    specialize (IH (fun b Hb => Hk b (list_elem_of_further _ _ _ Hb))).
    destruct (forallb _ l).
    + destruct IH as (parts & E). unfold collect in E. rewrite (bind_ok _ _ _ _ _ E).
      eexists. reflexivity.
    + unfold collect in IH. now rewrite (bind_raise _ _ _ _ _ IH).
Qed.

(** [__str__] on a gene of the heap. *)
Lemma str_run (self : ref) g st :
  heap st !! self = Some g ->
  if attributes_set g
  then exists s, BaseGene_str repr self st = (Ok s, st)
  else BaseGene_str repr self st = (Raise AttributeError, st).
Proof.
  intros Hs. unfold BaseGene_str, attributes_set.
  rewrite (bind_ok _ _ _ _ _ (deref_ok _ _ _ Hs)).
  pose proof (collect_declared self g st (_gene_attributes (__class__ g)) Hs
                (declared_not_key (__class__ g))) as H.
  assert (Ek : (v <- getattr_or_key self "key";;
                ret (String.append "key" (String.append "=" (repr v))))%M st
               = (Ok (String.append "key" (String.append "=" (repr (VData (key g))))), st)).
  { unfold getattr_or_key. simpl. unfold get_key, bind, deref, ret. now rewrite Hs. }
  destruct (forallb _ _).
  - destruct H as (parts & E).
    match goal with |- exists s, bind ?m _ _ = _ =>
      assert (Ec : m st = (Ok (String.append "key" (String.append "=" (repr (VData (key g))))
                               :: parts), st))
    end.
    { cbn [collect]. rewrite (bind_ok _ _ _ _ _ Ek).
      unfold collect in E. now rewrite (bind_ok _ _ _ _ _ E). }
    rewrite (bind_ok _ _ _ _ _ Ec). eexists. reflexivity.
  - apply bind_raise. cbn [collect]. rewrite (bind_ok _ _ _ _ _ Ek).
    unfold collect in H. now rewrite (bind_raise _ _ _ _ _ H).
Qed.

(** X7.  [__str__] needs every declared attribute: on a gene with a
    value for each of them it returns a text, on any other gene (a gene
    that was constructed and not initialised, for one) it raises
    [AttributeError]. *)
Theorem str_needs_every_attribute (self : ref) g st :
  heap st !! self = Some g ->
  (attributes_set g = true -> exists s, BaseGene_str repr self st = (Ok s, st))
  /\ (attributes_set g = false -> BaseGene_str repr self st = (Raise AttributeError, st)).
Proof.
  intros Hs. pose proof (str_run self g st Hs) as H.
  split; intros E; now rewrite E in H.
Qed.

End Text.

(** ** A gene whose attributes are not set *)

Section Unset.
Context {obj : Type} (reg : registry obj).
Context {config : Type} (compatibility_weight_coefficient : config -> spec_float).
Context (mutate_value : attribute -> value obj -> config -> rng -> result (value obj) * rng).
Context (repr : value obj -> string).
Implicit Types (st : state obj) (g : gene obj) (v w d : value obj) (n : string).

(** X8.  A gene that was constructed and not initialised holds no
    attribute value, and every method that reads one fails on it:
    [mutate], [distance] and [__str__] raise [AttributeError] and change
    nothing; [copy] raises [AttributeError] as well. *)
Theorem methods_need_initialised_gene (self other : ref) (cfg : config) g st :
  heap st !! self = Some g ->
  attrs g = ∅ ->
  well_keyed g = true ->
  mutate mutate_value self cfg st = (Raise AttributeError, st)
  /\ distance reg compatibility_weight_coefficient self other cfg st
     = (Raise AttributeError, st)
  /\ BaseGene_str repr self st = (Raise AttributeError, st)
  /\ fst (copy reg self st) = Raise AttributeError.
Proof.
  intros Hs He Hw.
  assert (Hn : forall n, attrs g !! n = None) by (intros n; now rewrite He).
  split; [|split; [|split]].
  - unfold mutate. rewrite (bind_ok _ _ _ _ _ (deref_ok _ _ _ Hs)).
    destruct (__class__ g); simpl; apply bind_raise, bind_raise;
      now apply (getattr_unset self g).
  - unfold distance. rewrite (bind_ok _ _ _ _ _ (deref_ok _ _ _ Hs)).
    destruct (__class__ g); apply bind_raise; now apply (getattr_unset self g).
  - pose proof (str_run repr self g st Hs) as H.
    now rewrite (not_set_when_empty g He) in H.
  - unfold copy. rewrite (bind_ok _ _ _ _ _ (deref_ok _ _ _ Hs)).
    set (n := fresh (dom (heap st))).
    assert (Hfresh : heap st !! n = None) by apply fresh_ref_unused.
    set (st1 := State (<[n := Gene (__class__ g) (key g) ∅]> (heap st)) (draws st)).
    assert (En : construct (__class__ g) (key g) st = (Ok n, st1)).
    { rewrite construct_run. unfold well_keyed in Hw. now rewrite Hw. }
    rewrite (bind_ok _ _ _ _ _ En).
    assert (H1 : heap st1 !! self = Some g).
    { simpl. rewrite lookup_insert_ne; [assumption|congruence]. }
    assert (El : for_each (copy_attribute reg self n) (_gene_attributes (__class__ g)) st1
                 = (Raise AttributeError, st1)).
    { destruct (__class__ g); simpl; apply bind_raise, bind_raise;
        now apply (getattr_unset self g). }
    now rewrite (bind_raise _ _ _ _ _ El).
Qed.

End Unset.

(** ** What a copy holds *)

Section Copies.
Context {obj : Type} (reg : registry obj).
Context {config : Type} (compatibility_weight_coefficient : config -> spec_float).
Implicit Types (st : state obj) (g : gene obj) (v w d : value obj) (n : string).

(** [copy] on a gene of the heap, with every attribute of the new gene. *)
Lemma copy_exact (self : ref) g st :
  copies_are_clones reg ->
  heap st !! self = Some g ->
  well_keyed g = true ->
  attributes_set g = true ->
  exists new_gene m,
    copy reg self st
    = (Ok new_gene,
       State (<[new_gene := Gene (__class__ g) (key g) m]> (heap st)) (draws st))
    /\ heap st !! new_gene = None
    /\ forall k, m !! k = if bool_decide (k ∈ names (_gene_attributes (__class__ g)))
                          then attrs g !! k else None.
Proof.
  intros Hc H Hw Hs. unfold copy.
  rewrite (bind_ok _ _ _ _ _ (deref_ok _ _ _ H)).
  set (n := fresh (dom (heap st))).
  assert (Hn : heap st !! n = None) by apply fresh_ref_unused.
  set (g0 := Gene (__class__ g) (key g) (∅ : gmap string (value obj))).
  set (st1 := State (<[n := g0]> (heap st)) (draws st)).
  assert (En : construct (__class__ g) (key g) st = (Ok n, st1)).
  { rewrite construct_run. unfold well_keyed in Hw. now rewrite Hw. }
  rewrite (bind_ok _ _ _ _ _ En).
  assert (Hne : self <> n) by congruence.
  destruct (copy_loop reg self n g (_gene_attributes (__class__ g)) Hc Hne st1 g0)
    as (m & E & Hm).
  - simpl. now rewrite lookup_insert_ne.
  - simpl. apply lookup_insert_eq.
  - intros a Ha. now apply attributes_set_lookup.
  - exists n, m. rewrite (bind_ok _ _ _ _ _ E). unfold ret. simpl.
    rewrite insert_insert_eq. split; [reflexivity|]. split; [assumption|].
    intros k. rewrite Hm. now destruct (bool_decide _).
Qed.

(** X9.  A copy holds the declared attributes and nothing else: a value
    the source holds under a name its class does not declare is not
    carried over.  Copying draws no random number, and the new gene is at
    an address that was not in use.  [__copy__], which the [copy] module
    of the library calls, gives the same. *)
Theorem copy_holds_declared_attributes_only (self : ref) g st :
  copies_are_clones reg ->
  heap st !! self = Some g ->
  well_keyed g = true ->
  attributes_set g = true ->
  exists new_gene g' st',
    copy reg self st = (Ok new_gene, st')
    /\ BaseGene_copy__ reg self st = (Ok new_gene, st')
    /\ heap st !! new_gene = None
    /\ heap st' = <[new_gene := g']> (heap st)
    /\ draws st' = draws st
    /\ exactly_declared g'
    /\ forall k, k ∉ declared_names (__class__ g) -> attrs g' !! k = None.
Proof.
  intros Hc H Hw Hs.
  destruct (copy_exact self g st Hc H Hw Hs) as (n & m & E & Hn & Hm).
  eexists n, _, _. split; [exact E|]. split; [exact E|]. simpl.
  repeat split; try assumption.
  - unfold exactly_declared, declared_names. simpl.
    apply set_eq. intros k. rewrite elem_of_dom, elem_of_list_to_set, Hm.
    fold (names (_gene_attributes (__class__ g))).
    destruct (decide (k ∈ names (_gene_attributes (__class__ g)))) as [Hk|Hk].
    + rewrite bool_decide_eq_true_2 by assumption. split; [auto|intros _].
      apply list_elem_of_fmap in Hk as (a & -> & Ha).
      now apply attributes_set_lookup.
    + rewrite bool_decide_eq_false_2 by assumption. split; [|contradiction].
      now intros [? ?].
  - intros k Hk. rewrite Hm, bool_decide_eq_false_2; [reflexivity|].
    intros Hin. apply Hk. unfold declared_names. now apply elem_of_list_to_set.
Qed.

Lemma finite_valued_set g : finite_valued reg g = true -> attributes_set g = true.
Proof.
  unfold finite_valued, attributes_set. destruct (__class__ g); simpl; intros H.
  - apply andb_prop in H as [H Ha]. apply andb_prop in H as [H Hf].
    apply andb_prop in H as [Hb Hr].
    apply attr_is_Some in Hb as (b & Eb & _), Hr as (r & Er & _),
      Hf as (f & Ef & _), Ha as (a & Ea & _).
    unfold attr_is. now rewrite Eb, Er, Ef, Ea.
  - apply andb_prop in H as [Hw He].
    apply attr_is_Some in Hw as (w & Ew & _), He as (e & Ee & _).
    unfold attr_is. now rewrite Ew, Ee.
Qed.

(** Two genes of one class with the same finite values are at distance
    zero. *)
Lemma distance_between_same_values (self other : ref) g g' cfg st :
  heap st !! self = Some g -> heap st !! other = Some g' ->
  (forall a, a ∈ _gene_attributes (__class__ g) -> attrs g' !! name a = attrs g !! name a) ->
  finite_valued reg g = true ->
  Float.is_finite (compatibility_weight_coefficient cfg) = true ->
  exists v,
    distance reg compatibility_weight_coefficient self other cfg st = (Ok v, st)
    /\ py_eq reg v (VFloat Float.zero) = true.
Proof.
  intros H H' Hm Hg Hc. unfold distance.
  rewrite (bind_ok _ _ _ _ _ (deref_ok _ _ _ H)).
  unfold finite_valued in Hg. destruct (__class__ g).
  - apply andb_prop in Hg as [Hg Ha]. apply andb_prop in Hg as [Hg Hf].
    apply andb_prop in Hg as [Hb Hr].
    apply attr_is_Some in Hb as (b & Eb & Hb), Hr as (r & Er & Hr),
      Hf as (f & Ef & Hf), Ha as (a & Ea & Ha).
    assert (Eb' : attrs g' !! "bias" = Some b).
    { rewrite <- Eb. apply (Hm (FloatAttribute "bias")), list_elem_of_In. simpl. auto. }
    assert (Er' : attrs g' !! "response" = Some r).
    { rewrite <- Er. apply (Hm (FloatAttribute "response")), list_elem_of_In. simpl. auto. }
    assert (Ef' : attrs g' !! "activation" = Some f).
    { rewrite <- Ef. apply (Hm (FuncAttribute "activation" "sigmoid")), list_elem_of_In.
      simpl. auto. }
    assert (Ea' : attrs g' !! "aggregation" = Some a).
    { rewrite <- Ea. apply (Hm (FuncAttribute "aggregation" "sum")), list_elem_of_In.
      simpl. auto. }
    rewrite (node_distance_run reg _ self other g g' b b r r f f a a) by assumption.
    unfold node_distance_on.
    destruct (abs_diff_self b Hb) as (db & -> & Zb).
    destruct (abs_diff_self r Hr) as (dr & -> & Zr). simpl.
    destruct (py_add_zero db dr Zb Zr) as (d & -> & Zd). simpl.
    destruct (func_penalty_on_itself reg f d Hf Zd) as (d1 & -> & Z1). simpl.
    destruct (func_penalty_on_itself reg a d1 Ha Z1) as (d2 & -> & Z2). simpl.
    destruct (py_mul_zero d2 _ Z2 Hc) as (s & -> & Zs).
    eauto using zero_number_eq.
  - apply andb_prop in Hg as [Hw He].
    apply attr_is_Some in Hw as (w & Ew & Hw), He as (e & Ee & He).
    assert (Ew' : attrs g' !! "weight" = Some w).
    { rewrite <- Ew. apply (Hm (FloatAttribute "weight")), list_elem_of_In. simpl. auto. }
    assert (Ee' : attrs g' !! "enabled" = Some e).
    { rewrite <- Ee. apply (Hm (BoolAttribute "enabled")), list_elem_of_In. simpl. auto. }
    rewrite (connection_distance_run reg _ self other g g' w w e e) by assumption.
    unfold connection_distance_on.
    destruct (abs_diff_self w Hw) as (d & -> & Zd). simpl.
    unfold py_ne. rewrite He. simpl.
    destruct (py_mul_zero d _ Zd Hc) as (s & -> & Zs).
    eauto using zero_number_eq.
Qed.

Lemma finite_valued_same_values g g' :
  __class__ g' = __class__ g ->
  (forall a, a ∈ _gene_attributes (__class__ g) -> attrs g' !! name a = attrs g !! name a) ->
  finite_valued reg g' = finite_valued reg g.
Proof.
  intros Hc Hm. unfold finite_valued, attr_is. rewrite Hc.
  assert (Hn : forall a, In a (_gene_attributes (__class__ g)) ->
                         attrs g' !! name a = attrs g !! name a).
  { intros a Ha. now apply Hm, list_elem_of_In. }
  destruct (__class__ g); simpl in Hn.
  - pose proof (Hn (FloatAttribute "bias")) as Eb.
    pose proof (Hn (FloatAttribute "response")) as Er.
    pose proof (Hn (FuncAttribute "activation" "sigmoid")) as Ef.
    pose proof (Hn (FuncAttribute "aggregation" "sum")) as Ea.
    simpl in Eb, Er, Ef, Ea. rewrite Eb, Er, Ef, Ea by auto 10. reflexivity.
  - pose proof (Hn (FloatAttribute "weight")) as Ew.
    pose proof (Hn (BoolAttribute "enabled")) as Ee.
    simpl in Ew, Ee. rewrite Ew, Ee by auto 10. reflexivity.
Qed.

(** X10.  A gene and its copy are at distance zero, in either order: the
    result compares equal to zero.  The key of the gene passes the check
    of its constructor, its numbers are finite, its enabled flag equals
    itself and its function values are at penalty zero from themselves
    (a value that defines no distance and equals itself, or one whose
    own distance to itself is zero); the coefficient is finite, and the
    [copy] method of a value returns the value's equal. *)
Theorem distance_to_copy_is_zero (self : ref) g cfg st :
  copies_are_clones reg ->
  heap st !! self = Some g ->
  well_keyed g = true ->
  finite_valued reg g = true ->
  Float.is_finite (compatibility_weight_coefficient cfg) = true ->
  exists new_gene st',
    copy reg self st = (Ok new_gene, st')
    /\ (exists v, distance reg compatibility_weight_coefficient self new_gene cfg st'
                  = (Ok v, st')
                  /\ py_eq reg v (VFloat Float.zero) = true)
    /\ (exists v, distance reg compatibility_weight_coefficient new_gene self cfg st'
                  = (Ok v, st')
                  /\ py_eq reg v (VFloat Float.zero) = true).
Proof.
  intros Hc H Hw Hg Hf.
  destruct (copy_exact self g st Hc H Hw (finite_valued_set g Hg)) as (n & m & E & Hn & Hm).
  set (g' := Gene (__class__ g) (key g) m).
  eexists n, _. split; [exact E|].
  assert (Hne : self <> n) by congruence.
  assert (Hv : forall a, a ∈ _gene_attributes (__class__ g) ->
                         attrs g' !! name a = attrs g !! name a).
  { intros a Ha. simpl. rewrite Hm.
    now rewrite bool_decide_eq_true_2 by now apply name_in_names. }
  split.
  - apply (distance_between_same_values self n g g'); auto.
    + simpl. now rewrite lookup_insert_ne.
    + simpl. apply lookup_insert_eq.
  - apply (distance_between_same_values n self g' g); auto.
    + simpl. apply lookup_insert_eq.
    + simpl. now rewrite lookup_insert_ne.
    + intros a Ha. symmetry. now apply Hv.
    + now rewrite (finite_valued_same_values g g').
Qed.

End Copies.

(** ** The draws of a crossover *)

Section Draws.
Context {obj : Type} (reg : registry obj).
Implicit Types (st : state obj) (g : gene obj) (v : value obj) (n r : ref).

(** A class declares no name twice. *)
Lemma declared_names_distinct (cls : gene_class) : NoDup (names (_gene_attributes cls)).
Proof. destruct cls; apply (bool_decide_unpack _); vm_compute; exact I. Qed.

(** The loop of [crossover], draw by draw: the attribute at position
    [i] of the list takes the value of [self] when draw [i] is above 0.5
    and the value of [gene2] otherwise, and the loop uses up one draw per
    attribute. *)
Lemma inherit_loop_draws (self gene2 n : ref) g1 g2 l :
  copies_are_clones reg -> self <> n -> gene2 <> n ->
  NoDup (names l) ->
  forall st gn,
    heap st !! self = Some g1 -> heap st !! gene2 = Some g2 ->
    heap st !! n = Some gn ->
    (forall a, a ∈ l -> is_Some (attrs g1 !! name a) /\ is_Some (attrs g2 !! name a)) ->
    exists m,
      for_each (inherit reg self gene2 n) l st
      = (Ok tt, State (<[n := Gene (__class__ gn) (key gn) m]> (heap st))
                      (fun j => draws st (length l + j)%nat))
      /\ (forall (i : nat) a, l !! i = Some a ->
            m !! name a = if Float.ltb Float.half (draws st i)
                          then attrs g1 !! name a else attrs g2 !! name a)
      /\ (forall k, k ∉ names l -> m !! k = attrs gn !! k).
Proof.
  intros Hc Hne1 Hne2. induction l as [|a l IH]; intros Hnd st gn Hs1 Hs2 Hn Hl.
  - exists (attrs gn). split; [|split].
    + simpl. unfold ret. now rewrite gene_eta, insert_id, state_eta.
    + intros i a Hi. discriminate Hi.
    + reflexivity.
  - unfold names in Hnd. simpl in Hnd. apply NoDup_cons in Hnd as [Hna Hnd].
    destruct (Hl a) as [[v1 Hv1] [v2 Hv2]]; [left|].
    set (d1 := fun i => draws st (S i)).
    set (st0 := State (heap st) d1).
    set (v := if Float.ltb Float.half (draws st 0%nat) then v1 else v2).
    set (gn1 := Gene (__class__ gn) (key gn) (<[name a := v]> (attrs gn))).
    assert (E1 : inherit reg self gene2 n a st
                 = (Ok tt, State (<[n := gn1]> (heap st)) d1)).
    { unfold inherit.
      assert (Er : random st = (Ok (draws st 0%nat), st0)) by reflexivity.
      rewrite (bind_ok _ _ _ _ _ Er). subst gn1 v.
      destruct (Float.ltb Float.half (draws st 0%nat)).
      - rewrite (bind_ok _ _ _ _ _ (getattr_ok self g1 _ v1 st0 Hs1 Hv1)).
        rewrite (bind_ok _ _ _ _ _ (clone_ok reg v1 st0 Hc)).
        apply (setattr_ok n gn _ _ st0 Hn).
      - rewrite (bind_ok _ _ _ _ _ (getattr_ok gene2 g2 _ v2 st0 Hs2 Hv2)).
        rewrite (bind_ok _ _ _ _ _ (clone_ok reg v2 st0 Hc)).
        apply (setattr_ok n gn _ _ st0 Hn). }
    destruct (IH Hnd (State (<[n := gn1]> (heap st)) d1) gn1) as (m & E & Hm & Ho).
    + simpl. now rewrite lookup_insert_ne.
    + simpl. now rewrite lookup_insert_ne.
    + simpl. apply lookup_insert_eq.
    + intros b Hb. apply Hl. now right.
    + exists m. split; [|split].
      * simpl. rewrite (bind_ok _ _ _ _ _ E1), E. simpl.
        now rewrite insert_insert_eq.
      * intros [|i] b Hi.
        -- injection Hi as <-. rewrite (Ho (name a) Hna). subst gn1 v. simpl.
           rewrite lookup_insert_eq.
           now destruct (Float.ltb Float.half (draws st 0%nat)).
        -- apply (Hm i b Hi).
      * intros k Hk. unfold names in Hk. simpl in Hk.
        apply not_elem_of_cons in Hk as [Hka Hk].
        rewrite (Ho k Hk). subst gn1. simpl. now rewrite lookup_insert_ne.
Qed.

(** X11.  [crossover] decides attribute by attribute, one draw each, in
    the order of declaration: the child takes the value of [self] for the
    attribute at position [i] when draw [i] is above 0.5, and the value of
    [gene2] otherwise (also at exactly 0.5).  The call uses up as many
    draws as the class declares attributes, and the child holds the
    declared attributes and nothing else. *)
Theorem crossover_follows_the_draws (self gene2 : ref) g1 g2 st :
  copies_are_clones reg ->
  heap st !! self = Some g1 -> heap st !! gene2 = Some g2 ->
  data_eq (key g1) (key g2) = true ->
  well_keyed g1 = true ->
  __class__ g2 = __class__ g1 ->
  attributes_set g1 = true -> attributes_set g2 = true ->
  exists child g' st',
    crossover reg self gene2 st = (Ok child, st')
    /\ heap st !! child = None
    /\ heap st' = <[child := g']> (heap st)
    /\ (forall (i : nat) a, _gene_attributes (__class__ g1) !! i = Some a ->
          attrs g' !! name a = if Float.ltb Float.half (draws st i)
                               then attrs g1 !! name a else attrs g2 !! name a)
    /\ (forall j, draws st' j
                  = draws st (length (_gene_attributes (__class__ g1)) + j)%nat)
    /\ __class__ g' = __class__ g1 /\ key g' = key g1
    /\ exactly_declared g'.
Proof.
  intros Hc H1 H2 Hk Hw Hcls Hset1 Hset2.
  assert (Hl : forall a, a ∈ _gene_attributes (__class__ g1) ->
                         is_Some (attrs g1 !! name a) /\ is_Some (attrs g2 !! name a)).
  { intros a Ha. split; apply attributes_set_lookup; try assumption.
    now rewrite Hcls. }
  rewrite (crossover_run reg self gene2 g1 g2 st H1 H2), Hk.
  set (n := fresh (dom (heap st))).
  assert (Hn : heap st !! n = None) by apply fresh_ref_unused.
  set (g0 := Gene (__class__ g1) (key g1) (∅ : gmap string (value obj))).
  set (st1 := State (<[n := g0]> (heap st)) (draws st)).
  assert (En : construct (__class__ g1) (key g1) st = (Ok n, st1)).
  { rewrite construct_run. unfold well_keyed in Hw. now rewrite Hw. }
  rewrite (bind_ok _ _ _ _ _ En).
  assert (Hs1 : self <> n) by congruence.
  assert (Hs2 : gene2 <> n) by congruence.
  destruct (inherit_loop_draws self gene2 n g1 g2 (_gene_attributes (__class__ g1))
              Hc Hs1 Hs2 (declared_names_distinct _) st1 g0) as (m & E & Hm & Ho); auto.
  - simpl. now rewrite lookup_insert_ne.
  - simpl. now rewrite lookup_insert_ne.
  - simpl. apply lookup_insert_eq.
  - exists n, (Gene (__class__ g1) (key g1) m). eexists.
    rewrite (bind_ok _ _ _ _ _ E). unfold ret. simpl.
    split; [reflexivity|]. split; [assumption|]. simpl.
    split; [apply insert_insert_eq|].
    split; [exact Hm|]. split; [reflexivity|]. split; [reflexivity|].
    split; [reflexivity|].
    unfold exactly_declared, declared_names. simpl.
    apply set_eq. intros k. rewrite elem_of_dom, elem_of_list_to_set.
    fold (names (_gene_attributes (__class__ g1))). split.
    + intros Hsome. destruct (decide (k ∈ names (_gene_attributes (__class__ g1))))
        as [Hin|Hout]; [assumption|].
      rewrite (Ho k Hout) in Hsome. simpl in Hsome. rewrite lookup_empty in Hsome.
      now destruct Hsome.
    + intros Hin. apply list_elem_of_fmap in Hin as (a & -> & Ha).
      destruct (Hl a Ha) as [S1 S2].
      apply list_elem_of_lookup in Ha as [i Hi]. rewrite (Hm i a Hi).
      now destruct (Float.ltb _ _).
Qed.

Lemma key_types_differ (k1 k2 : data) (c1 c2 : gene_class) :
  c1 <> c2 ->
  isinstance k1 (key_type c1) = true -> isinstance k2 (key_type c2) = true ->
  data_eq k1 k2 = false.
Proof.
  intros Hne. unfold isinstance.
  destruct c1, c2; try contradiction; simpl;
    destruct k1 as [[|b1|z1|s1]|f1|l1]; try discriminate;
    destruct k2 as [[|b2|z2|s2]|f2|l2]; try discriminate; reflexivity.
Qed.

(** X12.  A node gene and a connection gene are never crossed: the key
    of one is an int, the key of the other a tuple, the two are never
    equal, and [crossover] raises [AssertionError] in either order,
    changing nothing. *)
Theorem crossover_across_classes_fails (self gene2 : ref) g1 g2 st :
  heap st !! self = Some g1 -> heap st !! gene2 = Some g2 ->
  well_keyed g1 = true -> well_keyed g2 = true ->
  __class__ g1 <> __class__ g2 ->
  crossover reg self gene2 st = (Raise AssertionError, st)
  /\ crossover reg gene2 self st = (Raise AssertionError, st).
Proof.
  intros H1 H2 W1 W2 Hne. split.
  - rewrite (crossover_run reg self gene2 g1 g2 st H1 H2).
    now rewrite (key_types_differ _ _ _ _ Hne W1 W2).
  - rewrite (crossover_run reg gene2 self g2 g1 st H2 H1).
    now rewrite (key_types_differ (key g2) (key g1) _ _ (not_eq_sym Hne) W2 W1).
Qed.

End Draws.

(** ** The order of the keys *)

Section Order.
Context {obj : Type}.
Implicit Types (st : state obj) (g : gene obj).

(** [__lt__] on two genes of the heap. *)
Lemma lt_run (self other : ref) g1 g2 st :
  heap st !! self = Some g1 ->
  heap st !! other = Some g2 ->
  BaseGene_lt self other st
  = (if isinstance (key g1) (type_of (key g2)) then data_lt (key g1) (key g2)
     else Raise AssertionError, st).
Proof.
  intros H1 H2. unfold BaseGene_lt.
  rewrite (bind_ok _ _ _ _ _ (get_key_ok _ _ _ H1)).
  rewrite (bind_ok _ _ _ _ _ (get_key_ok _ _ _ H2)).
  destruct (isinstance _ _); reflexivity.
Qed.

Lemma int_tuple_order (l1 l2 : list atom) :
  plain_key (DTuple l1) = true -> plain_key (DTuple l2) = true ->
  exists b12 b21,
    tuple_lt l1 l2 = Ok b12 /\ tuple_lt l2 l1 = Ok b21
    /\ b12 && b21 = false
    /\ b12 || b21 = negb (tuple_eq l1 l2).
Proof.
  simpl. revert l2. induction l1 as [|a l1 IH]; intros [|b l2] P1 P2; simpl.
  - exists false, false. auto.
  - exists true, false. auto.
  - exists false, true. auto.
  - simpl in P1, P2. destruct a as [| |x|]; try discriminate.
    destruct b as [| |y|]; try discriminate. simpl in P1, P2.
    unfold atom_eq, atom_lt. simpl. rewrite (Z.eqb_sym y x).
    destruct (x =? y) eqn:Exy.
    + apply (IH l2 P1 P2).
    + apply Z.eqb_neq in Exy. exists (x <? y), (y <? x).
      destruct (Z.ltb_spec x y), (Z.ltb_spec y x); simpl; repeat split; lia.
Qed.

Lemma plain_key_order (k1 k2 : data) :
  plain_key k1 = true -> plain_key k2 = true -> type_of k1 = type_of k2 ->
  exists b12 b21,
    data_lt k1 k2 = Ok b12 /\ data_lt k2 k1 = Ok b21
    /\ b12 && b21 = false
    /\ b12 || b21 = negb (data_eq k1 k2).
Proof.
  destruct k1 as [[| |x|]|?|l1]; try discriminate;
    destruct k2 as [[| |y|]|?|l2]; try discriminate; intros P1 P2 _.
  - exists (x <? y), (y <? x). unfold data_lt, data_eq, num_lt, num_eq, Z.ltb. simpl.
    rewrite (Z.compare_antisym x y).
    destruct (x ?= y); simpl; repeat split; reflexivity.
  - apply (int_tuple_order l1 l2 P1 P2).
Qed.

(** X13.  On keys that are ints, and on keys that are tuples of ints,
    [__lt__] is a strict total order that agrees with [==]: for two genes
    with keys of one type it returns in both directions, never [True] in
    both, and in neither exactly when the keys are equal (the test that
    [crossover] asserts). *)
Theorem lt_orders_plain_keys (self other : ref) g1 g2 st :
  heap st !! self = Some g1 -> heap st !! other = Some g2 ->
  plain_key (key g1) = true -> plain_key (key g2) = true ->
  type_of (key g1) = type_of (key g2) ->
  exists b12 b21,
    BaseGene_lt self other st = (Ok b12, st)
    /\ BaseGene_lt other self st = (Ok b21, st)
    /\ b12 && b21 = false
    /\ b12 || b21 = negb (data_eq (key g1) (key g2)).
Proof.
  intros H1 H2 P1 P2 Ht.
  destruct (plain_key_order _ _ P1 P2 Ht) as (b12 & b21 & E12 & E21 & Ha & Hb).
  exists b12, b21.
  rewrite (lt_run self other g1 g2 st H1 H2), (lt_run other self g2 g1 st H2 H1).
  rewrite E12, E21, <- Ht.
  assert (Ei : isinstance (key g1) (type_of (key g1)) = true).
  { unfold isinstance. now destruct (type_of (key g1)). }
  assert (Ei' : isinstance (key g2) (type_of (key g1)) = true).
  { rewrite Ht. unfold isinstance. now destruct (type_of (key g2)). }
  rewrite Ei, Ei'. auto.
Qed.

Lemma int_tuple_lt_trans (l1 l2 l3 : list atom) :
  plain_key (DTuple l1) = true -> plain_key (DTuple l2) = true ->
  plain_key (DTuple l3) = true ->
  tuple_lt l1 l2 = Ok true -> tuple_lt l2 l3 = Ok true -> tuple_lt l1 l3 = Ok true.
Proof.
  simpl. revert l2 l3.
  induction l1 as [|a l1 IH]; intros [|b l2] [|c l3] P1 P2 P3; simpl;
    try discriminate; try reflexivity.
  simpl in P1, P2, P3.
  destruct a as [| |x|]; try discriminate.
  destruct b as [| |y|]; try discriminate.
  destruct c as [| |z|]; try discriminate. simpl in P1, P2, P3.
  unfold atom_eq, atom_lt. simpl.
  destruct (Z.eqb_spec x y), (Z.eqb_spec y z), (Z.eqb_spec x z); try lia; intros A B.
  - apply (IH l2 l3 P1 P2 P3 A B).
  - subst. exact B.
  - subst. exact A.
  - injection A as A. injection B as B. apply Z.ltb_lt in A, B. lia.
  - injection A as A. injection B as B. apply Z.ltb_lt in A, B.
    f_equal. apply Z.ltb_lt. lia.
Qed.

(** X14.  On such keys [__lt__] is transitive, so that sorting genes
    with it puts them in the order of their keys. *)
Theorem lt_is_transitive_on_plain_keys (a b c : ref) ga gb gc st :
  heap st !! a = Some ga -> heap st !! b = Some gb -> heap st !! c = Some gc ->
  plain_key (key ga) = true -> plain_key (key gb) = true -> plain_key (key gc) = true ->
  BaseGene_lt a b st = (Ok true, st) ->
  BaseGene_lt b c st = (Ok true, st) ->
  BaseGene_lt a c st = (Ok true, st).
Proof.
  intros Ha Hb Hc Pa Pb Pc.
  rewrite (lt_run a b ga gb st Ha Hb), (lt_run b c gb gc st Hb Hc),
    (lt_run a c ga gc st Ha Hc).
  destruct (key ga) as [[| |x|]|?|l1]; try discriminate;
    destruct (key gb) as [[| |y|]|?|l2]; try discriminate;
    destruct (key gc) as [[| |z|]|?|l3]; try discriminate;
    unfold isinstance; simpl; try discriminate.
  - unfold data_lt, num_lt. simpl.
    destruct (x ?= y) eqn:E1; try discriminate.
    destruct (y ?= z) eqn:E2; try discriminate. intros _ _.
    pose proof (proj1 (Z.compare_lt_iff x y) E1) as L1.
    pose proof (proj1 (Z.compare_lt_iff y z) E2) as L2.
    assert (E3 : (x ?= z) = Lt) by (apply Z.compare_lt_iff; lia).
    now rewrite E3.
  - intros [= E1] [= E2]. f_equal.
    apply (int_tuple_lt_trans l1 l2 l3 Pa Pb Pc E1 E2).
Qed.

End Order.

(** ** The configuration parameters of a class *)

Section ConfigParams.
Context {param : Type} (attribute_params : attribute -> list param).

(** X15.  [get_config_params] settles after one call: called again on
    the class as the first call left it, it gives the same result, leaves
    the class alone and issues no further warning; so the deprecation
    warning for the older attribute name is issued once per class.  It
    raises [AttributeError] exactly when the class has neither attribute,
    and for the two classes of the module it returns the parameters of
    the declared attributes, in their order, without a warning. *)
Theorem get_config_params_settles (cls : class_object) (issued : list warning) :
  let out := get_config_params attribute_params cls issued in
  get_config_params attribute_params (snd (fst out)) (snd out) = out
  /\ (fst (fst out) = Raise AttributeError
      <-> class_gene_attributes cls = None /\ class_legacy_gene_attributes cls = None)
  /\ (forall c : gene_class,
        get_config_params attribute_params (class_of c) issued
        = (Ok (flat_map attribute_params (_gene_attributes c)), class_of c, issued)).
Proof.
  unfold get_config_params.
  destruct (class_gene_attributes cls) as [l|] eqn:E.
  - simpl. rewrite E. repeat split; try discriminate. now intros [? _].
  - destruct (class_legacy_gene_attributes cls) as [l|] eqn:E'; simpl.
    + repeat split; try discriminate. now intros [_ ?].
    + rewrite E, E'. repeat split; auto.
Qed.

End ConfigParams.

(** ** The properties at work *)

Lemma sample_init_returns : init_returns sample_init.
Proof. intros [n|n|n o] cfg d; eexists _, _; reflexivity. Qed.

Lemma sample_mutate_returns : mutate_returns sample_mutate.
Proof.
  intros a v cfg d. unfold sample_mutate.
  destruct v as [[x|x|x]|o]; eexists _, _; reflexivity.
Qed.

Lemma no_mutation_keeps : mutate_keeps no_mutation.
Proof. intros a v cfg d. eexists. reflexivity. Qed.

Lemma no_objects_copies_are_clones : copies_are_clones no_objects.
Proof. intros []. Qed.

Lemma no_objects_distances_are_floats : distances_are_floats no_objects.
Proof. intros []. Qed.

(** A new node gene with key 1 is initialised. *)
Lemma init_attributes_sets_every_attribute_witness :
  let g := uninitialised (obj := Empty_set) DefaultNodeGene (int_key 1) in
  let st := one_gene g (fun _ => Float.half) in
  exists g' st',
    init_attributes sample_init 0%nat tt st = (Ok tt, st')
    /\ heap st' = <[0%nat := g']> (heap st)
    /\ __class__ g' = __class__ g /\ key g' = key g
    /\ dom (attrs g') = dom (attrs g) ∪ declared_names (__class__ g)
    /\ attributes_set g' = true.
Proof.
  intros g st.
  apply (init_attributes_sets_every_attribute sample_init 0%nat tt g st).
  - exact sample_init_returns.
  - reflexivity.
Defined.


(** A connection gene with key (1, 2) is constructed and initialised. *)
Lemma new_gene_is_exactly_declared_witness :
  exists r g st',
    (r <- construct DefaultConnectionGene (pair_key 1 2);;
     init_attributes sample_init r tt;;; ret r)%M empty_state = (Ok r, st')
    /\ heap empty_state !! r = None
    /\ heap st' = <[r := g]> (heap empty_state)
    /\ __class__ g = DefaultConnectionGene /\ key g = pair_key 1 2
    /\ exactly_declared g
    /\ well_keyed g = true
    /\ attributes_set g = true.
Proof.
  apply (new_gene_is_exactly_declared sample_init DefaultConnectionGene (pair_key 1 2)
           tt empty_state).
  - exact sample_init_returns.
  - reflexivity.
Defined.

(** A node gene is mutated. *)
Lemma mutate_keeps_the_shape_witness :
  let g := node_gene (obj := Empty_set) (int_key 7) Float.one Float.zero
             (VStr "sigmoid") (VStr "sum") in
  let st := one_gene g (fun _ => Float.half) in
  exists g' st',
    mutate sample_mutate 0%nat tt st = (Ok tt, st')
    /\ heap st' = <[0%nat := g']> (heap st)
    /\ __class__ g' = __class__ g /\ key g' = key g
    /\ dom (attrs g') = dom (attrs g)
    /\ attributes_set g' = true
    /\ forall k, k ∉ declared_names (__class__ g) -> attrs g' !! k = attrs g !! k.
Proof.
  intros g st.
  apply (mutate_keeps_the_shape sample_mutate 0%nat tt g st).
  - exact sample_mutate_returns.
  - reflexivity.
  - reflexivity.
Defined.

(** The same gene under mutation rates of zero. *)
Lemma mutate_without_change_witness :
  let g := node_gene (obj := Empty_set) (int_key 7) Float.one Float.zero
             (VStr "sigmoid") (VStr "sum") in
  let st := one_gene g (fun _ => Float.half) in
  exists d, mutate no_mutation 0%nat tt st = (Ok tt, State (heap st) d).
Proof.
  intros g st.
  apply (mutate_without_change no_mutation 0%nat tt g st).
  - exact no_mutation_keeps.
  - reflexivity.
  - reflexivity.
Defined.

(** Weights 2.0 and -1.0, flags that differ, coefficient 0.5: the
    distance 2.0 is not negative. *)
Lemma distance_is_never_negative_witness :
  exists x, VFloat (obj := Empty_set) (Float.dyadic 2 0) = VFloat x
            /\ Float.unsigned x /\ not_negative x = true.
Proof.
  apply (distance_is_never_negative no_objects half_coefficient 0%nat 1%nat tt
           (two_genes (connection_gene (pair_key 1 2) (Float.dyadic 2 0) true)
                      (connection_gene (pair_key 1 2) (Float.dyadic (-1) 0) false)
                      (fun _ => Float.zero))).
  - exact no_objects_distances_are_floats.
  - reflexivity.
  - vm_compute. reflexivity.
Defined.

(** An initialised node gene has a text. *)
Lemma str_needs_every_attribute_witness :
  let g := node_gene (obj := Empty_set) (int_key 7) Float.one Float.zero
             (VStr "sigmoid") (VStr "sum") in
  let st := one_gene g (fun _ => Float.half) in
  (attributes_set g = true -> exists s, BaseGene_str sample_repr 0%nat st = (Ok s, st))
  /\ (attributes_set g = false -> BaseGene_str sample_repr 0%nat st = (Raise AttributeError, st)).
Proof.
  intros g st. apply (str_needs_every_attribute sample_repr 0%nat g st). reflexivity.
Defined.

(** A node gene that was constructed and not initialised. *)
Lemma methods_need_initialised_gene_witness :
  let g := uninitialised (obj := Empty_set) DefaultNodeGene (int_key 1) in
  let st := one_gene g (fun _ => Float.half) in
  mutate sample_mutate 0%nat tt st = (Raise AttributeError, st)
  /\ distance no_objects half_coefficient 0%nat 0%nat tt st = (Raise AttributeError, st)
  /\ BaseGene_str sample_repr 0%nat st = (Raise AttributeError, st)
  /\ fst (copy no_objects 0%nat st) = Raise AttributeError.
Proof.
  intros g st.
  apply (methods_need_initialised_gene no_objects half_coefficient sample_mutate sample_repr
           0%nat 0%nat tt g st); reflexivity.
Defined.

(** A connection gene is copied. *)
Lemma copy_holds_declared_attributes_only_witness :
  let g := connection_gene (obj := Empty_set) (pair_key 1 2) Float.one true in
  let st := one_gene g (fun _ => Float.half) in
  exists new_gene g' st',
    copy no_objects 0%nat st = (Ok new_gene, st')
    /\ BaseGene_copy__ no_objects 0%nat st = (Ok new_gene, st')
    /\ heap st !! new_gene = None
    /\ heap st' = <[new_gene := g']> (heap st)
    /\ draws st' = draws st
    /\ exactly_declared g'
    /\ forall k, k ∉ declared_names (__class__ g) -> attrs g' !! k = None.
Proof.
  intros g st.
  apply (copy_holds_declared_attributes_only no_objects 0%nat g st).
  - exact no_objects_copies_are_clones.
  - reflexivity.
  - reflexivity.
  - reflexivity.
Defined.

(** A node gene is at distance zero from its copy. *)
Lemma distance_to_copy_is_zero_witness :
  let g := node_gene (obj := Empty_set) (int_key 7) Float.one Float.zero
             (VStr "sigmoid") (VStr "sum") in
  let st := one_gene g (fun _ => Float.half) in
  exists new_gene st',
    copy no_objects 0%nat st = (Ok new_gene, st')
    /\ (exists v, distance no_objects half_coefficient 0%nat new_gene tt st' = (Ok v, st')
                  /\ py_eq no_objects v (VFloat Float.zero) = true)
    /\ (exists v, distance no_objects half_coefficient new_gene 0%nat tt st' = (Ok v, st')
                  /\ py_eq no_objects v (VFloat Float.zero) = true).
Proof.
  intros g st.
  apply (distance_to_copy_is_zero no_objects half_coefficient 0%nat g tt st).
  - exact no_objects_copies_are_clones.
  - reflexivity.
  - reflexivity.
  - reflexivity.
  - reflexivity.
Defined.

(** Two connection genes with key (1, 2) are crossed. *)
Lemma crossover_follows_the_draws_witness :
  let g1 := connection_gene (obj := Empty_set) (pair_key 1 2) Float.one true in
  let g2 := connection_gene (obj := Empty_set) (pair_key 1 2) Float.zero false in
  let st := two_genes g1 g2 (fun i => if Nat.even i then Float.one else Float.half) in
  exists child g' st',
    crossover no_objects 0%nat 1%nat st = (Ok child, st')
    /\ heap st !! child = None
    /\ heap st' = <[child := g']> (heap st)
    /\ (forall (i : nat) a, _gene_attributes (__class__ g1) !! i = Some a ->
          attrs g' !! name a = if Float.ltb Float.half (draws st i)
                               then attrs g1 !! name a else attrs g2 !! name a)
    /\ (forall j, draws st' j
                  = draws st (length (_gene_attributes (__class__ g1)) + j)%nat)
    /\ __class__ g' = __class__ g1 /\ key g' = key g1
    /\ exactly_declared g'.
Proof.
  intros g1 g2 st.
  apply (crossover_follows_the_draws no_objects 0%nat 1%nat g1 g2 st).
  - exact no_objects_copies_are_clones.
  - reflexivity.
  - reflexivity.
  - reflexivity.
  - reflexivity.
  - reflexivity.
  - reflexivity.
  - reflexivity.
Defined.

(** A node gene against a connection gene. *)
Lemma crossover_across_classes_fails_witness :
  let g1 := node_gene (obj := Empty_set) (int_key 7) Float.one Float.zero
              (VStr "sigmoid") (VStr "sum") in
  let g2 := connection_gene (obj := Empty_set) (pair_key 1 2) Float.one true in
  let st := two_genes g1 g2 (fun _ => Float.zero) in
  crossover no_objects 0%nat 1%nat st = (Raise AssertionError, st)
  /\ crossover no_objects 1%nat 0%nat st = (Raise AssertionError, st).
Proof.
  intros g1 g2 st.
  apply (crossover_across_classes_fails no_objects 0%nat 1%nat g1 g2 st);
    try reflexivity.
  discriminate.
Defined.

(** The keys (1, 2) and (1, 3). *)
Lemma lt_orders_plain_keys_witness :
  let g1 := connection_gene (obj := Empty_set) (pair_key 1 2) Float.one true in
  let g2 := connection_gene (obj := Empty_set) (pair_key 1 3) Float.one true in
  let st := two_genes g1 g2 (fun _ => Float.zero) in
  exists b12 b21,
    BaseGene_lt 0%nat 1%nat st = (Ok b12, st)
    /\ BaseGene_lt 1%nat 0%nat st = (Ok b21, st)
    /\ b12 && b21 = false
    /\ b12 || b21 = negb (data_eq (key g1) (key g2)).
Proof.
  intros g1 g2 st.
  apply (lt_orders_plain_keys 0%nat 1%nat g1 g2 st); reflexivity.
Defined.

(** The keys 3, 5 and 8. *)
Lemma lt_is_transitive_on_plain_keys_witness :
  let gene k := node_gene (obj := Empty_set) (int_key k) Float.zero Float.zero
                  (VStr "sigmoid") (VStr "sum") in
  let st := State (<[0%nat := gene 3]> (<[1%nat := gene 5]> (<[2%nat := gene 8]> ∅)))
                  (fun _ => Float.zero) in
  BaseGene_lt 0%nat 2%nat st = (Ok true, st).
Proof.
  intros gene st.
  apply (lt_is_transitive_on_plain_keys 0%nat 1%nat 2%nat (gene 3) (gene 5) (gene 8) st);
    reflexivity.
Defined.
